(** * Read Aloud: the article parser (content/articleParser.js)

    A shallow embedding of the [ArticleParser] module: the page
    classifier [isArticlePage], the extraction strategies behind
    [extractContent] and [extractFallbackContent], the noise filters
    [isButtonText] and [isUIElement], and the final assembly
    [getReadableText].

    Modelling conventions.
    - A JavaScript string is the [string] of its UTF-16 code units; the
      model covers code units below 256, so one [ascii] is one code unit
      and [String.length] is the [.length] of the source.
    - The document is a snapshot: a tree of text and element nodes, the
      document title and [window.location.pathname].  [innerText] depends
      on layout, so every element carries the value the host reports for
      it at snapshot time.
    - An element handed out by a query is a node together with the chain
      of its ancestors, which is what [closest] and the child combinator
      of a selector inspect.
    - [console.log] calls that are not behind the [DEBUG] flag (which is
      the constant [false]) are kept: the console is threaded through
      [isArticlePage] as explicit state. *)

From Stdlib Require Import String Ascii List Bool Arith Lia.
From stdpp Require Import gmap strings list.
Import ListNotations.
Open Scope string_scope.
Open Scope nat_scope.
Open Scope list_scope.
Set Warnings "-register-all".

(** ** Strings *)

Module Js.

(** Code unit of a character. *)
Definition code (c : ascii) : nat := nat_of_ascii c.

(** White space and line terminators among the code units below 256:
    TAB, LF, VT, FF, CR, SP and NBSP.  This is the class [\s] of a
    regular expression and the set stripped by [trim]. *)
Definition isWhiteSpace (c : ascii) : bool :=
  let n := code c in
  ((9 <=? n) && (n <=? 13)) || (n =? 32) || (n =? 160).

(** [\d] *)
Definition isDigit (c : ascii) : bool :=
  let n := code c in (48 <=? n) && (n <=? 57).

Definition isUpperAZ (c : ascii) : bool :=
  let n := code c in (65 <=? n) && (n <=? 90).

Definition isLowerAZ (c : ascii) : bool :=
  let n := code c in (97 <=? n) && (n <=? 122).

(** [\w]: letters, digits and the underscore. *)
Definition isWord (c : ascii) : bool :=
  isUpperAZ c || isLowerAZ c || isDigit c || (code c =? 95).

(** [toLowerCase] on one code unit: A-Z, and the Latin-1 capitals
    U+00C0..U+00DE except the multiplication sign U+00D7. *)
Definition lowerChar (c : ascii) : ascii :=
  let n := code c in
  if isUpperAZ c then ascii_of_nat (n + 32)
  else if (192 <=? n) && (n <=? 222) && negb (n =? 215) then ascii_of_nat (n + 32)
  else c.

(** [toUpperCase] restricted to a-z; used for [tagName] and for the
    canonical form of the [i] flag, where only ASCII letters occur in the
    patterns. *)
Definition upperChar (c : ascii) : ascii :=
  if isLowerAZ c then ascii_of_nat (code c - 32) else c.

Fixpoint mapString (f : ascii -> ascii) (s : string) : string :=
  match s with
  | EmptyString => EmptyString
  | String c s' => String (f c) (mapString f s')
  end.

Definition toLowerCase (s : string) : string := mapString lowerChar s.
Definition toUpperCase (s : string) : string := mapString upperChar s.

(** A string as a condition: the empty string is falsy. *)
Definition truthy (s : string) : bool :=
  match s with EmptyString => false | String _ _ => true end.

Fixpoint trimStart (s : string) : string :=
  match s with
  | EmptyString => EmptyString
  | String c s' => if isWhiteSpace c then trimStart s' else s
  end.

Fixpoint trimEnd (s : string) : string :=
  match s with
  | EmptyString => EmptyString
  | String c s' =>
      match trimEnd s' with
      | EmptyString => if isWhiteSpace c then EmptyString else String c EmptyString
      | t => String c t
      end
  end.

(** [String.prototype.trim] *)
Definition trim (s : string) : string := trimEnd (trimStart s).

(** [s.startsWith(p)] *)
Fixpoint startsWith (p s : string) : bool :=
  match p, s with
  | EmptyString, _ => true
  | String a p', String b s' => Ascii.eqb a b && startsWith p' s'
  | String _ _, EmptyString => false
  end.

(** [s.includes(sub)] *)
Fixpoint includes (sub s : string) : bool :=
  startsWith sub s ||
  match s with
  | EmptyString => false
  | String _ s' => includes sub s'
  end.

(** [s.split(sep)] for a one-character separator. *)
Fixpoint split (sep : ascii) (s : string) : list string :=
  match s with
  | EmptyString => [EmptyString]
  | String c s' =>
      if Ascii.eqb c sep then EmptyString :: split sep s'
      else match split sep s' with
           | [] => [String c EmptyString]
           | x :: xs => String c x :: xs
           end
  end.

(** [parts.join(sep)] *)
Fixpoint join (sep : string) (parts : list string) : string :=
  match parts with
  | [] => EmptyString
  | [x] => x
  | x :: xs => x +:+ sep +:+ join sep xs
  end.

(** The longest prefix of [s] whose characters satisfy [p], and the rest. *)
Fixpoint span (p : ascii -> bool) (s : string) : string * string :=
  match s with
  | EmptyString => (EmptyString, EmptyString)
  | String c s' =>
      if p c then let '(a, b) := span p s' in (String c a, b)
      else (EmptyString, s)
  end.

End Js.

(** ** Regular expressions

    The patterns of the source use no back-references or look-around, so
    a pattern is a regular language and matching is membership.  The
    matcher works by derivatives. *)

Module Re.

Inductive regex : Type :=
| Void                                   (* matches nothing *)
| Eps                                    (* the empty string *)
| Cls (p : ascii -> bool)                (* one character of a class *)
| Cat (r1 r2 : regex)
| Alt (r1 r2 : regex)
| Star (r : regex).

Definition Plus (r : regex) : regex := Cat r (Star r).
Definition Opt (r : regex) : regex := Alt r Eps.

(** One literal character. *)
Definition Chr (c : ascii) : regex := Cls (Ascii.eqb c).

(** One literal character under the [i] flag. *)
Definition ChrI (c : ascii) : regex :=
  Cls (fun x => Ascii.eqb (Js.upperChar x) (Js.upperChar c)).

Fixpoint Lit (s : string) : regex :=
  match s with
  | EmptyString => Eps
  | String c s' => Cat (Chr c) (Lit s')
  end.

Fixpoint LitI (s : string) : regex :=
  match s with
  | EmptyString => Eps
  | String c s' => Cat (ChrI c) (LitI s')
  end.

(** [(a|b|...)] *)
Fixpoint AnyOf (rs : list regex) : regex :=
  match rs with
  | [] => Void
  | [r] => r
  | r :: rs' => Alt r (AnyOf rs')
  end.

Definition Digit : regex := Cls Js.isDigit.
Definition Space : regex := Cls Js.isWhiteSpace.
Definition Word : regex := Cls Js.isWord.

Fixpoint nullable (r : regex) : bool :=
  match r with
  | Void => false
  | Eps => true
  | Cls _ => false
  | Cat r1 r2 => nullable r1 && nullable r2
  | Alt r1 r2 => nullable r1 || nullable r2
  | Star _ => true
  end.

Definition cat (r1 r2 : regex) : regex :=
  match r1, r2 with
  | Void, _ => Void
  | _, Void => Void
  | Eps, _ => r2
  | _, _ => Cat r1 r2
  end.

Definition alt (r1 r2 : regex) : regex :=
  match r1, r2 with
  | Void, _ => r2
  | _, Void => r1
  | _, _ => Alt r1 r2
  end.

Fixpoint deriv (c : ascii) (r : regex) : regex :=
  match r with
  | Void => Void
  | Eps => Void
  | Cls p => if p c then Eps else Void
  | Cat r1 r2 =>
      if nullable r1 then alt (cat (deriv c r1) r2) (deriv c r2)
      else cat (deriv c r1) r2
  | Alt r1 r2 => alt (deriv c r1) (deriv c r2)
  | Star r1 => cat (deriv c r1) (Star r1)
  end.

(** The language of a pattern. *)
Inductive matches : regex -> string -> Prop :=
| MEps : matches Eps EmptyString
| MCls (p : ascii -> bool) (c : ascii) :
    p c = true -> matches (Cls p) (String c EmptyString)
| MCat (r1 r2 : regex) (s1 s2 : string) :
    matches r1 s1 -> matches r2 s2 -> matches (Cat r1 r2) (s1 +:+ s2)
| MAltL (r1 r2 : regex) (s : string) : matches r1 s -> matches (Alt r1 r2) s
| MAltR (r1 r2 : regex) (s : string) : matches r2 s -> matches (Alt r1 r2) s
| MStarNil (r : regex) : matches (Star r) EmptyString
| MStarApp (r : regex) (s1 s2 : string) :
    matches r s1 -> matches (Star r) s2 -> matches (Star r) (s1 +:+ s2).

(** [/^r$/.test(s)]: the whole of [s] is in the language of [r]. *)
Fixpoint fullMatch (r : regex) (s : string) : bool :=
  match s with
  | EmptyString => nullable r
  | String c s' => fullMatch (deriv c r) s'
  end.

(** [/^r/.test(s)]: some prefix of [s] is in the language of [r]. *)
Fixpoint prefixMatch (r : regex) (s : string) : bool :=
  nullable r ||
  match s with
  | EmptyString => false
  | String c s' => prefixMatch (deriv c r) s'
  end.

(** [/r/.test(s)]: some substring of [s] is in the language of [r]. *)
Fixpoint search (r : regex) (s : string) : bool :=
  prefixMatch r s ||
  match s with
  | EmptyString => false
  | String _ s' => search r s'
  end.

End Re.

(** ** The document *)

Module Dom.

(** What an element carries besides its children: the local name (lower
    case, as an HTML parser stores it), the attributes, and the
    [innerText] the host reports for it. *)
Record ElementData : Type := mkElementData {
  localName : string;
  attributes : list (string * string);
  renderedText : string
}.

Inductive Node : Type :=
| TextNode (data : string)
| ElementNode (e : ElementData) (childNodes : list Node).

(** An element reference: the node and its ancestors, nearest first. *)
Record Element : Type := mkElement {
  node : Node;
  ancestors : list Node
}.

(** The snapshot the engine reads. *)
Record Document : Type := mkDocument {
  pathname : string;          (* window.location.pathname *)
  title : string;             (* document.title *)
  documentElement : Node
}.

Definition isElementNode (n : Node) : bool :=
  match n with ElementNode _ _ => true | TextNode _ => false end.

Definition nodeLocalName (n : Node) : string :=
  match n with ElementNode e _ => localName e | TextNode _ => "" end.

Fixpoint lookupAttr (name : string) (attrs : list (string * string)) : option string :=
  match attrs with
  | [] => None
  | (k, v) :: rest => if String.eqb k name then Some v else lookupAttr name rest
  end.

Definition nodeAttribute (name : string) (n : Node) : option string :=
  match n with
  | ElementNode e _ => lookupAttr name (attributes e)
  | TextNode _ => None
  end.

(** [el.getAttribute(name)] *)
Definition getAttribute (name : string) (el : Element) : option string :=
  nodeAttribute name (node el).

(** A reflected string attribute such as [.alt] or [.content]: the empty
    string when the attribute is absent. *)
Definition reflected (name : string) (n : Node) : string :=
  match nodeAttribute name n with Some v => v | None => "" end.

(** [el.tagName] *)
Definition nodeTagName (n : Node) : string := Js.toUpperCase (nodeLocalName n).
Definition tagName (el : Element) : string := nodeTagName (node el).

(** [el.innerText]; the source guards every read with [|| ''], which is
    the identity on a string. *)
Definition innerText (el : Element) : string :=
  match node el with
  | ElementNode e _ => renderedText e
  | TextNode _ => ""
  end.

(** [node.textContent]: the text of all descendant text nodes, in order. *)
Fixpoint nodeTextContent (n : Node) : string :=
  match n with
  | TextNode s => s
  | ElementNode _ cs =>
      (fix go (l : list Node) : string :=
         match l with
         | [] => ""
         | c :: l' => nodeTextContent c +:+ go l'
         end) cs
  end.

Definition textContent (el : Element) : string := nodeTextContent (node el).

(** The elements of the subtree rooted at [n], [n] first, in document
    order, each with its ancestor chain. *)
Fixpoint subtree (anc : list Node) (n : Node) {struct n} : list Element :=
  match n with
  | TextNode _ => []
  | ElementNode _ cs =>
      mkElement n anc ::
      (fix go (l : list Node) : list Element :=
         match l with
         | [] => []
         | c :: l' => subtree (n :: anc) c ++ go l'
         end) cs
  end.

(** The proper descendants of an element, in document order. *)
Definition descendants (el : Element) : list Element :=
  tail (subtree (ancestors el) (node el)).

(** Every node below [n] (text and elements, [n] excluded) in document
    order: the sequence a [TreeWalker] rooted at [n] yields with
    [SHOW_TEXT | SHOW_ELEMENT]. *)
Fixpoint walk (n : Node) : list Node :=
  match n with
  | TextNode _ => []
  | ElementNode _ cs =>
      (fix go (l : list Node) : list Node :=
         match l with
         | [] => []
         | c :: l' => (c :: walk c) ++ go l'
         end) cs
  end.

(** *** Selectors *)

Inductive Simple : Type :=
| Tag (name : string)                      (* span *)
| AttrEq (name value : string)             (* [name="value"] *)
| AttrPrefix (name value : string)         (* [name^="value"] *)
| AttrContains (name value : string)       (* [name*="value"] *)
| AttrPresent (name : string)              (* [name] *)
| Class (name : string).                   (* .name *)

(** A compound selector is a conjunction of simple selectors. *)
Definition Compound : Type := list Simple.

Inductive Complex : Type :=
| Only (c : Compound)                      (* c *)
| Child (parent c : Compound).             (* parent > c *)

(** A selector list is a disjunction. *)
Definition Selector : Type := list Complex.

(** The class names of a [class] attribute: split on ASCII white space. *)
Definition isClassSep (c : ascii) : bool :=
  let n := Js.code c in (n =? 9) || (n =? 10) || (n =? 12) || (n =? 13) || (n =? 32).

Fixpoint classTokens (fuel : nat) (s : string) : list string :=
  match fuel with
  | O => []
  | S fuel' =>
      let '(_, s1) := Js.span isClassSep s in
      match s1 with
      | EmptyString => []
      | _ => let '(tok, rest) := Js.span (fun c => negb (isClassSep c)) s1 in
             tok :: classTokens fuel' rest
      end
  end.

Definition classList (n : Node) : list string :=
  match nodeAttribute "class" n with
  | Some v => classTokens (S (String.length v)) v
  | None => []
  end.

Definition matchesSimple (s : Simple) (n : Node) : bool :=
  isElementNode n &&
  match s with
  | Tag name => String.eqb (nodeLocalName n) name
  | AttrEq name value =>
      match nodeAttribute name n with Some v => String.eqb v value | None => false end
  | AttrPrefix name value =>
      match nodeAttribute name n with
      | Some v => Js.truthy value && Js.startsWith value v
      | None => false
      end
  | AttrContains name value =>
      match nodeAttribute name n with
      | Some v => Js.truthy value && Js.includes value v
      | None => false
      end
  | AttrPresent name =>
      match nodeAttribute name n with Some _ => true | None => false end
  | Class name => existsb (String.eqb name) (classList n)
  end.

Definition matchesCompound (c : Compound) (n : Node) : bool :=
  forallb (fun s => matchesSimple s n) c.

Definition matchesComplex (c : Complex) (el : Element) : bool :=
  match c with
  | Only c1 => matchesCompound c1 (node el)
  | Child p c1 =>
      matchesCompound c1 (node el) &&
      match ancestors el with
      | parent :: _ => matchesCompound p parent
      | [] => false
      end
  end.

(** [el.matches(sel)] *)
Definition matchesSelector (sel : Selector) (el : Element) : bool :=
  existsb (fun c => matchesComplex c el) sel.

(** [el.querySelectorAll(sel)]: the matching proper descendants. *)
Definition querySelectorAll (sel : Selector) (el : Element) : list Element :=
  List.filter (matchesSelector sel) (descendants el).

(** [el.querySelector(sel)] *)
Definition querySelector (sel : Selector) (el : Element) : option Element :=
  head (querySelectorAll sel el).

(** [document.querySelectorAll(sel)]: every element of the document. *)
Definition documentQuerySelectorAll (sel : Selector) (d : Document) : list Element :=
  List.filter (matchesSelector sel) (subtree [] (documentElement d)).

(** [document.querySelector(sel)] *)
Definition documentQuerySelector (sel : Selector) (d : Document) : option Element :=
  head (documentQuerySelectorAll sel d).

(** [el.closest(sel)]: the element itself or its nearest ancestor that
    matches. *)
Fixpoint closestFrom (sel : Selector) (n : Node) (anc : list Node) : option Element :=
  if matchesSelector sel (mkElement n anc) then Some (mkElement n anc)
  else match anc with
       | [] => None
       | p :: anc' => closestFrom sel p anc'
       end.

Definition closest (sel : Selector) (el : Element) : option Element :=
  closestFrom sel (node el) (ancestors el).

(** [a || b] on two element references. *)
Definition orElse {A : Type} (a b : option A) : option A :=
  match a with Some _ => a | None => b end.

Definition isSome {A : Type} (a : option A) : bool :=
  match a with Some _ => true | None => false end.

(** The selector [[data-testid="id"]]. *)
Definition testid (id : string) : Selector := [Only [AttrEq "data-testid" id]].

End Dom.

(** ** The article parser *)

Module ArticleParser.
Import Dom.

(** Debug flag of the module; every [DEBUG && console.log(...)] is
    therefore silent and is left out below. *)
Definition DEBUG : bool := false.

(** Thresholds for article detection. *)
Definition MIN_SINGLE_TWEET_LENGTH : nat := 280.
Definition MIN_THREAD_CONTENT_LENGTH : nat := 400.
Definition MIN_THREAD_TWEETS : nat := 2.

(** The lines [isArticlePage] writes with [console.log] outside the
    debug flag, with the values interpolated into them. *)
Inductive LogLine : Type :=
| LongSingleTweet (chars : nat)
| ThreadFound (tweets chars : nat) (handle : string)
| NotEnoughContent (tweets chars : nat).

Definition Console : Type := list LogLine.

Definition LF : string := String (ascii_of_nat 10) EmptyString.

(** The separator ['\n\n'] of [join]. *)
Definition blankLine : string := LF +:+ LF.

Definition isLF (c : ascii) : bool := Js.code c =? 10.

(** Line terminators, which [.] does not match. *)
Definition isLineTerminator (c : ascii) : bool :=
  (Js.code c =? 10) || (Js.code c =? 13).

Definition slash : ascii := "/"%char.

(** [r1 r2 ... rn] *)
Fixpoint Seq (rs : list Re.regex) : Re.regex :=
  match rs with
  | [] => Re.Eps
  | [r] => r
  | r :: rs' => Re.Cat r (Seq rs')
  end.

(** [/\/status\/\d+/] *)
Definition statusPattern : Re.regex := Seq [Re.Lit "/status/"; Re.Plus Re.Digit].

(** *** Author handles *)

(** [pathname.match(/^\/([^/]+)\//)], group 1 in lower case: the path
    starts with a slash, then the longest run of non-slash characters,
    which must be non-empty and followed by a slash. *)
Definition getAuthorHandle (d : Document) : option string :=
  match pathname d with
  | String c rest =>
      if Ascii.eqb c slash then
        let '(seg, after) := Js.span (fun x => negb (Ascii.eqb x slash)) rest in
        if Js.truthy seg && Js.startsWith "/" after then Some (Js.toLowerCase seg)
        else None
      else None
  | EmptyString => None
  end.

(** [href.replace(/^\//, '')] *)
Definition stripLeadingSlash (href : string) : string :=
  match href with
  | String c rest => if Ascii.eqb c slash then rest else href
  | EmptyString => EmptyString
  end.

(** Extract author from a tweet element; [None] is [null]. *)
Definition extractAuthorFromElement (element : Element) : option string :=
  match querySelector (testid "User-Name") element with
  | Some userNameEl =>
      match querySelector [Only [Tag "a"; AttrPrefix "href" "/"]] userNameEl with
      | Some handle =>
          match getAttribute "href" handle with
          | Some href =>
              if Js.truthy href
              then Some (Js.toLowerCase (hd "" (Js.split slash (stripLeadingSlash href))))
              else None
          | None => None
          end
      | None => None
      end
  | None => None
  end.

(** *** The classifier *)

(** Get the main/focal tweet element (not replies). *)
Definition getMainTweetElement (d : Document) : option Element :=
  let tweetDetail :=
    orElse (documentQuerySelector (testid "tweet") d)
           (documentQuerySelector (testid "tweetDetail") d) in
  match tweetDetail with
  | None =>
      match documentQuerySelector (testid "primaryColumn") d with
      | Some primaryColumn => querySelector [Only [Tag "article"]] primaryColumn
      | None => tweetDetail
      end
  | Some _ => tweetDetail
  end.

(** Check 1: the article and notes containers, in the order the source
    tries them. *)
Definition articleContainer (d : Document) : option Element :=
  orElse (documentQuerySelector (testid "twitterArticleReadView") d)
 (orElse (documentQuerySelector (testid "article") d)
 (orElse (documentQuerySelector (testid "articleViewer") d)
 (orElse (documentQuerySelector (testid "article-cover") d)
         (documentQuerySelector (testid "noteContent") d)))).

(** Check 2: the body of the loop over the [span] elements. *)
Definition isArticleLabel (span : Element) : bool :=
  let text := Js.trim (textContent span) in
  String.eqb text "Article" || String.eqb text "Notes".

(** [mainTweetText ? (mainTweetText.innerText || '').length : 0] *)
Definition textLengthOf (tweet : Element) : nat :=
  match querySelector (testid "tweetText") tweet with
  | Some tweetText => String.length (innerText tweetText)
  | None => 0
  end.

(** Check 5: one iteration of the loop over [allTweets]; the state is
    [(authorTweetCount, totalAuthorContent)]. *)
Definition countAuthorTweet (authorHandle : string) (acc : nat * nat) (tweet : Element)
  : nat * nat :=
  let '(authorTweetCount, totalAuthorContent) := acc in
  if isSome (closest (testid "quoteTweet") tweet) then acc
  else
    match extractAuthorFromElement tweet with
    | Some tweetAuthor =>
        if String.eqb tweetAuthor authorHandle then
          (S authorTweetCount,
           match querySelector (testid "tweetText") tweet with
           | Some tweetText => totalAuthorContent + String.length (innerText tweetText)
           | None => totalAuthorContent
           end)
        else acc
    | None => acc
    end.

(** Explicit article URL paths. *)
Definition isExplicitArticleUrl (pathname : string) : bool :=
  Js.includes "/article/" pathname || Js.includes "/i/articles/" pathname.

(** [/\/status\/\d+/.test(pathname)] *)
Definition isStatusUrl (pathname : string) : bool := Re.search statusPattern pathname.

(** Check if current page is a Twitter/X Article or long-form content.
    The checks come in the order of the source; each [return] is a pair
    of the verdict and the console it leaves. *)
Definition isArticlePage (d : Document) (console : Console) : bool * Console :=
  let pathname := pathname d in
  if isExplicitArticleUrl pathname then (true, console)
  else
  if negb (isStatusUrl pathname) then (false, console)
  else
  match documentQuerySelector (testid "primaryColumn") d with
  | None => (false, console)
  | Some primaryColumn =>
  if isSome (articleContainer d) then (true, console)
  else
  let allSpans := querySelectorAll [Only [Tag "span"]] primaryColumn in
  if existsb isArticleLabel allSpans then (true, console)
  else
  if isSome (documentQuerySelector (testid "tweet-text-show-more-link") d)
  then (true, console)
  else
  match getMainTweetElement d with
  | None => (false, console)
  | Some mainTweet =>
  let mainTextLength := textLengthOf mainTweet in
  if MIN_SINGLE_TWEET_LENGTH <? mainTextLength
  then (true, console ++ [LongSingleTweet mainTextLength])
  else
  match getAuthorHandle d with
  | Some authorHandle =>
      if Js.truthy authorHandle then
        let allTweets :=
          querySelectorAll [Only [Tag "article"; AttrEq "data-testid" "tweet"]]
                           primaryColumn in
        let '(authorTweetCount, totalAuthorContent) :=
          fold_left (countAuthorTweet authorHandle) allTweets (0, 0) in
        if (MIN_THREAD_TWEETS <=? authorTweetCount)
           && (MIN_THREAD_CONTENT_LENGTH <=? totalAuthorContent)
        then (true, console ++ [ThreadFound authorTweetCount totalAuthorContent authorHandle])
        else (false, console ++ [NotEnoughContent authorTweetCount totalAuthorContent])
      else (false, console)
  | None => (false, console)
  end
  end
  end.

(** *** Noise filters *)

Definition K_M_B : Re.regex := Re.AnyOf [Re.ChrI "K"; Re.ChrI "M"; Re.ChrI "B"].

(** The patterns of [isButtonText]; all are anchored at both ends. *)
Definition buttonPatterns : list Re.regex :=
  [ (* /^(Like|Repost|Reply|Share|Bookmark|Copy link|More)$/i *)
    Re.AnyOf [Re.LitI "Like"; Re.LitI "Repost"; Re.LitI "Reply"; Re.LitI "Share";
              Re.LitI "Bookmark"; Re.LitI "Copy link"; Re.LitI "More"];
    (* /^(\d+\.?\d*[KMB]?)$/i *)
    Seq [Re.Plus Re.Digit; Re.Opt (Re.Chr "."); Re.Star Re.Digit; Re.Opt K_M_B];
    (* /^Follow$/i *)
    Re.LitI "Follow";
    (* /^Following$/i *)
    Re.LitI "Following";
    (* /^Â·$/ *)
    Seq [Re.Chr (ascii_of_nat 194); Re.Chr (ascii_of_nat 183)] ].

(** Check if text is a UI button/action text (very minimal filter). *)
Definition isButtonText (text : string) : bool :=
  existsb (fun pattern => Re.fullMatch pattern (Js.trim text)) buttonPatterns.

(** The patterns of [isUIElement]; all are anchored at both ends and
    carry the [i] flag. *)
Definition uiPatterns : list Re.regex :=
  [ (* /^(N)?(Repost|Like|View|Reply|Quote|Share|Bookmark|More)s?$/i
       where N is \d+\.?\d*[KMB]? followed by any white space *)
    Seq [Re.Opt (Seq [Re.Plus Re.Digit; Re.Opt (Re.Chr "."); Re.Star Re.Digit;
                      Re.Opt K_M_B; Re.Star Re.Space]);
         Re.AnyOf [Re.LitI "Repost"; Re.LitI "Like"; Re.LitI "View"; Re.LitI "Reply";
                   Re.LitI "Quote"; Re.LitI "Share"; Re.LitI "Bookmark"; Re.LitI "More"];
         Re.Opt (Re.ChrI "s")];
    Re.LitI "Show more";
    Re.LitI "Show this thread";
    (* /^Translate (post|tweet)$/i *)
    Seq [Re.LitI "Translate "; Re.AnyOf [Re.LitI "post"; Re.LitI "tweet"]];
    (* /^Replying to @\w+$/i *)
    Seq [Re.LitI "Replying to @"; Re.Plus Re.Word];
    Re.LitI "Follow";
    Re.LitI "Following";
    Re.LitI "Promoted";
    Re.LitI "Ad";
    (* /^\d+:\d+\s*(AM|PM)$/i *)
    Seq [Re.Plus Re.Digit; Re.Chr ":"; Re.Plus Re.Digit; Re.Star Re.Space;
         Re.AnyOf [Re.LitI "AM"; Re.LitI "PM"]];
    (* /^(Jan|Feb|Mar|Apr|May|Jun|Jul|Aug|Sep|Oct|Nov|Dec)\s+\d+,?\s*\d*$/i *)
    Seq [Re.AnyOf [Re.LitI "Jan"; Re.LitI "Feb"; Re.LitI "Mar"; Re.LitI "Apr";
                   Re.LitI "May"; Re.LitI "Jun"; Re.LitI "Jul"; Re.LitI "Aug";
                   Re.LitI "Sep"; Re.LitI "Oct"; Re.LitI "Nov"; Re.LitI "Dec"];
         Re.Plus Re.Space; Re.Plus Re.Digit; Re.Opt (Re.Chr ","); Re.Star Re.Space;
         Re.Star Re.Digit];
    (* /^Read \d+ (replies|reply)$/i *)
    Seq [Re.LitI "Read "; Re.Plus Re.Digit; Re.Chr " ";
         Re.AnyOf [Re.LitI "replies"; Re.LitI "reply"]];
    (* /^See new (posts|tweets)$/i *)
    Seq [Re.LitI "See new "; Re.AnyOf [Re.LitI "posts"; Re.LitI "tweets"]];
    Re.LitI "Who to follow";
    Re.LitI "Trends for you";
    Re.LitI "Subscribe";
    Re.LitI "Get verified" ].

(** ['nav, footer, button, [role="button"], [role="navigation"]'] *)
Definition uiContainers : Selector :=
  [Only [Tag "nav"]; Only [Tag "footer"]; Only [Tag "button"];
   Only [AttrEq "role" "button"]; Only [AttrEq "role" "navigation"]].

(** Check if element is a UI element that should be skipped. *)
Definition isUIElement (element : Element) (text : string) : bool :=
  if isSome (closest uiContainers element) then true
  else if String.length text <? 20 then true
  else if (String.length text <? 50)
          && existsb (fun pattern => Re.fullMatch pattern (Js.trim text)) uiPatterns
       then true
  else false.

(** *** Text cleaning *)

(** [text.replace(/\s+/g, ' ')]: every maximal run of white space
    becomes one space. *)
Fixpoint collapseWhiteSpace (s : string) : string :=
  match s with
  | EmptyString => EmptyString
  | String c s' =>
      if Js.isWhiteSpace c then
        match s' with
        | String c' _ =>
            if Js.isWhiteSpace c' then collapseWhiteSpace s'
            else String " " (collapseWhiteSpace s')
        | EmptyString => " "
        end
      else String c (collapseWhiteSpace s')
  end.

(** Where a match of [\n\s*\n] ends when it starts at a line feed that is
    followed by [s]: behind the last line feed of the white-space run at
    the head of [s], if that run has one. *)
Fixpoint afterLastLF (s : string) : option string :=
  match s with
  | EmptyString => None
  | String c s' =>
      if Js.isWhiteSpace c then
        match afterLastLF s' with
        | Some r => Some r
        | None => if isLF c then Some s' else None
        end
      else None
  end.

(** [text.replace(/\n\s*\n/g, '\n')] *)
Fixpoint collapseBlankLines (fuel : nat) (s : string) : string :=
  match fuel with
  | O => s
  | S fuel' =>
      match s with
      | EmptyString => EmptyString
      | String c s' =>
          if isLF c then
            match afterLastLF s' with
            | Some r => LF +:+ collapseBlankLines fuel' r
            | None => String c (collapseBlankLines fuel' s')
            end
          else String c (collapseBlankLines fuel' s')
      end
  end.

(** Clean text - remove extra whitespace, normalize. *)
Definition cleanText (text : string) : string :=
  if negb (Js.truthy text) then ""
  else
    let t1 := collapseWhiteSpace text in
    let t2 := collapseBlankLines (String.length t1) t1 in
    Js.trim t2.

(** What the tree walker of [extractTextFromElement] appends at one node. *)
Definition walkerText (n : Node) : string :=
  match n with
  | TextNode data => data
  | ElementNode _ _ =>
      (if String.eqb (nodeTagName n) "IMG" && Js.truthy (reflected "alt" n)
       then reflected "alt" n else "")
      +:+ (if String.eqb (nodeTagName n) "BR" then LF else "")
  end.

(** Extract text from an element, handling Twitter's span structure. *)
Definition extractTextFromElement (element : Element) : string :=
  let text := fold_left (fun text n => text +:+ walkerText n) (walk (node element)) "" in
  cleanText text.

(** *** Author *)

(** The part of [/^(.+?)\s+(?:on\s+X|\/\s+X):/] behind the lazy group. *)
Definition titleTail : Re.regex :=
  Seq [Re.Plus Re.Space;
       Re.Alt (Seq [Re.Lit "on"; Re.Plus Re.Space; Re.Chr "X"])
              (Seq [Re.Chr "/"; Re.Plus Re.Space; Re.Chr "X"]);
       Re.Chr ":"].

(** Group 1 of [pageTitle.match(/^(.+?)\s+(?:on\s+X|\/\s+X):/)]: the
    shortest non-empty prefix without a line terminator behind which
    [titleTail] matches. *)
Fixpoint titleAuthor (s : string) : option string :=
  match s with
  | EmptyString => None
  | String c s' =>
      if isLineTerminator c then None
      else if Re.prefixMatch titleTail s' then Some (String c EmptyString)
      else match titleAuthor s' with
           | Some p => Some (String c p)
           | None => None
           end
  end.

(** The name found in the first [User-Name] element, if it is usable. *)
Definition userNameAuthor (d : Document) : option string :=
  match documentQuerySelector (testid "User-Name") d with
  | Some userNameEl =>
      match querySelector [Child [Tag "span"] [Tag "span"]] userNameEl with
      | Some nameSpan =>
          if Js.truthy (innerText nameSpan) then
            let name := Js.trim (innerText nameSpan) in
            if Js.truthy name && negb (Js.startsWith "@" name) then Some name else None
          else None
      | None => None
      end
  | None => None
  end.

(** Extract author name from the page. *)
Definition extractAuthor (d : Document) : string :=
  match userNameAuthor d with
  | Some name => name
  | None =>
      match titleAuthor (title d) with
      | Some g1 => Js.trim g1
      | None =>
          match documentQuerySelector [Only [Tag "meta"; AttrEq "name" "author"]] d with
          | Some metaAuthor =>
              if Js.truthy (reflected "content" (node metaAuthor))
              then reflected "content" (node metaAuthor)
              else ""
          | None => ""
          end
      end
  end.

(** *** Extraction *)

(** The [content] object. *)
Record Content : Type := mkContent {
  contentTitle : string;
  author : string;
  body : string;
  paragraphs : list string
}.

Definition emptyContent : Content :=
  {| contentTitle := ""; author := ""; body := ""; paragraphs := [] |}.

(** [paragraphs[0] && paragraphs[0].length < 150]: the title taken from
    a short first paragraph, else the title kept as it is. *)
Definition titleFrom (paragraphs : list string) (old : string) : string :=
  match paragraphs with
  | p0 :: _ => if Js.truthy p0 && (String.length p0 <? 150) then p0 else old
  | [] => old
  end.

(** One iteration of a loop that keeps [seenText] and pushes onto
    [paragraphs]: [seenText.add(text); paragraphs.push(text)]. *)
Definition remember (st : gset string * list string) (text : string)
  : gset string * list string :=
  ({[text]} ∪ st.1, st.2 ++ [text]).

(** [seenText.has(text)] *)
Definition has (seenText : gset string) (text : string) : bool :=
  bool_decide (text ∈ seenText).

(** The loop body of [extractThreadContent]. *)
Definition threadStep (st : gset string * list string) (tweetText : Element)
  : gset string * list string :=
  if isSome (closest (testid "quoteTweet") tweetText) then st
  else
    let text := Js.trim (innerText tweetText) in
    if Js.truthy text && negb (has st.1 text) then remember st text else st.

(** Extract content from threads (fallback for non-article pages). *)
Definition extractThreadContent (d : Document) (content : Content) : Content :=
  match documentQuerySelector (testid "primaryColumn") d with
  | None => content
  | Some primaryColumn =>
      let tweetTexts := querySelectorAll (testid "tweetText") primaryColumn in
      let '(seenText, paragraphs) := fold_left threadStep tweetTexts (∅, []) in
      {| contentTitle := titleFrom paragraphs (contentTitle content);
         author := author content;
         body := Js.join blankLine paragraphs;
         paragraphs := paragraphs |}
  end.

(** ['[class*="longform-"], .public-DraftStyleDefault-ul, .public-DraftStyleDefault-ol'] *)
Definition longformSelector : Selector :=
  [Only [AttrContains "class" "longform-"];
   Only [Class "public-DraftStyleDefault-ul"];
   Only [Class "public-DraftStyleDefault-ol"]].

(** The loop body over the longform elements of the read view. *)
Definition longformStep (paragraphs : list string) (el : Element) : list string :=
  if isSome (closest (testid "card.wrapper") el) then paragraphs
  else if isSome (closest (testid "tweetPhoto") el) then paragraphs
  else if isSome (closest [Only [AttrEq "role" "link"; AttrContains "href" "/status/"]] el)
       then paragraphs
  else if String.eqb (tagName el) "IMG" || String.eqb (tagName el) "VIDEO" then paragraphs
  else
    let text := Js.trim (innerText el) in
    if Js.truthy text && (0 <? String.length text) && negb (isButtonText text)
    then paragraphs ++ [text] else paragraphs.

(** The loop body over the lines of the read view's full text. *)
Definition lineStep (paragraphs : list string) (line : string) : list string :=
  let text := Js.trim line in
  if Js.truthy text && (0 <? String.length text) && negb (isButtonText text)
  then paragraphs ++ [text] else paragraphs.

(** The paragraphs the read view yields: the longform elements, and when
    they give nothing the lines of the container's text. *)
Definition readViewParagraphs (articleReadView : Element) : list string :=
  let paragraphs : list string := [] in
  let contentElements := querySelectorAll longformSelector articleReadView in
  let paragraphs :=
    if 0 <? length contentElements
    then fold_left longformStep contentElements paragraphs else paragraphs in
  if length paragraphs =? 0 then
    let fullText := innerText articleReadView in
    let lines := Js.split (ascii_of_nat 10) fullText in
    fold_left lineStep lines paragraphs
  else paragraphs.

(** Extract content from status/tweet pages (threads and articles). *)
Definition extractStatusContent (d : Document) (content : Content) : Content :=
  let content :=
    {| contentTitle := contentTitle content; author := extractAuthor d;
       body := body content; paragraphs := paragraphs content |} in
  match documentQuerySelector (testid "twitterArticleReadView") d with
  | Some articleReadView =>
      let paragraphs := readViewParagraphs articleReadView in
      if 0 <? length paragraphs then
        {| contentTitle := titleFrom paragraphs (contentTitle content);
           author := author content;
           body := Js.join blankLine paragraphs;
           paragraphs := paragraphs |}
      else extractThreadContent d content
  | None => extractThreadContent d content
  end.

(** The loop body of [extractArticleContent]. *)
Definition articleStep (st : gset string * list string) (el : Element)
  : gset string * list string :=
  let text := cleanText (innerText el) in
  if Js.truthy text && (10 <? String.length text) && negb (has st.1 text)
     && negb (isUIElement el text)
  then remember st text else st.

(** ['p, [data-testid="tweetText"], div[dir="auto"][lang]'] *)
Definition articleParagraphSelector : Selector :=
  [Only [Tag "p"]; Only [AttrEq "data-testid" "tweetText"];
   Only [Tag "div"; AttrEq "dir" "auto"; AttrPresent "lang"]].

(** Extract content from Twitter Article (Notes) pages. *)
Definition extractArticleContent (d : Document) (content : Content) : Content :=
  let articleContainer :=
    orElse (documentQuerySelector (testid "article") d)
   (orElse (documentQuerySelector (testid "articleViewer") d)
           (documentQuerySelector [Only [Tag "article"]] d)) in
  match articleContainer with
  | None => extractStatusContent d content
  | Some articleContainer =>
      let title :=
        match querySelector [Only [Tag "h1"]; Only [Tag "h2"]; Only [AttrEq "role" "heading"]]
                            articleContainer with
        | Some titleEl => Js.trim (innerText titleEl)
        | None => contentTitle content
        end in
      let paragraphEls := querySelectorAll articleParagraphSelector articleContainer in
      let '(seenText, paragraphs) :=
        fold_left articleStep paragraphEls (∅, paragraphs content) in
      {| contentTitle := title;
         author := extractAuthor d;
         body := Js.join blankLine paragraphs;
         paragraphs := paragraphs |}
  end.

(** Extract article content from the page. *)
Definition extractContent (d : Document) : Content :=
  let content := emptyContent in
  if Js.includes "/article/" (pathname d) then extractArticleContent d content
  else extractStatusContent d content.

(** The first loop body of [extractFallbackContent]. *)
Definition fallbackTweetStep (st : gset string * list string) (tweetText : Element)
  : gset string * list string :=
  if isSome (closest (testid "quoteTweet") tweetText) then st
  else
    let text := extractTextFromElement tweetText in
    if Js.truthy text && (20 <? String.length text) && negb (has st.1 text)
       && negb (isUIElement tweetText text)
    then remember st text else st.

(** The second loop body of [extractFallbackContent]. *)
Definition fallbackLangStep (st : gset string * list string) (el : Element)
  : gset string * list string :=
  if isSome (closest (testid "quoteTweet") el) then st
  else
    let text := extractTextFromElement el in
    if Js.truthy text && (30 <? String.length text) && negb (has st.1 text)
       && negb (isUIElement el text)
    then remember st text else st.

(** Fallback extraction - more aggressive text finding. *)
Definition extractFallbackContent (d : Document) : Content :=
  let content := emptyContent in
  let content :=
    {| contentTitle := contentTitle content; author := extractAuthor d;
       body := body content; paragraphs := paragraphs content |} in
  match orElse (documentQuerySelector (testid "primaryColumn") d)
               (documentQuerySelector [Only [Tag "main"]] d) with
  | None => content
  | Some primaryColumn =>
      let tweetTexts := querySelectorAll (testid "tweetText") primaryColumn in
      let st := fold_left fallbackTweetStep tweetTexts (∅, paragraphs content) in
      let st :=
        if length st.2 =? 0 then
          let langElements := querySelectorAll [Only [Tag "div"; AttrPresent "lang"]]
                                               primaryColumn in
          fold_left fallbackLangStep langElements st
        else st in
      {| contentTitle := contentTitle content;
         author := author content;
         body := Js.join blankLine st.2;
         paragraphs := st.2 |}
  end.

(** [parts] of [getReadableText]: the author line, if there is an author,
    then the paragraphs. *)
Definition readableParts (content : Content) : list string :=
  let parts : list string := [] in
  let parts :=
    if Js.truthy (author content) then parts ++ ["Article by " +:+ author content]
    else parts in
  parts ++ paragraphs content.

(** Get the full text for TTS reading; [None] is the [null] result. *)
Definition getReadableText (d : Document) : option string :=
  let content := extractContent d in
  if length (paragraphs content) =? 0 then
    let fallbackContent := extractFallbackContent d in
    if 0 <? length (paragraphs fallbackContent)
    then Some (Js.join blankLine (readableParts fallbackContent))
    else None
  else Some (Js.join blankLine (readableParts content)).

(** Get structured content for transcript display. *)
Definition getStructuredContent (d : Document) : Content := extractContent d.

(** *** The engine as the player calls it

    A call receives the console as it stands and returns its result with
    the console it leaves behind; the module keeps nothing else between
    calls. *)





(** Quick check if URL looks like an article page (for initial
    detection). *)
Definition isArticleUrl (pathname : string) : bool :=
  Re.search statusPattern pathname || Js.includes "/article/" pathname.

(** The loop body over the longform elements in [getParagraphElements]. *)
Definition paragraphElementStep (elements : list Element) (el : Element) : list Element :=
  if isSome (closest (testid "card.wrapper") el) then elements
  else if isSome (closest (testid "tweetPhoto") el) then elements
  else if String.eqb (tagName el) "IMG" || String.eqb (tagName el) "VIDEO" then elements
  else
    let text := Js.trim (innerText el) in
    if Js.truthy text && (0 <? String.length text) && negb (isButtonText text)
    then elements ++ [el] else elements.

(** The loop body over the text elements in [getParagraphElements]. *)
Definition threadElementStep (elements : list Element) (el : Element) : list Element :=
  if isSome (closest (testid "quoteTweet") el) then elements
  else elements ++ [el].

(** The fallback for threads in [getParagraphElements]. *)
Definition threadElements (d : Document) (elements : list Element) : list Element :=
  match documentQuerySelector (testid "primaryColumn") d with
  | Some primaryColumn =>
      fold_left threadElementStep (querySelectorAll (testid "tweetText") primaryColumn)
                elements
  | None => elements
  end.

(** Get paragraph elements for transcript display. *)
Definition getParagraphElements (d : Document) : list Element :=
  let elements : list Element := [] in
  match documentQuerySelector (testid "twitterArticleReadView") d with
  | Some articleReadView =>
      let contentElements := querySelectorAll longformSelector articleReadView in
      let elements := fold_left paragraphElementStep contentElements elements in
      if 0 <? length elements then elements
      else threadElements d elements
  | None => threadElements d elements
  end.

End ArticleParser.

(** ** The text-to-speech module (utils/tts.js) *)

Module TTS.

Definition MAX_CHUNK_LENGTH : nat := 4000.

(** *** Chunks *)

(** Put a character in front of the first piece. *)
Definition consHead (c : ascii) (pieces : list string) : list string :=
  match pieces with
  | x :: xs => String c x :: xs
  | [] => [String c EmptyString]
  end.

(** [text.split(/\n\n+/)]: the pieces between the runs of two or more
    line feeds.  [inSeparator] says that the characters before [s] end in
    such a run, of which further line feeds are part. *)
Fixpoint splitParagraphs (inSeparator : bool) (s : string) : list string :=
  match s with
  | EmptyString => [EmptyString]
  | String c s' =>
      if ArticleParser.isLF c then
        if inSeparator then splitParagraphs true s'
        else
          match s' with
          | String c' _ =>
              if ArticleParser.isLF c' then EmptyString :: splitParagraphs true s'
              else consHead c (splitParagraphs false s')
          | EmptyString => consHead c (splitParagraphs false s')
          end
      else consHead c (splitParagraphs false s')
  end.

(** [.], [!] and [?] *)
Definition isTerminator (c : ascii) : bool :=
  Ascii.eqb c "." || Ascii.eqb c "!" || Ascii.eqb c "?".

(** Where the scan for [/[^.!?]+[.!?]+/g] stands: outside a match, in
    the run of other characters that starts a match, or in the run of
    terminators that ends it. *)
Inductive Scan : Type :=
| Outside
| InBody (matched : string)
| InEnd (matched : string).

(** The matches of [/[^.!?]+[.!?]+/g] in [s], continuing a scan.  A match
    cannot start at a terminator, and a run of other characters that
    reaches the end of the text is no match. *)
Fixpoint matchSentences (st : Scan) (s : string) : list string :=
  match s with
  | EmptyString =>
      match st with
      | InEnd matched => [matched]
      | _ => []
      end
  | String c s' =>
      if isTerminator c then
        match st with
        | Outside => matchSentences Outside s'
        | InBody matched => matchSentences (InEnd (matched +:+ String c EmptyString)) s'
        | InEnd matched => matchSentences (InEnd (matched +:+ String c EmptyString)) s'
        end
      else
        match st with
        | Outside => matchSentences (InBody (String c EmptyString)) s'
        | InBody matched => matchSentences (InBody (matched +:+ String c EmptyString)) s'
        | InEnd matched => matched :: matchSentences (InBody (String c EmptyString)) s'
        end
  end.

(** [para.match(/[^.!?]+[.!?]+/g) || [para]] *)
Definition sentencesOf (para : string) : list string :=
  match matchSentences Outside para with
  | [] => [para]
  | sentences => sentences
  end.

(** [if (currentChunk.trim()) chunks.push(currentChunk.trim())] *)
Definition pushTrimmed (chunks : list string) (currentChunk : string) : list string :=
  if Js.truthy (Js.trim currentChunk) then chunks ++ [Js.trim currentChunk] else chunks.

(** The loop over the sentences of a long paragraph; the state is
    [(chunks, currentChunk)]. *)
Definition packSentence (st : list string * string) (sentence : string)
  : list string * string :=
  let '(chunks, currentChunk) := st in
  if MAX_CHUNK_LENGTH <? String.length (currentChunk +:+ sentence)
  then (pushTrimmed chunks currentChunk, sentence)
  else (chunks, currentChunk +:+ sentence).

(** The loop over the paragraphs. *)
Definition chunkParagraph (chunks : list string) (para : string) : list string :=
  if String.length (Js.trim para) =? 0 then chunks
  else if String.length para <=? MAX_CHUNK_LENGTH then chunks ++ [Js.trim para]
  else
    let sentences := sentencesOf para in
    let '(chunks, currentChunk) := fold_left packSentence sentences (chunks, "") in
    pushTrimmed chunks currentChunk.

(** Split text into chunks (paragraphs). *)
Definition splitIntoChunks (text : string) : list string :=
  let paragraphs := splitParagraphs false text in
  fold_left chunkParagraph paragraphs [].

(** *** Voices *)

(** What the module reads of a [SpeechSynthesisVoice]. *)
Record Voice : Type := mkVoice {
  name : string;
  lang : string;
  localService : bool
}.

(** High-quality voice names to prioritize. *)
Definition RECOMMENDED_VOICES : list string :=
  [ "Samantha"; "Alex"; "Karen"; "Daniel"; "Moira"; "Tessa";
    "Microsoft David"; "Microsoft Zira"; "Microsoft Mark"; "Microsoft Eva";
    "Microsoft Jenny"; "Microsoft Aria"; "Microsoft Guy";
    "Google US English"; "Google UK English Female"; "Google UK English Male";
    "Microsoft Ana Online (Natural)"; "Microsoft Jenny Online (Natural)";
    "Microsoft Guy Online (Natural)"; "Microsoft Aria Online (Natural)" ].

(** [v.lang.startsWith('en')] *)
Definition isEnglish (v : Voice) : bool := Js.startsWith "en" (lang v).

(** The score [getVoices] gives a voice. *)
Definition voiceScore (voice : Voice) : nat :=
  let score := 0 in
  let score :=
    if existsb (fun recommended => Js.includes recommended (name voice)) RECOMMENDED_VOICES
    then score + 100 else score in
  let score :=
    if Js.includes "Natural" (name voice) || Js.includes "Neural" (name voice)
    then score + 50 else score in
  let score := if localService voice then score + 10 else score in
  let score :=
    if String.eqb (lang voice) "en-US" || String.eqb (lang voice) "en-GB"
    then score + 5 else score in
  score.

(** [scoredVoices.sort((a, b) => b.score - a.score)]: the sort is stable,
    so a voice goes in front of the first one that does not score higher. *)
Fixpoint insertByScore (x : Voice * nat) (sorted : list (Voice * nat))
  : list (Voice * nat) :=
  match sorted with
  | [] => [x]
  | y :: rest =>
      if x.2 <? y.2 then y :: insertByScore x rest
      else x :: sorted
  end.

Definition sortByScore (l : list (Voice * nat)) : list (Voice * nat) :=
  fold_right insertByScore [] l.

(** Get filtered high-quality English voices only; [allVoices] is what
    [getAllVoices] resolves to. *)
Definition getVoices (allVoices : list Voice) : list Voice :=
  let englishVoices := List.filter isEnglish allVoices in
  let scoredVoices := map (fun voice => (voice, voiceScore voice)) englishVoices in
  let scoredVoices := sortByScore scoredVoices in
  let topVoices := map fst (firstn 5 scoredVoices) in
  if length topVoices =? 0 then firstn 3 englishVoices
  else topVoices.

(** The voice [initVoice] makes current: the saved one if it is still
    there, else the best available.  [savedVoiceName] is what
    [getSavedVoice] returns, [allVoices] and [laterVoices] what the two
    calls of [getAllVoices] resolve to. *)
Definition initVoice (savedVoiceName : option string) (allVoices laterVoices : list Voice)
  : option Voice :=
  let savedVoice :=
    match savedVoiceName with
    | Some saved =>
        if Js.truthy saved
        then List.find (fun v => String.eqb (name v) saved) allVoices
        else None
    | None => None
    end in
  match savedVoice with
  | Some v => Some v
  | None =>
      let recommendedVoices := getVoices laterVoices in
      Dom.orElse (head recommendedVoices)
        (Dom.orElse (List.find isEnglish allVoices) (head allVoices))
  end.

(** *** The player *)

Section Player.

(** The speech rate is a floating-point number; the module clamps rates
    and compares them with [!==], and hands them to the host.
    [Callback] is what [setCallbacks] is given, [Event] what the host
    passes to [onboundary]. *)
Context {Rate Callback Event : Type}.
Variable clampRate : Rate -> Rate.
Variable strictEq : Rate -> Rate -> bool.

(** What the module sets on a [SpeechSynthesisUtterance]; the pitch is
    always 1.  [utteranceChunk] is the [chunkIndex] its handlers close
    over. *)
Record Utterance : Type := mkUtterance {
  utteranceText : string;
  utteranceVoice : option Voice;
  utteranceRate : Rate;
  utteranceChunk : nat
}.

Record Callbacks : Type := mkCallbacks {
  onStartCallback : option Callback;
  onEndCallback : option Callback;
  onPauseCallback : option Callback;
  onResumeCallback : option Callback;
  onBoundaryCallback : option Callback;
  onChunkChangeCallback : option Callback
}.

(** The variables of the module. *)
Record State : Type := mkState {
  utterance : option Utterance;
  isPlaying : bool;
  isPaused : bool;
  currentVoice : option Voice;
  textChunks : list string;
  currentChunkIndex : nat;
  callbacks : Callbacks;
  currentRate : Rate
}.

(** The arguments a callback is called with. *)
Inductive CallbackArgs : Type :=
| NoArguments
| BoundaryArguments (event : Event) (chunkIndex : nat)
| ChunkChangeArguments (chunkIndex total : nat) (text : option string).

(** What the module does to the world around it: the calls of
    [speechSynthesis], the writes to [localStorage], [console.error]
    and the calls of the callbacks. *)
Inductive Effect : Type :=
| SynthCancel
| SynthPause
| SynthResume
| SynthSpeak (u : Utterance)
| SaveRate (rate : Rate)
| SaveVoice (voiceName : string)
| ConsoleError (error : string)
| Invoke (f : Callback) (args : CallbackArgs).

(** [if (callback) callback(args)] *)
Definition invoke (callback : option Callback) (args : CallbackArgs) : list Effect :=
  match callback with
  | Some f => [Invoke f args]
  | None => []
  end.

(** The module as it is loaded; [defaultRate] is 0.85. *)
Definition initialState (defaultRate : Rate) : State :=
  mkState None false false None [] 0 (mkCallbacks None None None None None None)
          defaultRate.

Definition setPlayback (playing paused : bool) (st : State) : State :=
  mkState (utterance st) playing paused (currentVoice st) (textChunks st)
          (currentChunkIndex st) (callbacks st) (currentRate st).

Definition setChunkIndex (index : nat) (st : State) : State :=
  mkState (utterance st) (isPlaying st) (isPaused st) (currentVoice st) (textChunks st)
          index (callbacks st) (currentRate st).

Definition setUtterance (u : option Utterance) (st : State) : State :=
  mkState u (isPlaying st) (isPaused st) (currentVoice st) (textChunks st)
          (currentChunkIndex st) (callbacks st) (currentRate st).

Definition setCurrentVoice (voice : option Voice) (st : State) : State :=
  mkState (utterance st) (isPlaying st) (isPaused st) voice (textChunks st)
          (currentChunkIndex st) (callbacks st) (currentRate st).

Definition setTextChunks (chunks : list string) (st : State) : State :=
  mkState (utterance st) (isPlaying st) (isPaused st) (currentVoice st) chunks
          (currentChunkIndex st) (callbacks st) (currentRate st).

Definition setCurrentRate (rate : Rate) (st : State) : State :=
  mkState (utterance st) (isPlaying st) (isPaused st) (currentVoice st) (textChunks st)
          (currentChunkIndex st) (callbacks st) rate.

(** Speak a chunk of text. *)
Definition speakChunk (chunkIndex : nat) (st : State) : State * list Effect :=
  if length (textChunks st) <=? chunkIndex then
    (setPlayback false false st, invoke (onEndCallback (callbacks st)) NoArguments)
  else
    let u := mkUtterance (nth chunkIndex (textChunks st) "") (currentVoice st)
                         (currentRate st) chunkIndex in
    (setUtterance (Some u) st, [SynthSpeak u]).

(** The handlers of the utterance made for [chunkIndex]; the host calls
    them. *)
Definition onstart (chunkIndex : nat) (st : State) : State * list Effect :=
  (st,
   (if chunkIndex =? 0 then invoke (onStartCallback (callbacks st)) NoArguments else [])
   ++ invoke (onChunkChangeCallback (callbacks st))
        (ChunkChangeArguments chunkIndex (length (textChunks st))
           (textChunks st !! chunkIndex))).

Definition onend (st : State) : State * list Effect :=
  let st := setChunkIndex (S (currentChunkIndex st)) st in
  if negb (isPaused st) && isPlaying st then speakChunk (currentChunkIndex st) st
  else (st, []).

Definition onboundary (event : Event) (chunkIndex : nat) (st : State)
  : State * list Effect :=
  (st, invoke (onBoundaryCallback (callbacks st)) (BoundaryArguments event chunkIndex)).

Definition onerror (error : string) (st : State) : State * list Effect :=
  if negb (String.eqb error "interrupted") && negb (String.eqb error "canceled") then
    let st := setChunkIndex (S (currentChunkIndex st)) st in
    let '(st, effects) :=
      if isPlaying st && (currentChunkIndex st <? length (textChunks st))
      then speakChunk (currentChunkIndex st) st
      else (st, []) in
    (st, ConsoleError error :: effects)
  else (st, []).

(** Set the speech rate; the first component is the returned rate. *)
Definition setRate (rate : Rate) (st : State) : Rate * (State * list Effect) :=
  let clampedRate := clampRate rate in
  let oldRate := currentRate st in
  let st := setCurrentRate clampedRate st in
  if isPlaying st && negb (isPaused st) && negb (strictEq oldRate clampedRate)
     && (0 <? length (textChunks st))
  then
    let '(st, effects) := speakChunk (currentChunkIndex st) st in
    (clampedRate, (st, SaveRate clampedRate :: SynthCancel :: effects))
  else (clampedRate, (st, [SaveRate clampedRate])).

Definition getRate (st : State) : Rate := currentRate st.

(** [initRate]; [savedRate] is what [getSavedRate] returns. *)
Definition initRate (savedRate : Rate) (st : State) : State :=
  setCurrentRate savedRate st.

(** [setVoice] once [getAllVoices] has resolved to [allVoices]. *)
Definition setVoice (voiceName : string) (allVoices : list Voice) (st : State)
  : bool * (State * list Effect) :=
  match List.find (fun v => String.eqb (name v) voiceName) allVoices with
  | Some voice => (true, (setCurrentVoice (Some voice) st, [SaveVoice voiceName]))
  | None => (false, (st, []))
  end.

(** [initVoice] after its call of [initRate], once the voices have
    resolved. *)
Definition initVoiceResolved (savedVoiceName : option string)
    (allVoices laterVoices : list Voice) (st : State) : State :=
  setCurrentVoice (initVoice savedVoiceName allVoices laterVoices) st.

(** Pause speech. *)
Definition pause (st : State) : State * list Effect :=
  if isPlaying st && negb (isPaused st) then
    (setPlayback (isPlaying st) true st,
     SynthPause :: invoke (onPauseCallback (callbacks st)) NoArguments)
  else (st, []).

(** Resume speech. *)
Definition resume (st : State) : State * list Effect :=
  if isPlaying st && isPaused st then
    (setPlayback (isPlaying st) false st,
     SynthResume :: invoke (onResumeCallback (callbacks st)) NoArguments)
  else (st, []).

(** Toggle pause/resume. *)
Definition togglePause (st : State) : State * list Effect :=
  if isPaused st then resume st else pause st.

(** Stop speech completely. *)
Definition stop (st : State) : State * list Effect :=
  (mkState None false false (currentVoice st) (textChunks st) 0 (callbacks st)
           (currentRate st),
   [SynthCancel]).

(** [speak] up to where it waits for the voices: [stop()], then the
    [initRate()] that [initVoice] starts with. *)
Definition speakStarted (savedRate : Rate) (st : State) : State * list Effect :=
  let '(st, effects) := stop st in
  (initRate savedRate st, effects).

(** [speak] after [await initVoice()]. *)
Definition speakResumed (text : string) (st : State) : State * list Effect :=
  let st := setTextChunks (splitIntoChunks text) st in
  let st := setChunkIndex 0 st in
  if length (textChunks st) =? 0 then (st, [])
  else speakChunk 0 (setPlayback true false st).

(** Start speaking text, when nothing else touches the module while
    [speak] waits. *)
Definition speak (savedRate : Rate) (savedVoiceName : option string)
    (allVoices laterVoices : list Voice) (text : string) (st : State)
  : State * list Effect :=
  let '(st, effects) := speakStarted savedRate st in
  let st := initVoiceResolved savedVoiceName allVoices laterVoices st in
  let '(st, effects') := speakResumed text st in
  (st, effects ++ effects').

(** Skip to next paragraph/chunk. *)
Definition skipNext (st : State) : bool * (State * list Effect) :=
  if negb (isPlaying st) || (length (textChunks st) - 1 <=? currentChunkIndex st)
  then (false, (st, []))
  else
    let st := setChunkIndex (S (currentChunkIndex st)) st in
    let '(st, effects) := speakChunk (currentChunkIndex st) st in
    (true, (st, SynthCancel :: effects)).

(** Skip to previous paragraph/chunk. *)
Definition skipPrevious (st : State) : bool * (State * list Effect) :=
  if negb (isPlaying st) || (currentChunkIndex st <=? 0)
  then (false, (st, []))
  else
    let st := setChunkIndex (currentChunkIndex st - 1) st in
    let '(st, effects) := speakChunk (currentChunkIndex st) st in
    (true, (st, SynthCancel :: effects)).

(** Skip to specific chunk; the callers pass whole numbers. *)
Definition skipToChunk (index : Z) (st : State) : bool * (State * list Effect) :=
  if (index <? 0)%Z || (Z.of_nat (length (textChunks st)) <=? index)%Z
  then (false, (st, []))
  else
    let st := setChunkIndex (Z.to_nat index) st in
    let '(st, effects) :=
      if isPlaying st then speakChunk (currentChunkIndex st) st else (st, []) in
    (true, (st, SynthCancel :: effects)).

(** What [getState] returns. *)
Record PlayerState : Type := mkPlayerState {
  stateIsPlaying : bool;
  stateIsPaused : bool;
  stateCurrentChunk : nat;
  stateTotalChunks : nat;
  stateCurrentVoice : option string;
  stateRate : Rate
}.

Definition getState (st : State) : PlayerState :=
  mkPlayerState (isPlaying st) (isPaused st) (currentChunkIndex st)
                (length (textChunks st)) (option_map name (currentVoice st))
                (currentRate st).

(** Get all text chunks. *)
Definition getChunks (st : State) : list string := textChunks st.

(** [if (given) callback = given] *)
Definition replaceWith (given old : option Callback) : option Callback :=
  match given with
  | Some f => Some f
  | None => old
  end.

(** Set event callbacks. *)
Definition setCallbacks (given : Callbacks) (st : State) : State :=
  let old := callbacks st in
  mkState (utterance st) (isPlaying st) (isPaused st) (currentVoice st) (textChunks st)
          (currentChunkIndex st)
          (mkCallbacks
             (replaceWith (onStartCallback given) (onStartCallback old))
             (replaceWith (onEndCallback given) (onEndCallback old))
             (replaceWith (onPauseCallback given) (onPauseCallback old))
             (replaceWith (onResumeCallback given) (onResumeCallback old))
             (replaceWith (onBoundaryCallback given) (onBoundaryCallback old))
             (replaceWith (onChunkChangeCallback given) (onChunkChangeCallback old)))
          (currentRate st).

(** Whatever can happen to the module: a call of its interface, a step
    of [speak] or [initVoice] that waited, or an event of an utterance. *)
Inductive Action : Type :=
| CallSetVoice (voiceName : string) (allVoices : list Voice)
| CallSetRate (rate : Rate)
| CallSpeak (savedRate : Rate)
| SpeakResumed (text : string)
| CallPause
| CallResume
| CallTogglePause
| CallStop
| CallSkipNext
| CallSkipPrevious
| CallSkipToChunk (index : Z)
| CallSetCallbacks (given : Callbacks)
| CallInitVoice (savedRate : Rate)
| InitVoiceResolved (savedVoiceName : option string) (allVoices laterVoices : list Voice)
| UtteranceStart (chunkIndex : nat)
| UtteranceEnd
| UtteranceBoundary (event : Event) (chunkIndex : nat)
| UtteranceError (error : string).

Definition perform (a : Action) (st : State) : State * list Effect :=
  match a with
  | CallSetVoice voiceName allVoices => (setVoice voiceName allVoices st).2
  | CallSetRate rate => (setRate rate st).2
  | CallSpeak savedRate => speakStarted savedRate st
  | SpeakResumed text => speakResumed text st
  | CallPause => pause st
  | CallResume => resume st
  | CallTogglePause => togglePause st
  | CallStop => stop st
  | CallSkipNext => (skipNext st).2
  | CallSkipPrevious => (skipPrevious st).2
  | CallSkipToChunk index => (skipToChunk index st).2
  | CallSetCallbacks given => (setCallbacks given st, [])
  | CallInitVoice savedRate => (initRate savedRate st, [])
  | InitVoiceResolved savedVoiceName allVoices laterVoices =>
      (initVoiceResolved savedVoiceName allVoices laterVoices st, [])
  | UtteranceStart chunkIndex => onstart chunkIndex st
  | UtteranceEnd => onend st
  | UtteranceBoundary event chunkIndex => onboundary event chunkIndex st
  | UtteranceError error => onerror error st
  end.

(** The actions one after the other, with all their effects in order. *)
Fixpoint run (actions : list Action) (st : State) : State * list Effect :=
  match actions with
  | [] => (st, [])
  | a :: rest =>
      let '(st, effects) := perform a st in
      let '(st, effects') := run rest st in
      (st, effects ++ effects')
  end.

End Player.

End TTS.

(** ** The properties in the words of the specification

    Definitions used to state the properties; none of them is used by
    the parser above. *)

Module Spec.
Import Dom ArticleParser.

(** The structural checks of [isArticlePage] that come before the main
    item is measured: the path is a single-item path and not an explicit
    article path, the primary column is there, and none of the long-form
    signals (container, label, show-more control) is present. *)
Definition noStructuralSignal (d : Document) : bool :=
  negb (isExplicitArticleUrl (pathname d)) && isStatusUrl (pathname d) &&
  match documentQuerySelector (testid "primaryColumn") d with
  | Some primaryColumn =>
      negb (isSome (articleContainer d))
      && negb (existsb isArticleLabel (querySelectorAll [Only [Tag "span"]] primaryColumn))
      && negb (isSome (documentQuerySelector (testid "tweet-text-show-more-link") d))
  | None => false
  end.

(** Length of the primary text of the main item, when there is one. *)
Definition mainTextLength (d : Document) : option nat :=
  option_map textLengthOf (getMainTweetElement d).

(** No check before thread detection has fired: no structural signal,
    a main item is present and it is not longer than the single-item
    threshold. *)
Definition reachesThreadDetection (d : Document) : bool :=
  noStructuralSignal d &&
  match mainTextLength d with
  | Some n => n <=? 280
  | None => false
  end.

(** An item is quoted when it lies inside a quoted item. *)
Definition quoted (el : Element) : bool := isSome (closest (testid "quoteTweet") el).

(** The non-quoted items of the primary region whose author is the
    author identifier derived from the path.  Without such an identifier
    no item qualifies. *)
Definition sameAuthorItems (d : Document) : list Element :=
  match getAuthorHandle d, documentQuerySelector (testid "primaryColumn") d with
  | Some authorHandle, Some primaryColumn =>
      List.filter
        (fun tweet =>
           negb (quoted tweet) &&
           match extractAuthorFromElement tweet with
           | Some tweetAuthor => String.eqb tweetAuthor authorHandle
           | None => false
           end)
        (querySelectorAll [Only [Tag "article"; AttrEq "data-testid" "tweet"]] primaryColumn)
  | _, _ => []
  end.

Definition sameAuthorCount (d : Document) : nat := length (sameAuthorItems d).

Definition sameAuthorLength (d : Document) : nat :=
  list_sum (map textLengthOf (sameAuthorItems d)).

(** A qualifying thread. *)
Definition qualifyingThread (d : Document) : Prop :=
  2 <= sameAuthorCount d /\ 400 <= sameAuthorLength d.

(** The text tests of [isUIElement], without the ancestry test: the
    text is shorter than 20 characters, or shorter than 50 and one of the
    UI patterns matches it. *)
Definition uiText (text : string) : bool :=
  (String.length text <? 20)
  || ((String.length text <? 50)
      && existsb (fun pattern => Re.fullMatch pattern (Js.trim text)) uiPatterns).


(** The bare engagement counter of [isButtonText], [/^(\d+\.?\d*[KMB]?)$/i]. *)
Definition counterPattern : Re.regex :=
  Seq [Re.Plus Re.Digit; Re.Opt (Re.Chr "."); Re.Star Re.Digit; Re.Opt K_M_B].

(** First occurrence wins, order preserved: [keepFirst seen l] drops from
    [l] what is in [seen] or occurred earlier in [l]. *)
Fixpoint keepFirst (seen : list string) (l : list string) : list string :=
  match l with
  | [] => []
  | x :: l' =>
      if bool_decide (x ∈ seen) then keepFirst seen l'
      else x :: keepFirst (x :: seen) l'
  end.

(** The candidate texts of the thread strategy: the trimmed [innerText]
    of the non-quoted text elements of the primary region, in document
    order, the empty ones left out. *)
Definition threadCandidates (primaryColumn : Element) : list string :=
  List.filter Js.truthy
    (map (fun el => Js.trim (innerText el))
         (List.filter (fun el => negb (quoted el))
                      (querySelectorAll (testid "tweetText") primaryColumn))).


(** The author line of the final assembly. *)
Definition authorLine (a : string) : list string :=
  if Js.truthy a then ["Article by " +:+ a] else [].

(** *** Invariants used in the proofs *)

(** A string that does not start with white space. *)
Definition headNotSpace (s : string) : Prop :=
  match s with
  | EmptyString => True
  | String c _ => Js.isWhiteSpace c = false
  end.

(** The state of a loop with a [seenText] set: the set holds exactly the
    paragraphs pushed so far, and these are pairwise different. *)
Definition seenInv (st : gset string * list string) : Prop :=
  (forall x, x ∈ st.1 <-> x ∈ st.2) /\ NoDup st.2.

(** A paragraph that is not empty and has no white space at its ends. *)
Definition trimmedText (t : string) : Prop := t <> "" /\ Js.trim t = t.

(** A trimmed paragraph that [isButtonText] does not recognise. *)
Definition notButtonText (t : string) : Prop := trimmedText t /\ isButtonText t = false.

(** A trimmed paragraph that the text tests of [isUIElement] do not
    recognise. *)
Definition notUIText (t : string) : Prop := trimmedText t /\ uiText t = false.

(** What the first pass of the fallback lets through. *)
Definition fallbackText (n : nat) (t : string) : Prop :=
  notUIText t /\ n < String.length t
  /\ exists el, t = extractTextFromElement el
                /\ quoted el = false /\ closest uiContainers el = None.

(** *** Further notions used to state properties *)

(** The text an extraction loop reads from an element. *)
Definition elementText (el : Element) : string := Js.trim (innerText el).

(** What the loop over the longform elements of the read view yields. *)
Definition longformParagraphs (d : Document) : list string :=
  match documentQuerySelector (testid "twitterArticleReadView") d with
  | Some articleReadView =>
      fold_left longformStep (querySelectorAll longformSelector articleReadView) []
  | None => []
  end.

(** A node that one of the alternatives of [uiContainers] selects. *)
Definition isUIContainerNode (n : Node) : bool :=
  existsb (fun c => matchesCompound c n)
          [[Tag "nav"]; [Tag "footer"]; [Tag "button"];
           [AttrEq "role" "button"]; [AttrEq "role" "navigation"]].

Fixpoint allChars (p : ascii -> bool) (s : string) : bool :=
  match s with
  | EmptyString => true
  | String c s' => p c && allChars p s'
  end.

(** No two white-space characters in a row. *)
Fixpoint noAdjacentSpace (s : string) : bool :=
  match s with
  | EmptyString => true
  | String c s' =>
      match s' with
      | EmptyString => true
      | String c' _ => negb (Js.isWhiteSpace c && Js.isWhiteSpace c') && noAdjacentSpace s'
      end
  end.

(** A character that is not white space other than the space itself. *)
Definition spaceOnly (c : ascii) : bool := implb (Js.isWhiteSpace c) (Ascii.eqb c " ").

(** Normalised text: the only white space is the space character, never
    twice in a row and never at either end. *)
Definition singleSpaced (s : string) : bool :=
  allChars spaceOnly s && noAdjacentSpace s && String.eqb (Js.trim s) s.

(** A character other than the slash. *)
Definition notSlash (c : ascii) : bool := negb (Ascii.eqb c slash).

(** *** Notions for the text-to-speech module *)

(** The last character of the text is white space. *)
Fixpoint endsWithSpace (s : string) : bool :=
  match s with
  | EmptyString => false
  | String c s' =>
      match s' with
      | EmptyString => Js.isWhiteSpace c
      | String _ _ => endsWithSpace s'
      end
  end.

(** A part that the chunker hands back as it is: not empty, trimmed,
    without a blank line inside and not longer than a chunk may be. *)
Definition chunkSized (p : string) : Prop :=
  p <> "" /\ Js.trim p = p /\ Js.includes blankLine p = false
  /\ String.length p <= TTS.MAX_CHUNK_LENGTH.

(** A character other than the three sentence terminators. *)
Definition otherChar (c : ascii) : bool := negb (TTS.isTerminator c).

(** The voices are in the order of their scores, best first. *)
Fixpoint bestFirst (l : list TTS.Voice) : Prop :=
  match l with
  | [] => True
  | v :: rest =>
      Forall (fun w => TTS.voiceScore w <= TTS.voiceScore v) rest /\ bestFirst rest
  end.

(** The same for voices paired with their scores. *)
Fixpoint descending (l : list (TTS.Voice * nat)) : Prop :=
  match l with
  | [] => True
  | x :: rest => Forall (fun y => y.2 <= x.2) rest /\ descending rest
  end.

(** The voice saved under [saved], if it is among the voices. *)
Definition savedVoice (saved : option string) (allVoices : list TTS.Voice)
  : option TTS.Voice :=
  match saved with
  | Some savedName =>
      if Js.truthy savedName
      then List.find (fun v => String.eqb (TTS.name v) savedName) allVoices
      else None
  | None => None
  end.

(** The English voices paired with their scores, sorted as in
    [getVoices]. *)
Definition ranked (allVoices : list TTS.Voice) : list (TTS.Voice * nat) :=
  TTS.sortByScore (map (fun voice => (voice, TTS.voiceScore voice))
                       (List.filter TTS.isEnglish allVoices)).

(** *** Notions for the player *)

Section PlayerNotions.

Context {Rate Callback Event : Type}.

(** The utterances handed to the synthesiser, in order. *)
Definition spoken (effects : list (@TTS.Effect Rate Callback Event))
  : list (@TTS.Utterance Rate) :=
  flat_map (fun e => match e with TTS.SynthSpeak u => [u] | _ => [] end) effects.

(** The texts that [speak] went on with. *)
Definition textsSpoken (actions : list (@TTS.Action Rate Callback Event)) : list string :=
  flat_map (fun a => match a with TTS.SpeakResumed text => [text] | _ => [] end) actions.

(** An action other than [speak] going on after its wait. *)
Definition startsNothing (a : @TTS.Action Rate Callback Event) : bool :=
  match a with
  | TTS.SpeakResumed _ => false
  | _ => true
  end.

(** A pause is a pause of something that plays. *)
Definition pausedWhilePlaying (st : @TTS.State Rate Callback) : Prop :=
  TTS.isPaused st = true -> TTS.isPlaying st = true.

(** The chunks are those of one of the texts, or there is none. *)
Definition chunksOf (texts : list string) (chunks : list string) : Prop :=
  chunks = [] \/ exists text, text ∈ texts /\ chunks = TTS.splitIntoChunks text.

(** The utterance the module makes for chunk number [k]. *)
Definition utteranceFor (st : @TTS.State Rate Callback) (k : nat) : @TTS.Utterance Rate :=
  TTS.mkUtterance (nth k (TTS.textChunks st) "") (TTS.currentVoice st)
                  (TTS.currentRate st) k.

(** The host plays [n] utterances from number [k] on: each starts, then
    ends. *)
Definition hostPlays (k n : nat) : list (@TTS.Action Rate Callback Event) :=
  flat_map (fun i => [TTS.UtteranceStart i; TTS.UtteranceEnd]) (seq k n).

(** What a whole playback does from chunk number [k] on, of which
    [rest] are the texts: every chunk is handed to the synthesiser and
    announced, and the end is announced after the last. *)
Fixpoint playback (st : @TTS.State Rate Callback) (k : nat) (rest : list string)
  : list (@TTS.Effect Rate Callback Event) :=
  match rest with
  | [] => TTS.invoke (TTS.onEndCallback (TTS.callbacks st)) TTS.NoArguments
  | chunk :: rest' =>
      TTS.SynthSpeak (TTS.mkUtterance chunk (TTS.currentVoice st) (TTS.currentRate st) k)
      :: (if k =? 0
          then TTS.invoke (TTS.onStartCallback (TTS.callbacks st)) TTS.NoArguments
          else [])
      ++ TTS.invoke (TTS.onChunkChangeCallback (TTS.callbacks st))
           (TTS.ChunkChangeArguments k (length (TTS.textChunks st)) (Some chunk))
      ++ playback st (S k) rest'
  end.

(** What is handed to the synthesiser is the chunk under its own number. *)
Definition spokenFrom (st : @TTS.State Rate Callback)
    (effects : list (@TTS.Effect Rate Callback Event)) : Prop :=
  Forall (fun u => TTS.textChunks st !! TTS.utteranceChunk u = Some (TTS.utteranceText u))
         (spoken effects).

(** The state of a playback that has reached chunk number [k]. *)
Definition playingAt (st : @TTS.State Rate Callback) (k : nat) : @TTS.State Rate Callback :=
  TTS.mkState (Some (utteranceFor st k)) true false (TTS.currentVoice st)
              (TTS.textChunks st) k (TTS.callbacks st) (TTS.currentRate st).

(** The state at the end of a playback. *)
Definition playedAll (st : @TTS.State Rate Callback) : @TTS.State Rate Callback :=
  TTS.mkState (Some (utteranceFor st (length (TTS.textChunks st) - 1))) false false
              (TTS.currentVoice st) (TTS.textChunks st) (length (TTS.textChunks st))
              (TTS.callbacks st) (TTS.currentRate st).

End PlayerNotions.

End Spec.

(** ** Sample documents *)

Module Samples.
Import Dom ArticleParser.

Fixpoint filler (c : ascii) (n : nat) : string :=
  match n with
  | O => EmptyString
  | S n' => String c (filler c n')
  end.

Definition el (tag : string) (attrs : list (string * string)) (text : string)
  (children : list Node) : Node :=
  ElementNode (mkElementData tag attrs text) children.

(** One item: the author link inside the [User-Name] block, then the
    text element. *)
Definition tweet (handle text : string) : Node :=
  el "article" [("data-testid", "tweet")] text
    [ el "div" [("data-testid", "User-Name")] ("@" +:+ handle)
        [ el "a" [("href", "/" +:+ handle)] ("@" +:+ handle) [TextNode ("@" +:+ handle)] ];
      el "div" [("data-testid", "tweetText")] text [TextNode text] ].

(** A page whose primary column holds the given nodes. *)
Definition page (path : string) (items : list Node) : Document :=
  {| pathname := path;
     title := "";
     documentElement :=
       el "html" [] ""
         [ el "body" [] "" [ el "div" [("data-testid", "primaryColumn")] "" items ] ] |}.

(** A page without a primary column. *)
Definition emptyPage (path : string) : Document :=
  {| pathname := path; title := ""; documentElement := el "html" [] "" [] |}.

Definition helloText : string := "Hello world, this is a short test post.".
Definition otherAuthorText : string := filler "b" 500.
Definition secondText : string := filler "a" 380.

(** The end-to-end scenario with given texts: author A, author B,
    author A again. *)
Definition scenarioItems (textA1 textB textA2 : string) : list Node :=
  [ tweet "alice" textA1; tweet "bob" textB; tweet "alice" textA2 ].

Definition scenarioWith (textA1 textB textA2 : string) : Document :=
  page "/alice/status/123" (scenarioItems textA1 textB textA2).

(** The primary column of the scenario, as a query hands it out. *)
Definition scenarioColumnWith (textA1 textB textA2 : string) : Element :=
  let column :=
    el "div" [("data-testid", "primaryColumn")] "" (scenarioItems textA1 textB textA2) in
  mkElement column [ el "body" [] "" [column]; el "html" [] "" [el "body" [] "" [column]] ].

Definition scenario : Document := scenarioWith helloText otherAuthorText secondText.

Definition scenarioColumn : Element :=
  scenarioColumnWith helloText otherAuthorText secondText.

(** Two items of one author with a given total. *)
Definition twoItems (n1 n2 : nat) : Document :=
  page "/alice/status/123" [ tweet "alice" (filler "x" n1); tweet "alice" (filler "y" n2) ].

(** One long item of the path's author below a short main item of
    another author. *)
Definition singleLongItem : Document :=
  page "/alice/status/123" [ tweet "bob" "short"; tweet "alice" (filler "z" (100 * 100)) ].

(** A single item of a given length. *)
Definition singleItem (n : nat) : Document :=
  page "/alice/status/123" [ tweet "alice" (filler "x" n) ].



Definition fortyFive : string := "I really Like how this new feature turned out".
Definition fiftyDigits : string := filler "7" 50.

(** An item whose [User-Name] block also shows a display name. *)
Definition namedTweet (name handle text : string) : Node :=
  el "article" [("data-testid", "tweet")] text
    [ el "div" [("data-testid", "User-Name")] name
        [ el "a" [("href", "/" +:+ handle)] name
            [ el "span" [] name [ el "span" [] name [TextNode name] ] ] ];
      el "div" [("data-testid", "tweetText")] text [TextNode text] ].

(** The scenario again, with display names. *)
Definition namedScenario : Document :=
  page "/alice/status/123"
       [ namedTweet "Alice" "alice" helloText;
         namedTweet "Bob" "bob" otherAuthorText;
         namedTweet "Alice" "alice" secondText ].

(** A read view with a block of prose and a block of fifty digits. *)
Definition digitsBlock : Document :=
  page "/alice/status/123"
       [ el "div" [("data-testid", "twitterArticleReadView")] ""
           [ el "div" [("class", "longform-unstyled")] "Once upon a time" [];
             el "div" [("class", "longform-unstyled")] fiftyDigits [] ] ].

(** An element outside any navigation, footer or button container. *)
Definition plainDiv : Element := mkElement (el "div" [] "" []) [].

(** An item whose author link leads to one of the author's posts. *)
Definition linkedItem : Element :=
  mkElement (tweet "Alice/status/9" "Good morning") [].

(** A read view with two blocks, beside an item in the primary column. *)
Definition readViewPage : Document :=
  page "/alice/status/123"
       [ el "div" [("data-testid", "twitterArticleReadView")] ""
           [ el "div" [("class", "longform-unstyled")] "Once upon a time" [];
             el "div" [("class", "longform-unstyled")] "The end" [] ];
         tweet "bob" "A reply that is not part of the article" ].

(** A text element inside a navigation bar. *)
Definition navText : Element :=
  let text := el "div" [("data-testid", "tweetText")] "Home" [TextNode "Home"] in
  mkElement text [ el "nav" [] "Home" [text] ].

(** Two items with the same text. *)
Definition repeatedTexts : Document :=
  page "/alice/status/123" [ tweet "alice" "Same words"; tweet "alice" "Same words" ].

(** Voices as a desktop browser lists them. *)
Definition someVoices : list TTS.Voice :=
  [ TTS.mkVoice "Thomas" "fr-FR" true;
    TTS.mkVoice "Fred" "en-US" true;
    TTS.mkVoice "Samantha" "en-US" true;
    TTS.mkVoice "Google US English" "en-US" false;
    TTS.mkVoice "Rishi" "en-IN" true;
    TTS.mkVoice "Veena" "en-IN" false;
    TTS.mkVoice "Kate" "en-GB" false;
    TTS.mkVoice "Microsoft Aria Online (Natural)" "en-US" false ].

(** A player whose rates are whole hundredths and whose callbacks have
    names, in the middle of three chunks. *)
Definition clampHundredths (rate : nat) : nat := Nat.max 50 (Nat.min 200 rate).

Definition namedCallbacks : @TTS.Callbacks string :=
  TTS.mkCallbacks (Some "onStart") (Some "onEnd") (Some "onPause") (Some "onResume")
                  None (Some "onChunkChange").

Definition midPlayback : @TTS.State nat string :=
  TTS.mkState None true false None [helloText; otherAuthorText; secondText] 1
              namedCallbacks 85.

(** What a user and the host may do after a stop. *)
Definition afterStop : list (@TTS.Action nat string nat) :=
  [ TTS.CallTogglePause; TTS.CallSkipNext; TTS.UtteranceEnd; TTS.CallSetRate 120;
    TTS.CallSkipToChunk 2%Z; TTS.UtteranceError "network" ].

End Samples.

(** ** Properties of the classifier *)

Module ClassifierFacts.
Import Dom ArticleParser Spec.

Lemma truthy_nonempty (s : string) : Js.truthy s = true <-> s <> "".
Proof. destruct s; simpl; split; congruence. Qed.

Lemma truthy_mapString (f : ascii -> ascii) (s : string) :
  Js.truthy (Js.mapString f s) = Js.truthy s.
Proof. destruct s; reflexivity. Qed.

(** A handle derived from the path is never the empty string, so the
    test [if (authorHandle)] only rules out [null]. *)
Lemma getAuthorHandle_truthy (d : Document) (h : string) :
  getAuthorHandle d = Some h -> Js.truthy h = true.
Proof.
  unfold getAuthorHandle. destruct (pathname d) as [|c rest]; [discriminate|].
  destruct (Ascii.eqb c slash); [|discriminate].
  destruct (Js.span _ rest) as [seg after].
  destruct (Js.truthy seg) eqn:Hseg; cbn [andb]; [|discriminate].
  destruct (Js.startsWith "/" after); [|discriminate].
  intros [= <-]. unfold Js.toLowerCase. now rewrite truthy_mapString.
Qed.

(** The loop of check 5 counts and sums over the items that pass its two
    tests. *)
Lemma countAuthorTweet_fold (h : string) (tweets : list Element) (c t : nat) :
  let keep := fun tweet =>
    negb (quoted tweet) &&
    match extractAuthorFromElement tweet with
    | Some tweetAuthor => String.eqb tweetAuthor h
    | None => false
    end in
  fold_left (countAuthorTweet h) tweets (c, t)
  = (c + length (List.filter keep tweets),
     t + list_sum (map textLengthOf (List.filter keep tweets))).
Proof.
  intros keep. revert c t.
  induction tweets as [|tw tweets IH]; intros c t; simpl.
  - f_equal; lia.
  - assert (Hkeep : keep tw =
        negb (isSome (closest (testid "quoteTweet") tw)) &&
        match extractAuthorFromElement tw with
        | Some tweetAuthor => String.eqb tweetAuthor h
        | None => false
        end) by reflexivity.
    rewrite Hkeep. clear Hkeep.
    destruct (isSome (closest (testid "quoteTweet") tw)); cbn [negb andb]; [apply IH|].
    destruct (extractAuthorFromElement tw) as [a|]; [|apply IH].
    destruct (String.eqb a h); [|apply IH].
    rewrite IH. cbn [length map].
    change (list_sum (textLengthOf tw :: ?l)) with (textLengthOf tw + list_sum l).
    set (rest := list_sum _). unfold textLengthOf.
    destruct (querySelector (testid "tweetText") tw); f_equal; lia.
Qed.

(** What thread detection returns, once it is reached. *)
Lemma thread_detection_result (d : Document) (console : Console) :
  reachesThreadDetection d = true ->
  isArticlePage d console
  = match getAuthorHandle d with
    | Some h =>
        if (2 <=? sameAuthorCount d) && (400 <=? sameAuthorLength d)
        then (true, console ++ [ThreadFound (sameAuthorCount d) (sameAuthorLength d) h])
        else (false, console ++ [NotEnoughContent (sameAuthorCount d) (sameAuthorLength d)])
    | None => (false, console)
    end.
Proof.
  unfold reachesThreadDetection, noStructuralSignal, mainTextLength,
    sameAuthorCount, sameAuthorLength, sameAuthorItems, isArticlePage.
  intros H.
  destruct (isExplicitArticleUrl (pathname d)); [discriminate|].
  destruct (isStatusUrl (pathname d)); [|discriminate]. simpl in *.
  destruct (documentQuerySelector (testid "primaryColumn") d) as [pc|]; [|discriminate].
  destruct (isSome (articleContainer d)); [discriminate|].
  destruct (existsb isArticleLabel _); [discriminate|].
  destruct (isSome (documentQuerySelector (testid "tweet-text-show-more-link") d));
    [discriminate|].
  destruct (getMainTweetElement d) as [mt|]; [|discriminate]. simpl in H.
  unfold MIN_SINGLE_TWEET_LENGTH.
  apply Nat.leb_le in H.
  destruct (280 <? textLengthOf mt) eqn:Hlt; [apply Nat.ltb_lt in Hlt; lia|].
  destruct (getAuthorHandle d) as [h|] eqn:Hh; [|reflexivity].
  rewrite (getAuthorHandle_truthy d h Hh).
  rewrite countAuthorTweet_fold. simpl.
  unfold MIN_THREAD_TWEETS, MIN_THREAD_CONTENT_LENGTH.
  reflexivity.
Qed.

(** The verdict of thread detection, once it is reached. *)
Lemma thread_detection_verdict (d : Document) (console : Console) :
  reachesThreadDetection d = true ->
  (isArticlePage d console).1
  = (2 <=? sameAuthorCount d) && (400 <=? sameAuthorLength d).
Proof.
  intros H. rewrite (thread_detection_result d console H).
  destruct (getAuthorHandle d) as [h|] eqn:Hh.
  - now destruct (_ && _).
  - unfold sameAuthorCount, sameAuthorItems. now rewrite Hh.
Qed.


End ClassifierFacts.

Module Classifier.
Import Dom ArticleParser Spec Samples ClassifierFacts.

(** C5. Path-only decisions.  Whatever the document tree and title are,
    a path that matches the explicit long-form pattern makes
    [isArticlePage] answer [true], and a path that matches neither that
    pattern nor the single-item pattern makes it answer [false]; in both
    cases nothing is written to the console. *)
Theorem path_only_decisions (path title : string) (root : Node) (console : Console) :
  (isExplicitArticleUrl path = true ->
   isArticlePage (mkDocument path title root) console = (true, console))
  /\
  (isExplicitArticleUrl path = false -> isStatusUrl path = false ->
   isArticlePage (mkDocument path title root) console = (false, console)).
Proof.
  split.
  - intros He. unfold isArticlePage. cbn [pathname]. now rewrite He.
  - intros He Hs. unfold isArticlePage. cbn [pathname]. now rewrite He, Hs.
Qed.

Lemma path_only_decisions_witness :
  (isExplicitArticleUrl "/i/articles/42" = true
   /\ isArticlePage (emptyPage "/i/articles/42") [] = (true, []))
  /\
  (isExplicitArticleUrl "/home" = false /\ isStatusUrl "/home" = false
   /\ isArticlePage (emptyPage "/home") [] = (false, [])).
Proof.
  split.
  - split; [reflexivity|].
    apply (proj1 (path_only_decisions "/i/articles/42" "" (el "html" [] "" []) [])).
    reflexivity.
  - split; [reflexivity|]. split; [reflexivity|].
    apply (proj2 (path_only_decisions "/home" "" (el "html" [] "" []) [])); reflexivity.
Defined.

(** C3. Thread-detection boundary.  When no earlier check has fired,
    [isArticlePage] answers [true] exactly when at least 2 non-quoted
    items of the primary region have the author derived from the path's
    first segment and their primary texts sum to at least 400
    characters.  So 2 items with 400 characters give [true], a total of
    399 gives [false], and a single such item gives [false] whatever its
    length. *)
Theorem thread_detection_boundary (d : Document) (console : Console) :
  reachesThreadDetection d = true ->
  ((isArticlePage d console).1 = true
   <-> 2 <= sameAuthorCount d /\ 400 <= sameAuthorLength d)
  /\ (sameAuthorCount d = 2 -> sameAuthorLength d = 400 ->
      (isArticlePage d console).1 = true)
  /\ (sameAuthorLength d = 399 -> (isArticlePage d console).1 = false)
  /\ (sameAuthorCount d = 1 -> (isArticlePage d console).1 = false).
Proof.
  intros H. rewrite (thread_detection_verdict d console H).
  split; [|split; [|split]].
  - rewrite andb_true_iff, !Nat.leb_le. reflexivity.
  - intros -> ->. reflexivity.
  - intros ->. apply andb_false_r.
  - intros ->. reflexivity.
Qed.

Lemma thread_detection_boundary_witness :
  (reachesThreadDetection (twoItems 200 200) = true
   /\ sameAuthorCount (twoItems 200 200) = 2
   /\ sameAuthorLength (twoItems 200 200) = 400
   /\ (isArticlePage (twoItems 200 200) []).1 = true)
  /\
  (reachesThreadDetection (twoItems 200 199) = true
   /\ sameAuthorLength (twoItems 200 199) = 399
   /\ (isArticlePage (twoItems 200 199) []).1 = false)
  /\
  (reachesThreadDetection singleLongItem = true
   /\ sameAuthorCount singleLongItem = 1
   /\ sameAuthorLength singleLongItem = 100 * 100
   /\ (isArticlePage singleLongItem []).1 = false).
Proof.
  split; [|split].
  - split; [vm_compute; reflexivity|]. split; [vm_compute; reflexivity|].
    split; [vm_compute; reflexivity|].
    destruct (thread_detection_boundary (twoItems 200 200) []) as (_ & H & _);
      [vm_compute; reflexivity|].
    apply H; vm_compute; reflexivity.
  - split; [vm_compute; reflexivity|]. split; [vm_compute; reflexivity|].
    destruct (thread_detection_boundary (twoItems 200 199) []) as (_ & _ & H & _);
      [vm_compute; reflexivity|].
    apply H; vm_compute; reflexivity.
  - split; [vm_compute; reflexivity|]. split; [vm_compute; reflexivity|].
    split; [vm_compute; reflexivity|].
    destruct (thread_detection_boundary singleLongItem []) as (_ & _ & _ & H);
      [vm_compute; reflexivity|].
    apply H; vm_compute; reflexivity.
Defined.

(** C4. The single-item threshold is strict.  On a single-item path with
    no structural long-form signal, a main item whose primary text is
    longer than 280 characters makes [isArticlePage] answer [true]; at
    280 characters or fewer the check does not fire and the answer is
    that of thread detection.  So length 281 gives [true], and length 280
    without a qualifying thread gives [false]. *)
Theorem single_item_threshold_strict (d : Document) (console : Console) (n : nat) :
  noStructuralSignal d = true ->
  mainTextLength d = Some n ->
  (280 < n -> isArticlePage d console = (true, console ++ [LongSingleTweet n]))
  /\ (n <= 280 -> ((isArticlePage d console).1 = true <-> qualifyingThread d))
  /\ (n = 281 -> (isArticlePage d console).1 = true)
  /\ (n = 280 -> ~ qualifyingThread d -> (isArticlePage d console).1 = false).
Proof.
  intros Hsig Hmain.
  assert (Hlong : 280 < n ->
                  isArticlePage d console = (true, console ++ [LongSingleTweet n])).
  { intros Hn. revert Hsig Hmain.
    unfold noStructuralSignal, mainTextLength, isArticlePage.
    destruct (isExplicitArticleUrl (pathname d)); [discriminate|].
    destruct (isStatusUrl (pathname d)); [|discriminate]. cbn [negb andb].
    destruct (documentQuerySelector (testid "primaryColumn") d) as [pc|]; [|discriminate].
    destruct (isSome (articleContainer d)); [discriminate|].
    destruct (existsb isArticleLabel _); [discriminate|].
    destruct (isSome (documentQuerySelector (testid "tweet-text-show-more-link") d));
      [discriminate|].
    intros _. destruct (getMainTweetElement d) as [mt|]; [|discriminate].
    intros [= Hmt]. rewrite Hmt. unfold MIN_SINGLE_TWEET_LENGTH.
    apply Nat.ltb_lt in Hn. now rewrite Hn. }
  assert (Hshort : n <= 280 ->
                   ((isArticlePage d console).1 = true <-> qualifyingThread d)).
  { intros Hn.
    assert (Hr : reachesThreadDetection d = true).
    { unfold reachesThreadDetection. rewrite Hsig, Hmain. now apply Nat.leb_le. }
    rewrite (thread_detection_verdict d console Hr). unfold qualifyingThread.
    rewrite andb_true_iff, !Nat.leb_le. reflexivity. }
  split; [exact Hlong|]. split; [exact Hshort|]. split.
  - intros ->. rewrite Hlong by lia. reflexivity.
  - intros -> Hno. destruct ((isArticlePage d console).1) eqn:Hv; [|reflexivity].
    exfalso. apply Hno. apply Hshort; [lia|reflexivity].
Qed.

Lemma single_item_threshold_strict_witness :
  (noStructuralSignal (singleItem 281) = true
   /\ mainTextLength (singleItem 281) = Some 281
   /\ (isArticlePage (singleItem 281) []).1 = true)
  /\
  (noStructuralSignal (singleItem 280) = true
   /\ mainTextLength (singleItem 280) = Some 280
   /\ sameAuthorCount (singleItem 280) = 1
   /\ (isArticlePage (singleItem 280) []).1 = false).
Proof.
  split.
  - split; [vm_compute; reflexivity|]. split; [vm_compute; reflexivity|].
    destruct (single_item_threshold_strict (singleItem 281) [] 281) as (_ & _ & H & _);
      [vm_compute; reflexivity | vm_compute; reflexivity |].
    apply H; reflexivity.
  - split; [vm_compute; reflexivity|]. split; [vm_compute; reflexivity|].
    split; [vm_compute; reflexivity|].
    destruct (single_item_threshold_strict (singleItem 280) [] 280) as (_ & _ & _ & H);
      [vm_compute; reflexivity | vm_compute; reflexivity |].
    apply H; [reflexivity|].
    unfold qualifyingThread.
    replace (sameAuthorCount (singleItem 280)) with 1 by (vm_compute; reflexivity).
    lia.
Defined.

End Classifier.

(** ** Properties of the extraction loops *)

Module ExtractionFacts.
Import Dom ArticleParser Spec ClassifierFacts.

(** *** Trimming *)

Lemma trimStart_head (s : string) : headNotSpace (Js.trimStart s).
Proof.
  induction s as [|c s IH]; simpl; [exact I|].
  destruct (Js.isWhiteSpace c) eqn:Hc; [exact IH|]. simpl. exact Hc.
Qed.

Lemma trimStart_fixed (s : string) : headNotSpace s -> Js.trimStart s = s.
Proof. destruct s as [|c s]; simpl; [reflexivity|]. now intros ->. Qed.

Lemma trimEnd_head (s : string) : headNotSpace s -> headNotSpace (Js.trimEnd s).
Proof.
  destruct s as [|c s]; simpl; [exact id|]. intros Hc.
  destruct (Js.trimEnd s); [rewrite Hc|]; simpl; exact Hc.
Qed.

Lemma trimEnd_idempotent (s : string) : Js.trimEnd (Js.trimEnd s) = Js.trimEnd s.
Proof.
  induction s as [|c s IH]; simpl; [reflexivity|].
  destruct (Js.trimEnd s) as [|a t] eqn:Hs.
  - destruct (Js.isWhiteSpace c) eqn:Hc; simpl; [reflexivity|]. now rewrite Hc.
  - change (Js.trimEnd (String c (String a t)))
      with (match Js.trimEnd (String a t) with
            | EmptyString => if Js.isWhiteSpace c then EmptyString
                             else String c EmptyString
            | t' => String c t'
            end).
    now rewrite IH.
Qed.

(** [trim] leaves a trimmed string as it is. *)
Lemma trim_idempotent (s : string) : Js.trim (Js.trim s) = Js.trim s.
Proof.
  unfold Js.trim.
  rewrite (trimStart_fixed (Js.trimEnd (Js.trimStart s))).
  - apply trimEnd_idempotent.
  - apply trimEnd_head, trimStart_head.
Qed.

Lemma cleanText_trimmed (s : string) : Js.trim (cleanText s) = cleanText s.
Proof.
  unfold cleanText. destruct (negb (Js.truthy s)); [reflexivity|].
  apply trim_idempotent.
Qed.

Lemma extractTextFromElement_trimmed (el : Element) :
  Js.trim (extractTextFromElement el) = extractTextFromElement el.
Proof. apply cleanText_trimmed. Qed.

Lemma length_truthy (s : string) (n : nat) : String.length s = S n -> Js.truthy s = true.
Proof. destruct s; [discriminate|reflexivity]. Qed.

(** *** Joining *)

Lemma append_cons (x : ascii) (a b : string) : String x a +:+ b = String x (a +:+ b).
Proof. reflexivity. Qed.

Lemma append_nonempty_l (a b : string) : a <> "" -> a +:+ b <> "".
Proof. destruct a; [congruence|]. intros _. rewrite append_cons. discriminate. Qed.

Lemma join_cons_nonempty (sep x : string) (xs : list string) :
  x <> "" -> Js.join sep (x :: xs) <> "".
Proof.
  intros Hx. destruct xs as [|y ys]; simpl; [exact Hx|].
  now apply append_nonempty_l.
Qed.

Lemma append_assoc (a b c : string) : (a +:+ b) +:+ c = a +:+ (b +:+ c).
Proof.
  induction a as [|x a IH]; [reflexivity|]. rewrite !append_cons. now rewrite IH.
Qed.

Lemma append_empty_r (a : string) : a +:+ "" = a.
Proof. induction a as [|x a IH]; [reflexivity|]. rewrite append_cons. now rewrite IH. Qed.

(** Every part of a joined string occurs in it. *)
Lemma join_contains (sep : string) (parts : list string) (p : string) :
  p ∈ parts -> exists pre post, Js.join sep parts = pre +:+ p +:+ post.
Proof.
  induction parts as [|x xs IH]; intros Hin; [inversion Hin|].
  apply elem_of_cons in Hin as [->|Hin].
  - destruct xs as [|y ys].
    + exists "", "". simpl. now rewrite append_empty_r.
    + exists "", (sep +:+ Js.join sep (y :: ys)). reflexivity.
  - destruct (IH Hin) as (pre & post & Heq).
    destruct xs as [|y ys]; [inversion Hin|].
    exists (x +:+ sep +:+ pre), post.
    change (Js.join sep (x :: y :: ys)) with (x +:+ sep +:+ Js.join sep (y :: ys)).
    rewrite Heq. now rewrite !append_assoc.
Qed.

(** *** Loops that push onto [paragraphs] *)

(** A loop whose body either leaves the array alone or pushes a text
    with property [Q] keeps [Q] on all elements. *)
Lemma push_loop_Forall {A : Type} (Q : string -> Prop)
  (step : list string -> A -> list string) :
  (forall acc x, step acc x = acc \/ exists t, Q t /\ step acc x = acc ++ [t]) ->
  forall l acc, Forall Q acc -> Forall Q (fold_left step l acc).
Proof.
  intros Hstep l. induction l as [|x l IH]; intros acc Hacc; simpl; [exact Hacc|].
  apply IH. destruct (Hstep acc x) as [->|(t & Ht & ->)]; [exact Hacc|].
  apply Forall_app. split; [exact Hacc|]. now constructor.
Qed.

Lemma seenInv_start : seenInv (∅, []).
Proof.
  split; [|constructor]. intros x. simpl. split; intros H.
  - now apply not_elem_of_empty in H.
  - inversion H.
Qed.

Lemma has_false (seen : gset string) (text : string) :
  has seen text = false <-> text ∉ seen.
Proof. unfold has. apply bool_decide_eq_false. Qed.

Lemma seenInv_remember (st : gset string * list string) (text : string) :
  seenInv st -> has st.1 text = false -> seenInv (remember st text).
Proof.
  intros [Hset Hnd] Hnew. apply has_false in Hnew. unfold remember. split; simpl.
  - intros x. rewrite elem_of_union, elem_of_singleton, elem_of_app,
      list_elem_of_singleton, Hset. tauto.
  - apply NoDup_app. split; [exact Hnd|]. split; [|apply NoDup_singleton].
    intros x Hx Hx'. apply list_elem_of_singleton in Hx'. subst x.
    apply Hnew, Hset, Hx.
Qed.

(** A loop whose body either leaves the state alone or remembers an
    unseen text with property [Q] keeps the invariant and [Q]. *)
Lemma seen_loop {A : Type} (Q : string -> Prop)
  (step : gset string * list string -> A -> gset string * list string) :
  (forall st x, step st x = st
                \/ exists t, Q t /\ has st.1 t = false /\ step st x = remember st t) ->
  forall l st, seenInv st -> Forall Q st.2 ->
               seenInv (fold_left step l st) /\ Forall Q (fold_left step l st).2.
Proof.
  intros Hstep l. induction l as [|x l IH]; intros st Hinv HQ; simpl; [now split|].
  destruct (Hstep st x) as [->|(t & Ht & Hnew & ->)]; [now apply IH|].
  apply IH; [now apply seenInv_remember|].
  simpl. apply Forall_app. split; [exact HQ|]. now constructor.
Qed.

End ExtractionFacts.

(** ** Properties of the extraction strategies *)

Module StrategyFacts.
Import Dom ArticleParser Spec ClassifierFacts ExtractionFacts.

Lemma isUIElement_split (el : Element) (text : string) :
  isUIElement el text = (isSome (closest uiContainers el) || uiText text).
Proof.
  unfold isUIElement, uiText.
  destruct (isSome (closest uiContainers el)); [reflexivity|].
  destruct (String.length text <? 20); [reflexivity|].
  destruct (_ && _); reflexivity.
Qed.

(** *** The thread strategy *)

Lemma threadStep_shape (st : gset string * list string) (el : Element) :
  threadStep st el = st
  \/ exists t, trimmedText t /\ has st.1 t = false /\ threadStep st el = remember st t.
Proof.
  unfold threadStep.
  destruct (isSome (closest (testid "quoteTweet") el)); [now left|].
  destruct (Js.truthy (Js.trim (innerText el))) eqn:Ht; [|now left].
  destruct (has st.1 (Js.trim (innerText el))) eqn:Hh; [now left|].
  right. exists (Js.trim (innerText el)). repeat split.
  - now apply truthy_nonempty.
  - apply trim_idempotent.
  - exact Hh.
Qed.

(** The thread loop keeps the first occurrence of every candidate, in
    order. *)
Lemma thread_loop_keepFirst (l : list Element) :
  forall (st : gset string * list string) (seen : list string),
    (forall x, x ∈ st.1 <-> x ∈ seen) ->
    (fold_left threadStep l st).2
    = st.2 ++ keepFirst seen
        (List.filter Js.truthy
           (map (fun el => Js.trim (innerText el))
                (List.filter (fun el => negb (quoted el)) l))).
Proof.
  induction l as [|el l IH]; intros st seen Hseen; simpl.
  - now rewrite app_nil_r.
  - unfold threadStep at 2. unfold quoted at 1.
    destruct (isSome (closest (testid "quoteTweet") el)); simpl; [now apply IH|].
    destruct (Js.truthy (Js.trim (innerText el))) eqn:Ht; simpl; [|now apply IH].
    unfold has. destruct (bool_decide (Js.trim (innerText el) ∈ st.1)) eqn:Hh; simpl.
    + apply bool_decide_eq_true in Hh. apply Hseen in Hh.
      rewrite (bool_decide_eq_true_2 _ Hh). now apply IH.
    + apply bool_decide_eq_false in Hh.
      rewrite bool_decide_eq_false_2 by (intros Hc; apply Hh, Hseen, Hc).
      rewrite (IH _ (Js.trim (innerText el) :: seen)).
      * simpl. now rewrite <- app_assoc.
      * intros x. simpl. rewrite elem_of_union, elem_of_singleton, elem_of_cons, Hseen.
        tauto.
Qed.

Lemma keepFirst_fresh (l : list string) :
  forall seen x, x ∈ keepFirst seen l -> (x ∉ seen) /\ x ∈ l.
Proof.
  induction l as [|y l IH]; intros seen x Hx; simpl in Hx; [inversion Hx|].
  destruct (bool_decide (y ∈ seen)) eqn:Hy.
  - destruct (IH _ _ Hx) as [H1 H2]. split; [exact H1|]. now apply list_elem_of_further.
  - apply bool_decide_eq_false in Hy. apply elem_of_cons in Hx as [->|Hx].
    + split; [exact Hy|apply list_elem_of_here].
    + destruct (IH _ _ Hx) as [H1 H2]. split; [|now apply list_elem_of_further].
      intros Hc. apply H1. now apply list_elem_of_further.
Qed.


Lemma keepFirst_sublist (l : list string) : forall seen, keepFirst seen l `sublist_of` l.
Proof.
  induction l as [|y l IH]; intros seen; simpl; [constructor|].
  destruct (bool_decide (y ∈ seen)); [apply sublist_cons, IH|apply sublist_skip, IH].
Qed.


Lemma extractThreadContent_paragraphs (d : Document) (content : Content) :
  paragraphs (extractThreadContent d content)
  = match documentQuerySelector (testid "primaryColumn") d with
    | Some primaryColumn => keepFirst [] (threadCandidates primaryColumn)
    | None => paragraphs content
    end.
Proof.
  unfold extractThreadContent.
  destruct (documentQuerySelector (testid "primaryColumn") d) as [pc|]; [|reflexivity].
  pose proof (thread_loop_keepFirst (querySelectorAll (testid "tweetText") pc) (∅, []) [])
    as H.
  destruct (fold_left threadStep _ _) as [seenText ps]. simpl in *.
  rewrite H; [reflexivity|].
  intros x. split; intros Hx; [now apply not_elem_of_empty in Hx|inversion Hx].
Qed.

Lemma extractThreadContent_author (d : Document) (content : Content) :
  author (extractThreadContent d content) = author content.
Proof.
  unfold extractThreadContent.
  destruct (documentQuerySelector (testid "primaryColumn") d); [|reflexivity].
  now destruct (fold_left threadStep _ _).
Qed.

Lemma threadCandidates_trimmed (pc : Element) :
  Forall trimmedText (threadCandidates pc).
Proof.
  unfold threadCandidates. apply Forall_forall. intros t Ht.
  apply list_elem_of_In, filter_In in Ht as [Hin Htr].
  apply in_map_iff in Hin as (el & <- & _). split.
  - now apply truthy_nonempty.
  - apply trim_idempotent.
Qed.

(** *** The read view *)

Lemma longformStep_shape (acc : list string) (el : Element) :
  longformStep acc el = acc
  \/ exists t, notButtonText t /\ longformStep acc el = acc ++ [t].
Proof.
  unfold longformStep.
  destruct (isSome (closest (testid "card.wrapper") el)); [now left|].
  destruct (isSome (closest (testid "tweetPhoto") el)); [now left|].
  destruct (isSome (closest _ el)); [now left|].
  destruct (_ || _); [now left|].
  destruct (Js.truthy (Js.trim (innerText el))) eqn:Ht; [|now left].
  destruct (0 <? _); [|now left].
  destruct (isButtonText (Js.trim (innerText el))) eqn:Hb; [now left|].
  right. exists (Js.trim (innerText el)). split; [|reflexivity].
  split; [split|exact Hb]; [now apply truthy_nonempty|apply trim_idempotent].
Qed.

Lemma lineStep_shape (acc : list string) (line : string) :
  lineStep acc line = acc
  \/ exists t, notButtonText t /\ lineStep acc line = acc ++ [t].
Proof.
  unfold lineStep.
  destruct (Js.truthy (Js.trim line)) eqn:Ht; [|now left].
  destruct (0 <? _); [|now left].
  destruct (isButtonText (Js.trim line)) eqn:Hb; [now left|].
  right. exists (Js.trim line). split; [|reflexivity].
  split; [split|exact Hb]; [now apply truthy_nonempty|apply trim_idempotent].
Qed.

Lemma readViewParagraphs_notButtonText (rv : Element) :
  Forall notButtonText (readViewParagraphs rv).
Proof.
  unfold readViewParagraphs.
  set (ps := if 0 <? length _ then _ else _).
  assert (Hps : Forall notButtonText ps).
  { unfold ps. destruct (0 <? length _); [|constructor].
    apply push_loop_Forall; [apply longformStep_shape|constructor]. }
  destruct (length ps =? 0); [|exact Hps].
  apply push_loop_Forall; [apply lineStep_shape|exact Hps].
Qed.

(** *** The article strategy and the aggressive fallback *)

Lemma articleStep_shape (st : gset string * list string) (el : Element) :
  articleStep st el = st
  \/ exists t, notUIText t /\ has st.1 t = false /\ articleStep st el = remember st t.
Proof.
  unfold articleStep.
  destruct (Js.truthy (cleanText (innerText el))) eqn:Ht; [|now left].
  destruct (10 <? _); [|now left].
  destruct (has st.1 _) eqn:Hh; [now left|].
  destruct (isUIElement el _) eqn:Hu; [now left|].
  right. exists (cleanText (innerText el)). split; [|now split].
  rewrite isUIElement_split in Hu. apply orb_false_iff in Hu as [_ Hu].
  split; [split|exact Hu]; [now apply truthy_nonempty|apply cleanText_trimmed].
Qed.

Lemma fallback_shape (n : nat) (st : gset string * list string) (el : Element) :
  let step := fun st el =>
    if isSome (closest (testid "quoteTweet") el) then st
    else
      let text := extractTextFromElement el in
      if Js.truthy text && (n <? String.length text) && negb (has st.1 text)
         && negb (isUIElement el text)
      then remember st text else st in
  step st el = st
  \/ exists t, fallbackText n t /\ has st.1 t = false /\ step st el = remember st t.
Proof.
  intros step. unfold step.
  destruct (isSome (closest (testid "quoteTweet") el)) eqn:Hq; [now left|].
  destruct (Js.truthy (extractTextFromElement el)) eqn:Ht; [|now left].
  destruct (n <? _) eqn:Hn; [|now left].
  destruct (has st.1 _) eqn:Hh; [now left|].
  destruct (isUIElement el _) eqn:Hu; [now left|].
  right. exists (extractTextFromElement el). split; [|now split].
  rewrite isUIElement_split in Hu. apply orb_false_iff in Hu as [Hc Hu].
  split; [|split].
  - split; [split|exact Hu];
      [now apply truthy_nonempty|apply extractTextFromElement_trimmed].
  - now apply Nat.ltb_lt.
  - exists el. split; [reflexivity|]. split; [exact Hq|].
    now destruct (closest uiContainers el).
Qed.

Lemma fallbackText_weaken (n m : nat) (t : string) :
  m <= n -> fallbackText n t -> fallbackText m t.
Proof. intros Hle (H1 & H2 & H3). split; [exact H1|]. split; [lia|exact H3]. Qed.

(** The aggressive fallback: no duplicates, and every paragraph passed
    the filters of its first pass. *)
Lemma extractFallbackContent_paragraphs (d : Document) :
  NoDup (paragraphs (extractFallbackContent d))
  /\ Forall (fallbackText 20) (paragraphs (extractFallbackContent d)).
Proof.
  unfold extractFallbackContent. cbn [paragraphs contentTitle author body emptyContent].
  destruct (orElse _ _) as [pc|]; cbn [paragraphs]; [|split; constructor].
  destruct (seen_loop (fallbackText 20) fallbackTweetStep (fallback_shape 20)
              (querySelectorAll (testid "tweetText") pc) (∅, []) seenInv_start)
    as [Hinv HQ]; [constructor|].
  set (st1 := fold_left fallbackTweetStep _ _) in *.
  destruct (length st1.2 =? 0).
  - destruct (seen_loop (fallbackText 20) fallbackLangStep) with
      (l := querySelectorAll [Only [Tag "div"; AttrPresent "lang"]] pc) (st := st1)
      as [Hinv2 HQ2]; [|exact Hinv|exact HQ|].
    + intros st el. destruct (fallback_shape 30 st el) as [H|(t & Ht & Hh & H)];
        [now left|right].
      exists t. split; [|now split]. apply (fallbackText_weaken 30); [lia|exact Ht].
    + split; [apply Hinv2|exact HQ2].
  - split; [apply Hinv|exact HQ].
Qed.

Lemma extractFallbackContent_author (d : Document) :
  author (extractFallbackContent d) = extractAuthor d.
Proof.
  unfold extractFallbackContent. now destruct (orElse _ _).
Qed.

(** *** Content as a whole *)

Lemma extractStatusContent_author (d : Document) (content : Content) :
  author (extractStatusContent d content) = extractAuthor d.
Proof.
  unfold extractStatusContent.
  destruct (documentQuerySelector (testid "twitterArticleReadView") d) as [rv|].
  - destruct (0 <? length (readViewParagraphs rv)); [reflexivity|].
    now rewrite extractThreadContent_author.
  - now rewrite extractThreadContent_author.
Qed.

Lemma extractContent_author (d : Document) : author (extractContent d) = extractAuthor d.
Proof.
  unfold extractContent, extractArticleContent.
  destruct (Js.includes "/article/" (pathname d)); [|apply extractStatusContent_author].
  destruct (orElse _ _); [|apply extractStatusContent_author].
  now destruct (fold_left articleStep _ _).
Qed.

(** Where the paragraphs of [extractStatusContent] come from. *)
Lemma extractStatusContent_paragraphs (d : Document) (content : Content) :
  (exists rv, documentQuerySelector (testid "twitterArticleReadView") d = Some rv
              /\ readViewParagraphs rv <> []
              /\ paragraphs (extractStatusContent d content) = readViewParagraphs rv)
  \/ paragraphs (extractStatusContent d content)
     = match documentQuerySelector (testid "primaryColumn") d with
       | Some primaryColumn => keepFirst [] (threadCandidates primaryColumn)
       | None => paragraphs content
       end.
Proof.
  unfold extractStatusContent.
  destruct (documentQuerySelector (testid "twitterArticleReadView") d) as [rv|].
  - destruct (readViewParagraphs rv) as [|p ps] eqn:Hrv; simpl.
    + right. now rewrite extractThreadContent_paragraphs.
    + left. exists rv. now rewrite Hrv.
  - right. now rewrite extractThreadContent_paragraphs.
Qed.

(** Where the paragraphs of [extractContent] come from: the read view,
    the thread strategy, or the article strategy. *)
Lemma extractContent_paragraphs (d : Document) :
  (exists rv, documentQuerySelector (testid "twitterArticleReadView") d = Some rv
              /\ readViewParagraphs rv <> []
              /\ paragraphs (extractContent d) = readViewParagraphs rv)
  \/ paragraphs (extractContent d)
     = match documentQuerySelector (testid "primaryColumn") d with
       | Some primaryColumn => keepFirst [] (threadCandidates primaryColumn)
       | None => []
       end
  \/ (NoDup (paragraphs (extractContent d))
      /\ Forall notUIText (paragraphs (extractContent d))).
Proof.
  unfold extractContent, extractArticleContent.
  destruct (Js.includes "/article/" (pathname d)).
  - destruct (orElse _ _) as [ac|].
    + right. right.
      destruct (seen_loop notUIText articleStep articleStep_shape
                  (querySelectorAll articleParagraphSelector ac) (∅, [])
                  seenInv_start) as [Hinv HQ]; [constructor|].
      cbn [paragraphs emptyContent].
      destruct (fold_left articleStep _ _) as [seenText ps]. simpl in *.
      split; [apply Hinv|exact HQ].
    + destruct (extractStatusContent_paragraphs d emptyContent) as [H|H];
        [now left|right; now left].
  - destruct (extractStatusContent_paragraphs d emptyContent) as [H|H];
      [now left|right; now left].
Qed.

(** Every strategy pushes only texts that are non-empty and trimmed. *)
Lemma extractContent_trimmed (d : Document) :
  Forall trimmedText (paragraphs (extractContent d)).
Proof.
  destruct (extractContent_paragraphs d) as [(rv & _ & _ & ->)|[->|[_ H]]].
  - eapply Forall_impl; [apply readViewParagraphs_notButtonText|]. now intros t [Ht _].
  - destruct (documentQuerySelector (testid "primaryColumn") d) as [pc|]; [|constructor].
    apply Forall_forall. intros t Ht. apply keepFirst_fresh in Ht as [_ Ht].
    revert t Ht. apply Forall_forall, threadCandidates_trimmed.
  - eapply Forall_impl; [exact H|]. now intros t [Ht _].
Qed.

Lemma extractFallbackContent_trimmed (d : Document) :
  Forall trimmedText (paragraphs (extractFallbackContent d)).
Proof.
  eapply Forall_impl; [apply extractFallbackContent_paragraphs|].
  now intros t [[Ht _] _].
Qed.

(** *** Assembly *)

Lemma readableParts_author (d : Document) (c : Content) :
  author c = extractAuthor d ->
  readableParts c = authorLine (extractAuthor d) ++ paragraphs c.
Proof.
  intros Hc. unfold readableParts, authorLine. rewrite Hc.
  now destruct (Js.truthy (extractAuthor d)).
Qed.


Lemma getReadableText_text (d : Document) (text : string) :
  getReadableText d = Some text ->
  exists ps,
    ps <> []
    /\ (ps = paragraphs (extractContent d)
        \/ (paragraphs (extractContent d) = []
            /\ ps = paragraphs (extractFallbackContent d)))
    /\ text = Js.join blankLine (authorLine (extractAuthor d) ++ ps).
Proof.
  unfold getReadableText.
  destruct (paragraphs (extractContent d)) as [|p ps] eqn:Hc; simpl.
  - destruct (paragraphs (extractFallbackContent d)) as [|q qs] eqn:Hf; simpl;
      [discriminate|].
    intros [= <-]. exists (q :: qs). split; [discriminate|]. split; [now right|].
    rewrite (readableParts_author d) by apply extractFallbackContent_author.
    now rewrite Hf.
  - intros [= <-]. exists (p :: ps). split; [discriminate|]. split; [now left|].
    rewrite (readableParts_author d) by apply extractContent_author. now rewrite Hc.
Qed.

End StrategyFacts.

(** ** The matcher decides the language of a pattern *)

Module MatcherFacts.
Import Re.

Lemma app_cons (x : ascii) (a b : string) : String x a +:+ b = String x (a +:+ b).
Proof. reflexivity. Qed.

Lemma app_nil (a : string) : "" +:+ a = a.
Proof. reflexivity. Qed.

Lemma app_empty_inv (a b : string) : a +:+ b = "" -> a = "" /\ b = "".
Proof.
  destruct a; [intros H; split; [reflexivity|exact H]|]. rewrite app_cons. discriminate.
Qed.

Lemma matches_Void (s : string) : ~ matches Void s.
Proof. intros H. inversion H. Qed.

Lemma matches_Eps_inv (s : string) : matches Eps s -> s = "".
Proof. intros H. now inversion H. Qed.

Lemma matches_Cls_inv (p : ascii -> bool) (s : string) :
  matches (Cls p) s -> exists c, s = String c "" /\ p c = true.
Proof. intros H. inversion H; subst. eauto. Qed.

Lemma matches_Cat_inv (r1 r2 : regex) (s : string) :
  matches (Cat r1 r2) s ->
  exists s1 s2, s = s1 +:+ s2 /\ matches r1 s1 /\ matches r2 s2.
Proof. intros H. inversion H; subst. eauto. Qed.

Lemma matches_Alt_inv (r1 r2 : regex) (s : string) :
  matches (Alt r1 r2) s -> matches r1 s \/ matches r2 s.
Proof. intros H. inversion H; subst; auto. Qed.

Lemma nullable_matches (r : regex) : nullable r = true <-> matches r "".
Proof.
  induction r as [| |p|r1 IH1 r2 IH2|r1 IH1 r2 IH2|r IH]; simpl.
  - split; [discriminate|]. intros H. now apply matches_Void in H.
  - split; [constructor|reflexivity].
  - split; [discriminate|]. intros H.
    apply matches_Cls_inv in H as (c & Hc & _). discriminate.
  - rewrite andb_true_iff, IH1, IH2. split.
    + intros [H1 H2]. exact (MCat r1 r2 "" "" H1 H2).
    + intros H. apply matches_Cat_inv in H as (s1 & s2 & Heq & H1 & H2).
      symmetry in Heq. apply app_empty_inv in Heq as [-> ->]. now split.
  - rewrite orb_true_iff, IH1, IH2. split.
    + intros [H|H]; [now apply MAltL|now apply MAltR].
    + apply matches_Alt_inv.
  - split; [constructor|reflexivity].
Qed.

Lemma matches_cat (a b : regex) (s : string) : matches (cat a b) s <-> matches (Cat a b) s.
Proof.
  assert (Hv1 : forall b s, matches (Cat Void b) s -> False).
  { intros b' s' H. apply matches_Cat_inv in H as (s1 & s2 & _ & H & _).
    now apply matches_Void in H. }
  assert (Hv2 : forall a s, matches (Cat a Void) s -> False).
  { intros a' s' H. apply matches_Cat_inv in H as (s1 & s2 & _ & _ & H).
    now apply matches_Void in H. }
  assert (He : forall b s, matches (Cat Eps b) s <-> matches b s).
  { intros b' s'. split.
    - intros H. apply matches_Cat_inv in H as (s1 & s2 & -> & H1 & H2).
      apply matches_Eps_inv in H1 as ->. exact H2.
    - intros H. exact (MCat Eps b' "" s' MEps H). }
  destruct a, b; simpl; try reflexivity;
    try (split; intros H; [now apply matches_Void in H|exfalso; eauto]);
    try (symmetry; apply He).
Qed.

Lemma matches_alt (a b : regex) (s : string) : matches (alt a b) s <-> matches (Alt a b) s.
Proof.
  assert (Hl : forall b s, matches (Alt Void b) s <-> matches b s).
  { intros b' s'. split; [|now apply MAltR].
    intros H. apply matches_Alt_inv in H as [H|H]; [now apply matches_Void in H|exact H]. }
  assert (Hr : forall a s, matches (Alt a Void) s <-> matches a s).
  { intros a' s'. split; [|now apply MAltL].
    intros H. apply matches_Alt_inv in H as [H|H]; [exact H|now apply matches_Void in H]. }
  destruct a, b; simpl; try reflexivity;
    try (symmetry; apply Hl); try (symmetry; apply Hr).
Qed.

(** A non-empty match of a star starts with a non-empty match of its body. *)
Lemma matches_Star_cons (r : regex) (t : string) :
  matches (Star r) t ->
  forall c s, t = String c s ->
    exists s1 s2, s = s1 +:+ s2 /\ matches r (String c s1) /\ matches (Star r) s2.
Proof.
  intros H. remember (Star r) as sr eqn:Hsr. revert r Hsr.
  induction H as [| | | | | r' | r' s1 s2 H1 _ H2 IH2]; intros r Hsr;
    try discriminate Hsr.
  - intros c s Heq. discriminate Heq.
  - injection Hsr as ->. intros c s Heq.
    destruct s1 as [|c1 s1].
    + rewrite app_nil in Heq. now apply (IH2 r eq_refl c s).
    + rewrite app_cons in Heq. injection Heq as -> <-.
      exists s1, s2. now split.
Qed.

(** A match of a concatenation that starts with [c]: the character is
    consumed by the first part, or the first part is empty. *)
Lemma matches_Cat_cons (r1 r2 : regex) (c : ascii) (s : string) :
  matches (Cat r1 r2) (String c s)
  <-> (exists s1 s2, s = s1 +:+ s2 /\ matches r1 (String c s1) /\ matches r2 s2)
      \/ (matches r1 "" /\ matches r2 (String c s)).
Proof.
  split.
  - intros H. apply matches_Cat_inv in H as (s1 & s2 & Heq & H1 & H2).
    destruct s1 as [|c1 s1].
    + right. rewrite app_nil in Heq. subst. now split.
    + left. rewrite app_cons in Heq. injection Heq as -> ->.
      exists s1, s2. now split.
  - intros [(s1 & s2 & -> & H1 & H2)|[H1 H2]].
    + exact (MCat r1 r2 (String c s1) s2 H1 H2).
    + exact (MCat r1 r2 "" (String c s) H1 H2).
Qed.

Lemma deriv_matches (r : regex) :
  forall c s, matches (deriv c r) s <-> matches r (String c s).
Proof.
  induction r as [| |p|r1 IH1 r2 IH2|r1 IH1 r2 IH2|r IH]; intros c s; simpl.
  - split; intros H; now apply matches_Void in H.
  - split; intros H; [now apply matches_Void in H|].
    apply matches_Eps_inv in H. discriminate.
  - destruct (p c) eqn:Hp.
    + split; intros H.
      * apply matches_Eps_inv in H as ->. now constructor.
      * apply matches_Cls_inv in H as (c' & [= -> ->] & _). constructor.
    + split; intros H; [now apply matches_Void in H|].
      apply matches_Cls_inv in H as (c' & [= -> ->] & H). congruence.
  - assert (Hcat : matches (Cat (deriv c r1) r2) s
                   <-> exists s1 s2, s = s1 +:+ s2 /\ matches r1 (String c s1)
                                     /\ matches r2 s2).
    { split.
      - intros H. apply matches_Cat_inv in H as (s1 & s2 & -> & H1 & H2).
        exists s1, s2. split; [reflexivity|]. split; [now apply IH1|exact H2].
      - intros (s1 & s2 & -> & H1 & H2). apply MCat; [now apply IH1|exact H2]. }
    rewrite matches_Cat_cons. destruct (nullable r1) eqn:Hn.
    + rewrite matches_alt. split.
      * intros H. apply matches_Alt_inv in H as [H|H].
        -- left. now apply Hcat, matches_cat.
        -- right. split; [now apply nullable_matches|now apply IH2].
      * intros [H|[_ H]].
        -- apply MAltL, matches_cat, Hcat, H.
        -- apply MAltR, IH2, H.
    + rewrite matches_cat, Hcat. split; [now left|].
      intros [H|[H _]]; [exact H|]. apply nullable_matches in H. congruence.
  - rewrite matches_alt. split; intros H; apply matches_Alt_inv in H as [H|H].
    + apply MAltL. now apply IH1.
    + apply MAltR. now apply IH2.
    + apply MAltL. now apply IH1.
    + apply MAltR. now apply IH2.
  - rewrite matches_cat. split.
    + intros H. apply matches_Cat_inv in H as (s1 & s2 & -> & H1 & H2).
      exact (MStarApp r (String c s1) s2 (proj1 (IH c s1) H1) H2).
    + intros H. destruct (matches_Star_cons r _ H c s eq_refl) as (s1 & s2 & -> & H1 & H2).
      apply MCat; [now apply IH|exact H2].
Qed.

(** [fullMatch] decides membership in the language of the pattern. *)
Lemma fullMatch_matches (s : string) :
  forall r, fullMatch r s = true <-> matches r s.
Proof.
  induction s as [|c s IH]; intros r; simpl.
  - apply nullable_matches.
  - rewrite IH. apply deriv_matches.
Qed.

(** [prefixMatch] decides whether a prefix is in the language. *)
Lemma prefixMatch_matches (s : string) :
  forall r, prefixMatch r s = true <-> exists s1 s2, s = s1 +:+ s2 /\ matches r s1.
Proof.
  induction s as [|c s IH]; intros r; simpl.
  - rewrite orb_false_r, nullable_matches. split.
    + intros H. now exists "", "".
    + intros (s1 & s2 & Heq & H). symmetry in Heq.
      apply app_empty_inv in Heq as [-> _]. exact H.
  - rewrite orb_true_iff, nullable_matches, IH. split.
    + intros [H|(s1 & s2 & -> & H)].
      * now exists "", (String c s).
      * exists (String c s1), s2. split; [reflexivity|]. now apply deriv_matches.
    + intros (s1 & s2 & Heq & H). destruct s1 as [|c1 s1].
      * now left.
      * right. rewrite app_cons in Heq. injection Heq as <- ->.
        exists s1, s2. split; [reflexivity|]. now apply deriv_matches.
Qed.

End MatcherFacts.

(** ** Properties of the patterns *)

Module RegexFacts.
Import ArticleParser Spec.

Lemma fullMatch_Void (s : string) : Re.fullMatch Re.Void s = false.
Proof. induction s as [|c s IH]; [reflexivity|exact IH]. Qed.

Lemma fullMatch_Eps (s : string) : Re.fullMatch Re.Eps s = true -> s = "".
Proof.
  destruct s as [|c s]; [reflexivity|]. simpl. now rewrite fullMatch_Void.
Qed.

Lemma fullMatch_Alt (s : string) :
  forall a b, Re.fullMatch (Re.Alt a b) s = Re.fullMatch a s || Re.fullMatch b s.
Proof.
  induction s as [|c s IH]; intros a b; [reflexivity|]. simpl.
  destruct (Re.deriv c a) eqn:Ha, (Re.deriv c b) eqn:Hb; simpl;
    rewrite ?fullMatch_Void, ?orb_false_r; try reflexivity; apply IH.
Qed.

(** A class followed by [r] matches one character of the class followed
    by a match of [r]. *)
Lemma fullMatch_Cls_Cat (p : ascii -> bool) (r : Re.regex) (s : string) :
  Re.fullMatch (Re.Cat (Re.Cls p) r) s = true ->
  exists c s', s = String c s' /\ p c = true /\ Re.fullMatch r s' = true.
Proof.
  destruct s as [|c s]; [discriminate|]. simpl.
  destruct (p c) eqn:Hp; simpl.
  - intros H. exists c, s. split; [reflexivity|]. split; [exact Hp|].
    destruct r; exact H.
  - now rewrite fullMatch_Void.
Qed.

Lemma fullMatch_Cls (p : ascii -> bool) (s : string) :
  Re.fullMatch (Re.Cls p) s = true -> String.length s = 1.
Proof.
  destruct s as [|c s]; [discriminate|]. simpl.
  destruct (p c); [|now rewrite fullMatch_Void].
  intros H. now rewrite (fullMatch_Eps s H).
Qed.

(** A literal under the [i] flag matches strings of its own length only. *)
Lemma fullMatch_LitI_length (lit : string) :
  forall s, Re.fullMatch (Re.LitI lit) s = true -> String.length s = String.length lit.
Proof.
  induction lit as [|c lit IH]; intros s H; simpl in *.
  - now rewrite (fullMatch_Eps s H).
  - apply fullMatch_Cls_Cat in H as (x & s' & -> & _ & H). simpl. f_equal. now apply IH.
Qed.

(** Among the patterns of [isButtonText] only the bare counter matches a
    text of ten characters or more. *)
Lemma buttonPatterns_long (s : string) :
  10 <= String.length s ->
  existsb (fun pattern => Re.fullMatch pattern s) buttonPatterns
  = Re.fullMatch counterPattern s.
Proof.
  intros Hlen. unfold buttonPatterns. cbn [existsb].
  assert (Hlit : forall lit, String.length lit < 10 -> Re.fullMatch (Re.LitI lit) s = false).
  { intros lit Hl. destruct (Re.fullMatch (Re.LitI lit) s) eqn:Hm; [|reflexivity].
    apply fullMatch_LitI_length in Hm. lia. }
  cbn [Re.AnyOf]. rewrite !fullMatch_Alt.
  rewrite !Hlit by (simpl; lia). cbn [orb].
  change (Seq [Re.Plus Re.Digit; Re.Opt (Re.Chr "."); Re.Star Re.Digit; Re.Opt K_M_B])
    with counterPattern.
  destruct (Re.fullMatch (Seq [Re.Chr _; Re.Chr _]) s) eqn:Hdot.
  - exfalso. cbn [Seq] in Hdot. unfold Re.Chr in Hdot.
    apply fullMatch_Cls_Cat in Hdot as (x & s' & -> & _ & H).
    apply fullMatch_Cls in H. simpl in Hlen. lia.
  - now rewrite !orb_false_r.
Qed.

End RegexFacts.

(** ** The noise filters *)

Module Noise.
Import Dom ArticleParser Spec Samples RegexFacts StrategyFacts.

(** C7, as the code has it.  [isButtonText] and [isUIElement] both
    reject "Like", "1.2K" and "Follow".  The 45-character sentence
    [fortyFive], which contains "Like", is rejected by neither (for an
    element outside the excluded containers).  A text of 50 characters
    or more passes [isUIElement] whatever it contains, for such an
    element; from 20 to 49 characters the patterns decide.
    [isButtonText] has no length gate: on a text of ten
    characters or more (after trimming) it answers whether the text is a
    bare counter. *)
Theorem noise_filter_behaviour :
  (forall t, t ∈ ["Like"; "1.2K"; "Follow"] ->
             isButtonText t = true /\ forall el, isUIElement el t = true)
  /\ (String.length fortyFive = 45 /\ Js.includes "Like" fortyFive = true
      /\ isButtonText fortyFive = false
      /\ forall el, closest uiContainers el = None -> isUIElement el fortyFive = false)
  /\ (forall el text, closest uiContainers el = None -> 50 <= String.length text ->
                      isUIElement el text = false)
  /\ (forall el text, closest uiContainers el = None ->
                      20 <= String.length text -> String.length text < 50 ->
                      isUIElement el text
                      = existsb (fun pattern => Re.fullMatch pattern (Js.trim text))
                                uiPatterns)
  /\ (forall text, 10 <= String.length (Js.trim text) ->
                   isButtonText text = Re.fullMatch counterPattern (Js.trim text)).
Proof.
  split; [|split; [|split; [|split]]].
  - intros t Ht. split.
    + repeat (apply elem_of_cons in Ht as [->|Ht]; [vm_compute; reflexivity|]).
      inversion Ht.
    + intros el. rewrite isUIElement_split.
      assert (Hu : uiText t = true).
      { repeat (apply elem_of_cons in Ht as [->|Ht]; [vm_compute; reflexivity|]).
        inversion Ht. }
      rewrite Hu. apply orb_true_r.
  - split; [reflexivity|]. split; [reflexivity|]. split; [vm_compute; reflexivity|].
    intros el Hel. rewrite isUIElement_split, Hel. vm_compute. reflexivity.
  - intros el text Hel Hlen. rewrite isUIElement_split, Hel. unfold uiText.
    assert (H20 : (String.length text <? 20) = false) by (apply Nat.ltb_ge; lia).
    assert (H50 : (String.length text <? 50) = false) by (apply Nat.ltb_ge; lia).
    now rewrite H20, H50.
  - intros el text Hel H20 H50. rewrite isUIElement_split, Hel. unfold uiText.
    apply Nat.ltb_ge in H20. apply Nat.ltb_lt in H50. now rewrite H20, H50.
  - intros text Hlen. unfold isButtonText. now apply buttonPatterns_long.
Qed.

Lemma noise_filter_behaviour_witness :
  (isButtonText "Like" = true /\ isUIElement plainDiv "1.2K" = true)
  /\ isUIElement plainDiv fortyFive = false
  /\ isUIElement plainDiv fiftyDigits = false
  /\ isButtonText (fortyFive +:+ fortyFive) = false.
Proof.
  destruct noise_filter_behaviour as (H1 & (_ & _ & _ & H2) & H3 & _ & H4).
  split; [split|split; [|split]].
  - apply (H1 "Like"). apply list_elem_of_here.
  - apply (H1 "1.2K"). apply list_elem_of_further, list_elem_of_here.
  - apply H2. reflexivity.
  - apply H3; [reflexivity|]. vm_compute. lia.
  - rewrite H4; [vm_compute; reflexivity|]. vm_compute. lia.
Defined.

(** C7 as stated fails for [isButtonText]: a text of fifty digits is 50
    characters long and is still rejected, so the read view loses such a
    block. *)
Lemma long_counter_is_rejected :
  String.length fiftyDigits = 50
  /\ isButtonText fiftyDigits = true
  /\ paragraphs (extractContent digitsBlock) = ["Once upon a time"].
Proof. split; [reflexivity|]. split; vm_compute; reflexivity. Qed.

End Noise.

(** ** Extraction and assembly *)

Module Extraction.
Import Dom ArticleParser Spec Samples ClassifierFacts ExtractionFacts StrategyFacts.

(** C1, as the code has it.  In the end-to-end scenario (a 39-character
    main item of author A, a 500-character item of author B, a
    380-character second item of author A, each text without white space
    at its ends) the classifier answers [true] through thread detection,
    with 2 items and 419 characters for the author of the path.
    [getReadableText] returns all three paragraphs in document order,
    the one of author B included, joined by blank lines; when the page
    shows display names an "Article by" line comes first. *)
Theorem scenario_thread_and_text (textB textA2 : string) :
  String.length textB = 500 ->
  String.length textA2 = 380 ->
  Js.trim textB = textB ->
  Js.trim textA2 = textA2 ->
  let d := scenarioWith helloText textB textA2 in
  String.length helloText = 39
  /\ reachesThreadDetection d = true
  /\ sameAuthorCount d = 2
  /\ sameAuthorLength d = 419
  /\ (forall console,
        isArticlePage d console = (true, console ++ [ThreadFound 2 419 "alice"]))
  /\ getReadableText d = Some (Js.join blankLine [helloText; textB; textA2])
  /\ getReadableText namedScenario
     = Some (Js.join blankLine
               ["Article by Alice"; helloText; otherAuthorText; secondText]).
Proof.
  intros HlenB HlenA2 HtrimB HtrimA2 d.
  assert (Hreach : reachesThreadDetection d = true) by (vm_compute; reflexivity).
  assert (Hcount : sameAuthorCount d = 2) by (vm_compute; reflexivity).
  assert (Hlens : map textLengthOf (sameAuthorItems d)
                  = [String.length helloText; String.length textA2])
    by (vm_compute; reflexivity).
  assert (Htotal : sameAuthorLength d = 419).
  { unfold sameAuthorLength. rewrite Hlens, HlenA2. reflexivity. }
  assert (Hhandle : getAuthorHandle d = Some "alice") by (vm_compute; reflexivity).
  split; [reflexivity|]. split; [exact Hreach|]. split; [exact Hcount|].
  split; [exact Htotal|]. split; [|split; [|vm_compute; reflexivity]].
  - intros console. rewrite (thread_detection_result d console Hreach).
    rewrite Hhandle, Hcount, Htotal. reflexivity.
  - assert (Hpc : documentQuerySelector (testid "primaryColumn") d
                  = Some (scenarioColumnWith helloText textB textA2))
      by (vm_compute; reflexivity).
    assert (Htexts : map innerText
                       (List.filter (fun el => negb (quoted el))
                          (querySelectorAll (testid "tweetText")
                             (scenarioColumnWith helloText textB textA2)))
                     = [helloText; textB; textA2]) by (vm_compute; reflexivity).
    assert (Hcand : threadCandidates (scenarioColumnWith helloText textB textA2)
                    = [helloText; textB; textA2]).
    { unfold threadCandidates.
      rewrite <- (map_map innerText Js.trim), Htexts. cbn [map].
      rewrite HtrimB, HtrimA2.
      change (Js.trim helloText) with helloText. cbn [List.filter].
      rewrite (length_truthy textB _ HlenB), (length_truthy textA2 _ HlenA2).
      reflexivity. }
    assert (Hkeep : keepFirst [] [helloText; textB; textA2] = [helloText; textB; textA2]).
    { assert (H1 : helloText <> textB) by (intros E; rewrite <- E in HlenB; discriminate).
      assert (H2 : helloText <> textA2) by (intros E; rewrite <- E in HlenA2; discriminate).
      assert (H3 : textB <> textA2) by (intros E; rewrite E in HlenB; congruence).
      cbn [keepFirst].
      rewrite (bool_decide_eq_false_2 (helloText ∈ [])) by (intros E; inversion E).
      rewrite (bool_decide_eq_false_2 (textB ∈ [helloText])).
      2:{ intros E. apply list_elem_of_singleton in E. congruence. }
      rewrite (bool_decide_eq_false_2 (textA2 ∈ [textB; helloText])).
      2:{ intros E. apply elem_of_cons in E as [E|E]; [congruence|].
          apply list_elem_of_singleton in E. congruence. }
      reflexivity. }
    assert (Hps : paragraphs (extractContent d) = [helloText; textB; textA2]).
    { change (extractContent d) with (extractStatusContent d emptyContent).
      destruct (extractStatusContent_paragraphs d emptyContent) as [(rv & Hrv & _)|H].
      - vm_compute in Hrv. discriminate.
      - now rewrite H, Hpc, Hcand, Hkeep. }
    assert (Hauthor : extractAuthor d = "") by (vm_compute; reflexivity).
    unfold getReadableText. rewrite Hps. cbn [length Nat.eqb].
    rewrite (readableParts_author d) by apply extractContent_author.
    now rewrite Hauthor, Hps.
Qed.

Lemma scenario_thread_and_text_witness :
  String.length otherAuthorText = 500
  /\ String.length secondText = 380
  /\ Js.trim otherAuthorText = otherAuthorText
  /\ Js.trim secondText = secondText
  /\ isArticlePage scenario [] = (true, [ThreadFound 2 419 "alice"])
  /\ getReadableText scenario
     = Some (Js.join blankLine [helloText; otherAuthorText; secondText]).
Proof.
  split; [reflexivity|]. split; [reflexivity|].
  split; [vm_compute; reflexivity|]. split; [vm_compute; reflexivity|].
  destruct (scenario_thread_and_text otherAuthorText secondText)
    as (_ & _ & _ & _ & Hpage & Htext & _);
    [reflexivity | reflexivity | vm_compute; reflexivity | vm_compute; reflexivity |].
  split; [exact (Hpage [])|exact Htext].
Defined.

(** C1 as stated fails: the text returned for the scenario is not the
    two paragraphs of author A alone. *)
Lemma scenario_text_is_not_author_only :
  getReadableText scenario <> Some (Js.join blankLine [helloText; secondText]).
Proof. vm_compute. discriminate. Qed.








(** C10. [getReadableText] never returns the empty string: a result
    other than [null] is not empty and contains a paragraph of one of the
    strategies that is itself non-empty and trimmed. *)
Theorem readable_text_never_empty (d : Document) (text : string) :
  getReadableText d = Some text ->
  text <> ""
  /\ exists p pre post,
       text = pre +:+ p +:+ post
       /\ p <> "" /\ Js.trim p = p
       /\ (p ∈ paragraphs (extractContent d) \/ p ∈ paragraphs (extractFallbackContent d)).
Proof.
  intros Htext.
  destruct (getReadableText_text d text Htext) as (ps & Hne & Hsrc & ->).
  assert (Htr : Forall trimmedText ps).
  { destruct Hsrc as [->|[_ ->]];
      [apply extractContent_trimmed|apply extractFallbackContent_trimmed]. }
  destruct ps as [|p ps]; [congruence|].
  apply Forall_cons in Htr as [[Hp Htrim] _].
  split.
  - unfold authorLine. destruct (Js.truthy (extractAuthor d)).
    + apply join_cons_nonempty. rewrite append_cons. discriminate.
    + now apply join_cons_nonempty.
  - destruct (join_contains blankLine (authorLine (extractAuthor d) ++ p :: ps) p)
      as (pre & post & Heq).
    { apply elem_of_app. right. apply list_elem_of_here. }
    exists p, pre, post. split; [exact Heq|]. split; [exact Hp|]. split; [exact Htrim|].
    destruct Hsrc as [Hs|[_ Hs]]; rewrite <- Hs; [left|right]; apply list_elem_of_here.
Qed.

Lemma readable_text_never_empty_witness :
  getReadableText scenario
  = Some (Js.join blankLine [helloText; otherAuthorText; secondText])
  /\ Js.join blankLine [helloText; otherAuthorText; secondText] <> "".
Proof.
  split; [vm_compute; reflexivity|].
  apply (readable_text_never_empty scenario). vm_compute. reflexivity.
Defined.

End Extraction.

(** ** The engine between calls *)

Module Engine.
Import Dom ArticleParser Spec ClassifierFacts.



End Engine.

(** ** Text cleaning *)

Module CleanTextFacts.
Import Dom ArticleParser Spec ClassifierFacts ExtractionFacts.

Lemma collapse_cons_space (c : ascii) (s : string) :
  Js.isWhiteSpace c = true ->
  collapseWhiteSpace (String c s)
  = match s with
    | String c' _ => if Js.isWhiteSpace c' then collapseWhiteSpace s
                     else String " " (collapseWhiteSpace s)
    | EmptyString => " "
    end.
Proof. intros H. simpl. now rewrite H. Qed.

Lemma collapse_cons_other (c : ascii) (s : string) :
  Js.isWhiteSpace c = false ->
  collapseWhiteSpace (String c s) = String c (collapseWhiteSpace s).
Proof. intros H. simpl. now rewrite H. Qed.

(** After the first replacement white space is the space character only. *)
Lemma collapse_spaceOnly (s : string) : allChars spaceOnly (collapseWhiteSpace s) = true.
Proof.
  induction s as [|c s IH]; [reflexivity|].
  destruct (Js.isWhiteSpace c) eqn:Hc.
  - rewrite (collapse_cons_space c s Hc). destruct s as [|c' s']; [reflexivity|].
    destruct (Js.isWhiteSpace c'); [exact IH|]. simpl. exact IH.
  - rewrite (collapse_cons_other c s Hc). simpl. unfold spaceOnly at 1. rewrite Hc.
    exact IH.
Qed.

(** The head of the result is white space exactly when the head of the
    input is. *)
Lemma collapse_head (s : string) (c : ascii) :
  exists x t, collapseWhiteSpace (String c s) = String x t
              /\ Js.isWhiteSpace x = Js.isWhiteSpace c.
Proof.
  revert c. induction s as [|c' s IH]; intros c.
  - simpl. destruct (Js.isWhiteSpace c) eqn:Hc; eauto.
  - destruct (Js.isWhiteSpace c) eqn:Hc.
    + rewrite (collapse_cons_space c _ Hc).
      destruct (Js.isWhiteSpace c') eqn:Hc'; [|eauto].
      destruct (IH c') as (x & t & -> & Hx). exists x, t. split; [reflexivity|].
      now rewrite Hx.
    + rewrite (collapse_cons_other c _ Hc). eauto.
Qed.

Lemma collapse_noAdjacent (s : string) : noAdjacentSpace (collapseWhiteSpace s) = true.
Proof.
  induction s as [|c s IH]; [reflexivity|].
  destruct (Js.isWhiteSpace c) eqn:Hc.
  - rewrite (collapse_cons_space c s Hc). destruct s as [|c' s']; [reflexivity|].
    destruct (Js.isWhiteSpace c') eqn:Hc'; [exact IH|].
    destruct (collapse_head s' c') as (x & t & E & Hh).
    change (noAdjacentSpace (String " " (collapseWhiteSpace (String c' s'))))
      with (match collapseWhiteSpace (String c' s') with
            | EmptyString => true
            | String x _ => negb (Js.isWhiteSpace " " && Js.isWhiteSpace x)
                            && noAdjacentSpace (collapseWhiteSpace (String c' s'))
            end).
    rewrite E in *. rewrite Hh, Hc', IH. reflexivity.
  - rewrite (collapse_cons_other c s Hc).
    change (noAdjacentSpace (String c (collapseWhiteSpace s)))
      with (match collapseWhiteSpace s with
            | EmptyString => true
            | String x _ => negb (Js.isWhiteSpace c && Js.isWhiteSpace x)
                            && noAdjacentSpace (collapseWhiteSpace s)
            end).
    destruct (collapseWhiteSpace s) as [|x t]; [reflexivity|].
    now rewrite Hc, IH.
Qed.

Lemma allChars_trimStart (p : ascii -> bool) (s : string) :
  allChars p s = true -> allChars p (Js.trimStart s) = true.
Proof.
  induction s as [|c s IH]; [easy|]. simpl. intros H.
  apply andb_true_iff in H as [Hc Hs].
  destruct (Js.isWhiteSpace c); [now apply IH|]. simpl. now rewrite Hc, Hs.
Qed.

Lemma allChars_trimEnd (p : ascii -> bool) (s : string) :
  allChars p s = true -> allChars p (Js.trimEnd s) = true.
Proof.
  induction s as [|c s IH]; [easy|]. simpl. intros H.
  apply andb_true_iff in H as [Hc Hs]. specialize (IH Hs).
  destruct (Js.trimEnd s) as [|a t].
  - destruct (Js.isWhiteSpace c); [reflexivity|]. simpl. now rewrite Hc.
  - simpl in *. now rewrite Hc, IH.
Qed.

Lemma noAdjacent_tail (c : ascii) (s : string) :
  noAdjacentSpace (String c s) = true -> noAdjacentSpace s = true.
Proof.
  destruct s as [|c' s]; [reflexivity|].
  change (noAdjacentSpace (String c (String c' s)))
    with (negb (Js.isWhiteSpace c && Js.isWhiteSpace c')
          && noAdjacentSpace (String c' s)).
  intros H. now apply andb_true_iff in H as [_ H].
Qed.

Lemma noAdjacent_trimStart (s : string) :
  noAdjacentSpace s = true -> noAdjacentSpace (Js.trimStart s) = true.
Proof.
  induction s as [|c s IH]; [easy|]. intros H. simpl.
  destruct (Js.isWhiteSpace c); [|exact H]. apply IH. now apply noAdjacent_tail in H.
Qed.

(** [trimEnd] keeps the first character of what it keeps. *)
Lemma trimEnd_first (s : string) (a : ascii) (t : string) :
  Js.trimEnd s = String a t -> exists s', s = String a s'.
Proof.
  destruct s as [|c s]; [discriminate|]. simpl.
  destruct (Js.trimEnd s).
  - destruct (Js.isWhiteSpace c); [discriminate|]. intros [= <- _]. eauto.
  - intros [= <- _]. eauto.
Qed.

Lemma noAdjacent_trimEnd (s : string) :
  noAdjacentSpace s = true -> noAdjacentSpace (Js.trimEnd s) = true.
Proof.
  induction s as [|c s IH]; [easy|]. intros H.
  pose proof (IH (noAdjacent_tail c s H)) as IH'.
  simpl. destruct (Js.trimEnd s) as [|a t] eqn:E.
  - now destruct (Js.isWhiteSpace c).
  - destruct (trimEnd_first s a t E) as (s' & ->).
    change (noAdjacentSpace (String c (String a t)))
      with (negb (Js.isWhiteSpace c && Js.isWhiteSpace a)
            && noAdjacentSpace (String a t)).
    change (noAdjacentSpace (String c (String a s')))
      with (negb (Js.isWhiteSpace c && Js.isWhiteSpace a)
            && noAdjacentSpace (String a s')) in H.
    apply andb_true_iff in H as [H _]. now rewrite H, IH'.
Qed.

Lemma spaceOnly_not_LF (s : string) :
  allChars spaceOnly s = true -> allChars (fun c => negb (isLF c)) s = true.
Proof.
  induction s as [|c s IH]; [easy|]. simpl. intros H.
  apply andb_true_iff in H as [Hc Hs]. rewrite (IH Hs), andb_true_r.
  unfold spaceOnly, isLF, Js.isWhiteSpace in *.
  destruct (Js.code c =? 10) eqn:E; [|reflexivity].
  apply Nat.eqb_eq in E. exfalso.
  assert (c = ascii_of_nat 10) as -> by (unfold Js.code in E; now rewrite <- E, ascii_nat_embedding).
  discriminate Hc.
Qed.

(** Without a line feed the second replacement finds nothing. *)
Lemma collapseBlankLines_noLF (fuel : nat) :
  forall s, allChars (fun c => negb (isLF c)) s = true -> collapseBlankLines fuel s = s.
Proof.
  induction fuel as [|fuel IH]; intros s H; [reflexivity|].
  destruct s as [|c s]; [reflexivity|]. simpl in *.
  apply andb_true_iff in H as [Hc Hs]. apply negb_true_iff in Hc.
  rewrite Hc. now rewrite IH.
Qed.

Lemma cleanText_two_steps (s : string) : cleanText s = Js.trim (collapseWhiteSpace s).
Proof.
  unfold cleanText. destruct s as [|c s]; [reflexivity|]. cbn [Js.truthy negb].
  cbv zeta. rewrite collapseBlankLines_noLF; [reflexivity|].
  apply spaceOnly_not_LF, collapse_spaceOnly.
Qed.

Lemma cleanText_singleSpaced (s : string) : singleSpaced (cleanText s) = true.
Proof.
  unfold singleSpaced. rewrite cleanText_trimmed, String.eqb_refl, andb_true_r.
  rewrite cleanText_two_steps. unfold Js.trim. apply andb_true_iff. split.
  - apply allChars_trimEnd, allChars_trimStart, collapse_spaceOnly.
  - apply noAdjacent_trimEnd, noAdjacent_trimStart, collapse_noAdjacent.
Qed.

Lemma collapse_fixed (s : string) :
  allChars spaceOnly s = true -> noAdjacentSpace s = true -> collapseWhiteSpace s = s.
Proof.
  induction s as [|c s IH]; [easy|]. intros Ha Hn.
  pose proof (noAdjacent_tail c s Hn) as Hn'.
  simpl in Ha. apply andb_true_iff in Ha as [Hc Ha].
  destruct (Js.isWhiteSpace c) eqn:Hw.
  - assert (c = " "%char) as ->.
    { unfold spaceOnly in Hc. rewrite Hw in Hc. simpl in Hc.
      now apply Ascii.eqb_eq in Hc. }
    rewrite (collapse_cons_space _ s Hw). destruct s as [|c' s']; [reflexivity|].
    change (noAdjacentSpace (String " " (String c' s')))
      with (negb (Js.isWhiteSpace " " && Js.isWhiteSpace c')
            && noAdjacentSpace (String c' s')) in Hn.
    apply andb_true_iff in Hn as [Hn _]. rewrite Hw in Hn. simpl in Hn.
    apply negb_true_iff in Hn. rewrite Hn. now rewrite IH.
  - rewrite (collapse_cons_other c s Hw). now rewrite IH.
Qed.

End CleanTextFacts.

Module CleanText.
Import Dom ArticleParser Spec CleanTextFacts ExtractionFacts.

(** X1. [cleanText] returns normalised text: its only white space is the
    space character, never twice in a row and never at either end.  In
    particular the result holds no line feed, so the replacement of blank
    lines that follows the collapse of white space never changes
    anything. *)
Theorem cleanText_normalises (text : string) :
  singleSpaced (cleanText text) = true
  /\ allChars (fun c => negb (isLF c)) (cleanText text) = true
  /\ cleanText text = Js.trim (collapseWhiteSpace text).
Proof.
  split; [apply cleanText_singleSpaced|]. split; [|apply cleanText_two_steps].
  pose proof (cleanText_singleSpaced text) as H. unfold singleSpaced in H.
  apply andb_true_iff in H as [H _]. apply andb_true_iff in H as [H _].
  now apply spaceOnly_not_LF.
Qed.

(** X2. [cleanText] is idempotent, and the texts it leaves unchanged are
    exactly the normalised ones. *)
Theorem cleanText_idempotent (text : string) :
  cleanText (cleanText text) = cleanText text
  /\ (cleanText text = text <-> singleSpaced text = true).
Proof.
  assert (Hfix : forall t, singleSpaced t = true -> cleanText t = t).
  { intros t H. unfold singleSpaced in H.
    apply andb_true_iff in H as [H Ht]. apply andb_true_iff in H as [Ha Hn].
    rewrite cleanText_two_steps, (collapse_fixed t Ha Hn).
    now apply String.eqb_eq in Ht. }
  split; [apply Hfix, cleanText_singleSpaced|]. split.
  - intros H. rewrite <- H. apply cleanText_singleSpaced.
  - apply Hfix.
Qed.

End CleanText.

(** ** Author handles *)

Module HandleFacts.
Import Dom ArticleParser Spec ClassifierFacts ExtractionFacts.

Lemma lowerChar_idempotent (c : ascii) : Js.lowerChar (Js.lowerChar c) = Js.lowerChar c.
Proof. destruct c as [[] [] [] [] [] [] [] []]; reflexivity. Qed.

Lemma lowerChar_notSlash (c : ascii) : notSlash (Js.lowerChar c) = notSlash c.
Proof. destruct c as [[] [] [] [] [] [] [] []]; reflexivity. Qed.

Lemma toLowerCase_idempotent (s : string) :
  Js.toLowerCase (Js.toLowerCase s) = Js.toLowerCase s.
Proof.
  unfold Js.toLowerCase. induction s as [|c s IH]; [reflexivity|]. simpl.
  now rewrite lowerChar_idempotent, IH.
Qed.

Lemma allChars_toLowerCase (s : string) :
  allChars notSlash (Js.toLowerCase s) = allChars notSlash s.
Proof.
  unfold Js.toLowerCase. induction s as [|c s IH]; [reflexivity|]. simpl.
  now rewrite lowerChar_notSlash, IH.
Qed.

(** Containing no slash, as [includes] and character by character. *)
Lemma includes_slash (s : string) : Js.includes "/" s = negb (allChars notSlash s).
Proof.
  induction s as [|c s IH]; [reflexivity|].
  change (Js.includes "/" (String c s))
    with ((Ascii.eqb "/" c && true) || Js.includes "/" s).
  change (allChars notSlash (String c s))
    with (negb (Ascii.eqb c "/") && allChars notSlash s).
  rewrite IH, andb_true_r, (Ascii.eqb_sym "/" c).
  destruct (Ascii.eqb c "/"); reflexivity.
Qed.

Lemma span_app (p : ascii -> bool) (s : string) :
  forall a b, Js.span p s = (a, b) -> s = a +:+ b /\ allChars p a = true.
Proof.
  induction s as [|c s IH]; intros a b; simpl.
  - intros [= <- <-]. now split.
  - destruct (p c) eqn:Hc.
    + destruct (Js.span p s) as [a' b'] eqn:E. intros [= <- <-].
      destruct (IH a' b' eq_refl) as [-> Ha]. split; [reflexivity|].
      simpl. now rewrite Hc, Ha.
    + intros [= <- <-]. now split.
Qed.

Lemma span_stop (p : ascii -> bool) (a : string) :
  forall c rest, allChars p a = true -> p c = false ->
                 Js.span p (a +:+ String c rest) = (a, String c rest).
Proof.
  induction a as [|x a IH]; intros c rest Ha Hc.
  - change ("" +:+ String c rest) with (String c rest). simpl. now rewrite Hc.
  - rewrite append_cons. simpl in *. apply andb_true_iff in Ha as [Hx Ha].
    rewrite Hx. now rewrite (IH c rest Ha Hc).
Qed.

(** The first part of a split is what precedes the first separator. *)
Lemma split_head (s : string) :
  hd "" (Js.split slash s) = (Js.span notSlash s).1.
Proof.
  induction s as [|c s IH]; [reflexivity|]. simpl. unfold notSlash at 1.
  destruct (Ascii.eqb c slash); [reflexivity|]. simpl.
  destruct (Js.span notSlash s) as [a b]. simpl in IH.
  destruct (Js.split slash s) as [|x xs]; simpl in *; now subst.
Qed.

End HandleFacts.

Module Handles.
Import Dom ArticleParser Spec Samples ClassifierFacts ExtractionFacts HandleFacts.

(** X3. [getAuthorHandle] returns the first segment of the path in lower
    case: it answers [h] exactly when the path is a slash, a non-empty
    segment without slash whose lower case is [h], a slash, and anything.
    A handle is therefore never empty, holds no slash and is in lower
    case; a path that starts with two slashes or has a single segment
    gives [null]. *)
Theorem author_handle_is_first_segment (d : Document) (h : string) :
  (getAuthorHandle d = Some h
   <-> exists seg rest,
         pathname d = "/" +:+ seg +:+ "/" +:+ rest
         /\ seg <> "" /\ Js.includes "/" seg = false /\ h = Js.toLowerCase seg)
  /\ (getAuthorHandle d = Some h ->
      h <> "" /\ Js.includes "/" h = false /\ Js.toLowerCase h = h).
Proof.
  assert (Hiff : getAuthorHandle d = Some h
                 <-> exists seg rest,
                       pathname d = "/" +:+ seg +:+ "/" +:+ rest
                       /\ seg <> "" /\ Js.includes "/" seg = false
                       /\ h = Js.toLowerCase seg).
  { unfold getAuthorHandle. split.
    - destruct (pathname d) as [|c p]; [discriminate|].
      destruct (Ascii.eqb c slash) eqn:Hc; [|discriminate].
      apply Ascii.eqb_eq in Hc. subst c.
      destruct (Js.span _ p) as [seg after] eqn:E.
      apply (span_app notSlash) in E as [-> Hseg].
      destruct (Js.truthy seg) eqn:Ht; [|discriminate]. cbn [andb].
      destruct after as [|a rest]; [discriminate|].
      destruct (Js.startsWith "/" (String a rest)) eqn:Hs; [|discriminate].
      change (Js.startsWith "/" (String a rest)) with (Ascii.eqb "/" a && true) in Hs.
      rewrite andb_true_r in Hs. apply Ascii.eqb_eq in Hs. subst a.
      intros [= <-]. exists seg, rest. split; [reflexivity|].
      split; [now apply truthy_nonempty|]. split; [|reflexivity].
      now rewrite includes_slash, Hseg.
    - intros (seg & rest & -> & Hne & Hinc & ->).
      rewrite includes_slash in Hinc. apply negb_false_iff in Hinc.
      change ("/" +:+ seg +:+ "/" +:+ rest) with (String slash (seg +:+ String slash rest)).
      cbv beta iota. rewrite Ascii.eqb_refl.
      change (fun x : ascii => negb (Ascii.eqb x slash)) with notSlash.
      rewrite (span_stop notSlash seg slash rest Hinc eq_refl).
      apply truthy_nonempty in Hne. rewrite Hne. reflexivity. }
  split; [exact Hiff|].
  intros H. apply Hiff in H as (seg & rest & _ & Hne & Hinc & ->).
  split; [|split].
  - apply truthy_nonempty. unfold Js.toLowerCase. rewrite truthy_mapString.
    now apply truthy_nonempty.
  - rewrite includes_slash in *. now rewrite allChars_toLowerCase.
  - apply toLowerCase_idempotent.
Qed.

Lemma author_handle_is_first_segment_witness :
  getAuthorHandle (emptyPage "/Alice/status/123") = Some "alice"
  /\ "alice" <> "" /\ Js.includes "/" "alice" = false.
Proof.
  assert (H : getAuthorHandle (emptyPage "/Alice/status/123") = Some "alice").
  { apply (proj1 (author_handle_is_first_segment (emptyPage "/Alice/status/123") "alice")).
    exists "Alice", "status/123".
    split; [reflexivity|]. split; [discriminate|]. split; reflexivity. }
  split; [exact H|].
  destruct (proj2 (author_handle_is_first_segment _ _) H) as (H1 & H2 & _).
  now split.
Defined.

(** X4. The author [extractAuthorFromElement] reads from the link of an
    item holds no slash and is in lower case, like the handle derived
    from the path. *)
Theorem element_author_shape (element : Element) (a : string) :
  extractAuthorFromElement element = Some a ->
  Js.includes "/" a = false /\ Js.toLowerCase a = a.
Proof.
  unfold extractAuthorFromElement.
  destruct (querySelector (testid "User-Name") element) as [u|]; [|discriminate].
  destruct (querySelector _ u) as [handle|]; [|discriminate].
  destruct (getAttribute "href" handle) as [href|]; [|discriminate].
  destruct (Js.truthy href); [|discriminate]. intros [= <-].
  split; [|apply toLowerCase_idempotent].
  rewrite includes_slash, allChars_toLowerCase, split_head.
  destruct (Js.span notSlash (stripLeadingSlash href)) as [x y] eqn:E.
  apply span_app in E as [_ E]. simpl. now rewrite E.
Qed.

Lemma element_author_shape_witness :
  extractAuthorFromElement linkedItem = Some "alice"
  /\ Js.includes "/" "alice" = false /\ Js.toLowerCase "alice" = "alice".
Proof.
  assert (H : extractAuthorFromElement linkedItem = Some "alice")
    by (vm_compute; reflexivity).
  split; [exact H|]. exact (element_author_shape linkedItem "alice" H).
Defined.

End Handles.

(** ** The content object and the layers of extraction *)

Module ContentFacts.
Import Dom ArticleParser Spec ClassifierFacts ExtractionFacts StrategyFacts.

Lemma extractThreadContent_body (d : Document) (content : Content) :
  body content = Js.join blankLine (paragraphs content) ->
  body (extractThreadContent d content)
  = Js.join blankLine (paragraphs (extractThreadContent d content)).
Proof.
  unfold extractThreadContent. intros H.
  destruct (documentQuerySelector (testid "primaryColumn") d); [|exact H].
  now destruct (fold_left threadStep _ _).
Qed.

Lemma extractStatusContent_body (d : Document) (content : Content) :
  body content = Js.join blankLine (paragraphs content) ->
  body (extractStatusContent d content)
  = Js.join blankLine (paragraphs (extractStatusContent d content)).
Proof.
  unfold extractStatusContent. intros H.
  destruct (documentQuerySelector (testid "twitterArticleReadView") d) as [rv|].
  - destruct (0 <? length (readViewParagraphs rv)); [reflexivity|].
    now apply extractThreadContent_body.
  - now apply extractThreadContent_body.
Qed.



(** [closest] finds a container whenever the element or one of its
    ancestors is one. *)
Lemma closestFrom_uiContainers (anc : list Node) :
  forall n m, m ∈ n :: anc -> isUIContainerNode m = true ->
              isSome (closestFrom uiContainers n anc) = true.
Proof.
  assert (Hm : forall n a, matchesSelector uiContainers (mkElement n a)
                           = isUIContainerNode n).
  { intros n a. unfold matchesSelector, uiContainers, isUIContainerNode. simpl.
    reflexivity. }
  induction anc as [|p anc IH]; intros n m Hin Hc.
  - change (closestFrom uiContainers n [])
      with (if matchesSelector uiContainers (mkElement n [])
            then Some (mkElement n []) else None).
    rewrite Hm. apply list_elem_of_singleton in Hin. subst m. now rewrite Hc.
  - change (closestFrom uiContainers n (p :: anc))
      with (if matchesSelector uiContainers (mkElement n (p :: anc))
            then Some (mkElement n (p :: anc)) else closestFrom uiContainers p anc).
    rewrite Hm. destruct (isUIContainerNode n) eqn:Hn; [reflexivity|].
    apply elem_of_cons in Hin as [->|Hin]; [congruence|].
    now apply (IH p m).
Qed.

End ContentFacts.

Module Content.
Import Dom ArticleParser Spec Samples ClassifierFacts ExtractionFacts StrategyFacts
  ContentFacts.

(** X5. The quick URL check [isArticleUrl] is implied by
    [isArticlePage] except on the [/i/articles/] paths, which the
    classifier accepts and the quick check does not know. *)
Theorem article_page_passes_url_check (d : Document) (console : Console) :
  (isArticlePage d console).1 = true ->
  isArticleUrl (pathname d) = true \/ Js.includes "/i/articles/" (pathname d) = true.
Proof.
  unfold isArticlePage, isArticleUrl, isExplicitArticleUrl, isStatusUrl.
  destruct (Js.includes "/article/" (pathname d)); [intros _; left; apply orb_true_r|].
  destruct (Js.includes "/i/articles/" (pathname d)); [intros _; now right|].
  cbn [orb]. destruct (Re.search statusPattern (pathname d)); [intros _; now left|].
  discriminate.
Qed.

Lemma article_page_passes_url_check_witness :
  ((isArticlePage (emptyPage "/i/articles/42") []).1 = true
   /\ isArticleUrl "/i/articles/42" = false
   /\ Js.includes "/i/articles/" "/i/articles/42" = true)
  /\ ((isArticlePage (twoItems 200 200) []).1 = true
      /\ isArticleUrl (pathname (twoItems 200 200)) = true).
Proof.
  split.
  - assert (H : (isArticlePage (emptyPage "/i/articles/42") []).1 = true) by reflexivity.
    split; [exact H|]. split; [reflexivity|].
    destruct (article_page_passes_url_check _ _ H) as [H'|H'];
      [vm_compute in H'; discriminate|exact H'].
  - assert (H : (isArticlePage (twoItems 200 200) []).1 = true)
      by (vm_compute; reflexivity).
    split; [exact H|].
    destruct (article_page_passes_url_check _ _ H) as [H'|H'];
      [exact H'|vm_compute in H'; discriminate].
Defined.

(** X6. In every content object the engine returns, [body] is the
    paragraphs joined by a blank line, whichever strategy filled it and
    also when nothing was found. *)
Theorem body_is_joined_paragraphs (d : Document) :
  body (extractContent d) = Js.join blankLine (paragraphs (extractContent d))
  /\ body (getStructuredContent d)
     = Js.join blankLine (paragraphs (getStructuredContent d))
  /\ body (extractFallbackContent d)
     = Js.join blankLine (paragraphs (extractFallbackContent d)).
Proof.
  assert (H : body (extractContent d) = Js.join blankLine (paragraphs (extractContent d))).
  { unfold extractContent, extractArticleContent.
    destruct (Js.includes "/article/" (pathname d));
      [|now apply extractStatusContent_body].
    destruct (orElse _ _); [|now apply extractStatusContent_body].
    now destruct (fold_left articleStep _ _). }
  split; [exact H|]. split; [exact H|].
  unfold extractFallbackContent. now destruct (orElse _ _).
Qed.


(** X8. Layering.  Off the [/article/] paths, when the read view yields a
    paragraph, [getReadableText] reads the read view only: neither the
    items of the primary column nor the aggressive fallback contribute.
    When there is no read view and the primary column has a candidate
    text, it reads the thread strategy only. *)
Theorem first_layer_wins (d : Document) :
  Js.includes "/article/" (pathname d) = false ->
  (forall rv, documentQuerySelector (testid "twitterArticleReadView") d = Some rv ->
              readViewParagraphs rv <> [] ->
              getReadableText d
              = Some (Js.join blankLine
                        (authorLine (extractAuthor d) ++ readViewParagraphs rv)))
  /\ (forall pc, documentQuerySelector (testid "twitterArticleReadView") d = None ->
                 documentQuerySelector (testid "primaryColumn") d = Some pc ->
                 threadCandidates pc <> [] ->
                 getReadableText d
                 = Some (Js.join blankLine
                           (authorLine (extractAuthor d)
                            ++ keepFirst [] (threadCandidates pc)))).
Proof.
  intros Hpath.
  assert (Hread : forall ps, paragraphs (extractContent d) = ps -> ps <> [] ->
            getReadableText d
            = Some (Js.join blankLine (authorLine (extractAuthor d) ++ ps))).
  { intros ps Hps Hne. unfold getReadableText. rewrite Hps.
    destruct ps as [|p ps]; [congruence|]. cbn [length Nat.eqb].
    rewrite (readableParts_author d) by apply extractContent_author.
    now rewrite Hps. }
  assert (Hc : extractContent d = extractStatusContent d emptyContent).
  { unfold extractContent. now rewrite Hpath. }
  split.
  - intros rv Hrv Hne. apply Hread; [|exact Hne].
    rewrite Hc. unfold extractStatusContent. rewrite Hrv.
    destruct (readViewParagraphs rv); [congruence|reflexivity].
  - intros pc Hrv Hpc Hne.
    assert (Hk : keepFirst [] (threadCandidates pc) <> []).
    { destruct (threadCandidates pc) as [|c cs]; [congruence|]. discriminate. }
    apply Hread; [|exact Hk].
    rewrite Hc. unfold extractStatusContent. rewrite Hrv.
    now rewrite extractThreadContent_paragraphs, Hpc.
Qed.

Lemma first_layer_wins_witness :
  Js.includes "/article/" (pathname readViewPage) = false
  /\ getReadableText readViewPage
     = Some (Js.join blankLine ["Once upon a time"; "The end"])
  /\ getReadableText scenario
     = Some (Js.join blankLine [helloText; otherAuthorText; secondText]).
Proof.
  split; [reflexivity|].
  split.
  - assert (Hex : exists rv,
              documentQuerySelector (testid "twitterArticleReadView") readViewPage = Some rv
              /\ readViewParagraphs rv = ["Once upon a time"; "The end"]).
    { eexists. split; [vm_compute; reflexivity|]. vm_compute. reflexivity. }
    destruct Hex as (rv & Hrv & Hps).
    destruct (first_layer_wins readViewPage eq_refl) as [H _].
    rewrite (H rv Hrv); rewrite Hps; [vm_compute; reflexivity|discriminate].
  - destruct (first_layer_wins scenario eq_refl) as [_ H].
    rewrite (H scenarioColumn); [vm_compute; reflexivity| | |].
    + vm_compute. reflexivity.
    + vm_compute. reflexivity.
    + vm_compute. discriminate.
Defined.

(** X9. Whatever lies in a navigation bar, a footer or a button (or in
    an element with the role of a button or of navigation) is a UI
    element for [isUIElement], whatever its text is. *)
Theorem inside_container_is_ui (element : Element) (text : string) (container : Node) :
  container ∈ node element :: ancestors element ->
  isUIContainerNode container = true ->
  isUIElement element text = true.
Proof.
  intros Hin Hc. unfold isUIElement, closest.
  now rewrite (closestFrom_uiContainers _ _ _ Hin Hc).
Qed.

Lemma inside_container_is_ui_witness :
  isUIElement navText
    "A sentence that is long enough to pass every test on the text itself." = true.
Proof.
  apply (inside_container_is_ui navText _ (el "nav" [] "Home"
           [el "div" [("data-testid", "tweetText")] "Home" [TextNode "Home"]])).
  - apply list_elem_of_further, list_elem_of_here.
  - reflexivity.
Defined.

End Content.

(** ** Paragraph elements *)

Module ElementFacts.
Import Dom ArticleParser Spec ClassifierFacts ExtractionFacts StrategyFacts.

Lemma threadElementStep_fold (l : list Element) :
  forall acc, fold_left threadElementStep l acc
              = acc ++ List.filter (fun el => negb (quoted el)) l.
Proof.
  induction l as [|el l IH]; intros acc; simpl; [now rewrite app_nil_r|].
  rewrite IH. unfold threadElementStep, quoted.
  destruct (isSome (closest (testid "quoteTweet") el)); simpl; [reflexivity|].
  now rewrite <- app_assoc.
Qed.

Lemma List_filter_sublist {A : Type} (p : A -> bool) (l : list A) :
  List.filter p l `sublist_of` l.
Proof.
  induction l as [|x l IH]; simpl; [constructor|].
  destruct (p x); [now apply sublist_skip|now apply sublist_cons].
Qed.

(** The elements kept for the read view cover the paragraphs read from
    it: the extraction loop applies one more exclusion, and otherwise
    the same tests. *)
Lemma longform_fold_sublist (l : list Element) :
  forall ps els,
    ps `sublist_of` map elementText els ->
    fold_left longformStep l ps
    `sublist_of` map elementText (fold_left paragraphElementStep l els).
Proof.
  induction l as [|el l IH]; intros ps els H; simpl; [exact H|].
  apply IH. unfold longformStep, paragraphElementStep.
  destruct (isSome (closest (testid "card.wrapper") el)); [exact H|].
  destruct (isSome (closest (testid "tweetPhoto") el)); [exact H|].
  assert (Hkeep : ps `sublist_of`
            map elementText
              (if String.eqb (tagName el) "IMG" || String.eqb (tagName el) "VIDEO"
               then els
               else if Js.truthy (Js.trim (innerText el))
                       && (0 <? String.length (Js.trim (innerText el)))
                       && negb (isButtonText (Js.trim (innerText el)))
                    then els ++ [el] else els)).
  { destruct (_ || _); [exact H|]. destruct (_ && _); [|exact H].
    rewrite map_app. now apply sublist_inserts_r. }
  destruct (isSome (closest _ el)); [exact Hkeep|].
  destruct (_ || _); [exact H|]. destruct (_ && _); [|exact H].
  rewrite map_app. apply sublist_app; [exact H|reflexivity].
Qed.

End ElementFacts.

Module Elements.
Import Dom ArticleParser Spec Samples ClassifierFacts ExtractionFacts StrategyFacts
  ElementFacts.

(** X10. When there is no read view, or when the longform blocks of the
    read view yield a paragraph, the paragraphs of the status extraction
    are, in order, among the texts of the elements that
    [getParagraphElements] returns.  The two lists need not have the same
    length: extraction drops repeated and empty texts and, in the read
    view, blocks inside a link to a status. *)
Theorem paragraph_elements_cover_paragraphs (d : Document) :
  documentQuerySelector (testid "twitterArticleReadView") d = None
  \/ longformParagraphs d <> [] ->
  paragraphs (extractStatusContent d emptyContent)
  `sublist_of` map elementText (getParagraphElements d).
Proof.
  unfold longformParagraphs, getParagraphElements, extractStatusContent.
  destruct (documentQuerySelector (testid "twitterArticleReadView") d) as [rv|].
  - intros [H|H]; [discriminate|].
    pose proof (longform_fold_sublist (querySelectorAll longformSelector rv) [] []
                  (sublist_nil_l _)) as Hsub.
    assert (Hrv : readViewParagraphs rv
                  = fold_left longformStep (querySelectorAll longformSelector rv) []).
    { unfold readViewParagraphs. cbv zeta.
      set (els := querySelectorAll longformSelector rv) in *.
      destruct els as [|x xs]; [exfalso; now apply H|].
      cbn [length Nat.ltb Nat.leb].
      destruct (fold_left longformStep (x :: xs) []); [congruence|reflexivity]. }
    cbn [paragraphs]. rewrite Hrv.
    destruct (fold_left longformStep _ []) as [|p ps] eqn:Ep; [congruence|].
    destruct (fold_left paragraphElementStep _ []) as [|e es] eqn:Ee.
    + apply sublist_nil_r in Hsub. discriminate.
    + exact Hsub.
  - intros _. rewrite extractThreadContent_paragraphs. unfold threadElements.
    destruct (documentQuerySelector (testid "primaryColumn") d) as [pc|];
      [|constructor].
    rewrite threadElementStep_fold. cbn [app].
    etransitivity; [apply keepFirst_sublist|].
    unfold threadCandidates. apply List_filter_sublist.
Qed.

Lemma paragraph_elements_cover_paragraphs_witness :
  (longformParagraphs readViewPage <> []
   /\ paragraphs (extractStatusContent readViewPage emptyContent)
      `sublist_of` map elementText (getParagraphElements readViewPage))
  /\ (documentQuerySelector (testid "twitterArticleReadView") repeatedTexts = None
      /\ paragraphs (extractStatusContent repeatedTexts emptyContent)
         `sublist_of` map elementText (getParagraphElements repeatedTexts)
      /\ length (paragraphs (extractStatusContent repeatedTexts emptyContent)) = 1
      /\ length (getParagraphElements repeatedTexts) = 2).
Proof.
  split.
  - assert (H : longformParagraphs readViewPage <> []) by (vm_compute; discriminate).
    split; [exact H|].
    apply (paragraph_elements_cover_paragraphs readViewPage). now right.
  - split; [reflexivity|]. split; [|split; vm_compute; reflexivity].
    apply (paragraph_elements_cover_paragraphs repeatedTexts). now left.
Defined.

End Elements.

(** ** Chunks *)

Module ChunkFacts.
Import ArticleParser Spec TTS ClassifierFacts ExtractionFacts.

Lemma length_append (a b : string) :
  String.length (a +:+ b) = String.length a + String.length b.
Proof.
  induction a as [|c a IH]; [reflexivity|]. rewrite append_cons. simpl. now rewrite IH.
Qed.

Lemma length_trimStart (s : string) : String.length (Js.trimStart s) <= String.length s.
Proof.
  induction s as [|c s IH]; simpl; [lia|]. destruct (Js.isWhiteSpace c); simpl; lia.
Qed.

Lemma length_trimEnd (s : string) : String.length (Js.trimEnd s) <= String.length s.
Proof.
  induction s as [|c s IH]; simpl; [lia|].
  destruct (Js.trimEnd s); [destruct (Js.isWhiteSpace c)|]; simpl in *; lia.
Qed.

(** Trimming never makes a text longer. *)
Lemma length_trim (s : string) : String.length (Js.trim s) <= String.length s.
Proof.
  unfold Js.trim. etransitivity; [apply length_trimEnd|apply length_trimStart].
Qed.

Lemma pushTrimmed_shape (chunks : list string) (cur : string) :
  pushTrimmed chunks cur = chunks
  \/ (trimmedText (Js.trim cur) /\ pushTrimmed chunks cur = chunks ++ [Js.trim cur]).
Proof.
  unfold pushTrimmed. destruct (Js.truthy (Js.trim cur)) eqn:H; [right|now left].
  split; [|reflexivity]. split; [now apply truthy_nonempty|apply trim_idempotent].
Qed.

(** A loop that only appends elements with property [Q] keeps [Q]. *)
Lemma append_loop_Forall {A : Type} (Q : string -> Prop)
  (step : list string -> A -> list string) (l : list A) :
  (forall acc x, x ∈ l -> exists more, Forall Q more /\ step acc x = acc ++ more) ->
  forall acc, Forall Q acc -> Forall Q (fold_left step l acc).
Proof.
  induction l as [|x l IH]; intros Hstep acc Hacc; simpl; [exact Hacc|].
  apply IH.
  - intros acc' y Hy. apply Hstep. now apply list_elem_of_further.
  - destruct (Hstep acc x (list_elem_of_here _ _)) as (more & Hm & ->).
    now apply Forall_app.
Qed.

(** What packing the sentences of one paragraph appends, for a property
    [Q] of the chunks that holds of the trimmed form of every text that
    is a sentence or not longer than a chunk may be. *)
Lemma packSentence_fold (Q : string -> Prop) (sentences : list string) :
  (forall t, t <> "" -> (String.length t <= MAX_CHUNK_LENGTH \/ t ∈ sentences) ->
             Js.trim t <> "" -> Q (Js.trim t)) ->
  forall l chunks cur,
    (forall s, s ∈ l -> s ∈ sentences) ->
    cur = "" \/ String.length cur <= MAX_CHUNK_LENGTH \/ cur ∈ sentences ->
    exists more,
      Forall Q more
      /\ pushTrimmed (fold_left packSentence l (chunks, cur)).1
                     (fold_left packSentence l (chunks, cur)).2
         = chunks ++ more.
Proof.
  intros HQ l. induction l as [|s l IH]; intros chunks cur Hl Hcur.
  - simpl. destruct (pushTrimmed_shape chunks cur) as [->|[[Hne _] ->]].
    + exists []. now rewrite app_nil_r.
    + exists [Js.trim cur]. split; [|reflexivity]. constructor; [|constructor].
      assert (Hc : cur <> "") by (intros ->; now apply Hne).
      apply HQ; [exact Hc| |exact Hne].
      destruct Hcur as [->|Hcur]; [now elim Hc|exact Hcur].
  - cbn [fold_left]. unfold packSentence at 2 4.
    assert (Hs : s ∈ sentences) by (apply Hl, list_elem_of_here).
    assert (Hl' : forall x, x ∈ l -> x ∈ sentences)
      by (intros x Hx; apply Hl; now apply list_elem_of_further).
    destruct (MAX_CHUNK_LENGTH <? String.length (cur +:+ s)) eqn:Hlen.
    + destruct (IH (pushTrimmed chunks cur) s Hl' (or_intror (or_intror Hs)))
        as (more & Hmore & ->).
      destruct (pushTrimmed_shape chunks cur) as [->|[[Hne _] ->]].
      * now exists more.
      * exists (Js.trim cur :: more). split; [|now rewrite <- app_assoc].
        constructor; [|exact Hmore].
        assert (Hc : cur <> "") by (intros ->; now apply Hne).
        apply HQ; [exact Hc| |exact Hne].
        destruct Hcur as [->|Hcur]; [now elim Hc|exact Hcur].
    + apply Nat.ltb_ge in Hlen. apply IH; [exact Hl'|]. right. now left.
Qed.

Lemma chunkParagraph_shape (Q : string -> Prop) (para : string) :
  (forall t, t <> "" ->
             (String.length t <= MAX_CHUNK_LENGTH \/ t ∈ sentencesOf para) ->
             Js.trim t <> "" -> Q (Js.trim t)) ->
  forall chunks, exists more,
    Forall Q more /\ chunkParagraph chunks para = chunks ++ more.
Proof.
  intros HQ chunks. unfold chunkParagraph.
  destruct (String.length (Js.trim para) =? 0) eqn:H0.
  - exists []. now rewrite app_nil_r.
  - apply Nat.eqb_neq in H0.
    assert (Hne : Js.trim para <> "") by (intros E; rewrite E in H0; now apply H0).
    destruct (String.length para <=? MAX_CHUNK_LENGTH) eqn:Hlen.
    + apply Nat.leb_le in Hlen. exists [Js.trim para]. split; [|reflexivity].
      constructor; [|constructor]. apply HQ; [|now left|exact Hne].
      intros ->. now apply Hne.
    + cbv zeta.
      destruct (packSentence_fold Q (sentencesOf para) HQ (sentencesOf para) chunks ""
                  (fun s H => H) (or_introl eq_refl)) as (more & Hmore & Heq).
      destruct (fold_left packSentence (sentencesOf para) (chunks, "")) as [cs cur].
      now exists more.
Qed.

(** *** Splitting at blank lines *)

Lemma splitParagraphs_after_separator (s : string) :
  Js.startsWith LF s = false ->
  splitParagraphs true s = splitParagraphs false s.
Proof.
  destruct s as [|c s]; [reflexivity|]. intros H.
  change (Js.startsWith LF (String c s)) with (Ascii.eqb (ascii_of_nat 10) c && true) in H.
  rewrite andb_true_r in H.
  assert (Hc : isLF c = false).
  { unfold isLF, Js.code. destruct (nat_of_ascii c =? 10) eqn:E; [|reflexivity].
    apply Nat.eqb_eq in E. rewrite <- E, ascii_nat_embedding, Ascii.eqb_refl in H.
    discriminate. }
  simpl. now rewrite Hc.
Qed.

Lemma isLF_spec (c : ascii) : isLF c = Ascii.eqb c (ascii_of_nat 10).
Proof.
  unfold isLF, Js.code. destruct (Ascii.eqb c (ascii_of_nat 10)) eqn:E.
  - apply Ascii.eqb_eq in E. now subst.
  - apply Nat.eqb_neq. intros H. rewrite <- H, ascii_nat_embedding, Ascii.eqb_refl in E.
    discriminate.
Qed.

Lemma isLF_whiteSpace (c : ascii) : isLF c = true -> Js.isWhiteSpace c = true.
Proof.
  rewrite isLF_spec. intros H. apply Ascii.eqb_eq in H. now subst.
Qed.

Lemma includes_blankLine_cons (c c' : ascii) (s : string) :
  Js.includes blankLine (String c (String c' s))
  = (isLF c && isLF c') || Js.includes blankLine (String c' s).
Proof.
  change (Js.includes blankLine (String c (String c' s)))
    with ((Ascii.eqb (ascii_of_nat 10) c && (Ascii.eqb (ascii_of_nat 10) c' && true))
          || Js.includes blankLine (String c' s)).
  now rewrite andb_true_r, !isLF_spec, (Ascii.eqb_sym c), (Ascii.eqb_sym c').
Qed.

Lemma includes_blankLine_tail (c : ascii) (s : string) :
  Js.includes blankLine (String c s) = false -> Js.includes blankLine s = false.
Proof.
  destruct s as [|c' s]; [reflexivity|]. rewrite includes_blankLine_cons.
  intros H. now apply orb_false_iff in H as [_ H].
Qed.

Lemma splitParagraphs_two (c c' : ascii) (s : string) :
  splitParagraphs false (String c (String c' s))
  = if isLF c && isLF c' then EmptyString :: splitParagraphs true (String c' s)
    else consHead c (splitParagraphs false (String c' s)).
Proof. simpl. destruct (isLF c), (isLF c'); reflexivity. Qed.

Lemma splitParagraphs_one (c : ascii) :
  splitParagraphs false (String c EmptyString) = [String c EmptyString].
Proof. simpl. now destruct (isLF c). Qed.

(** A piece without a blank line that does not end in white space,
    followed by a blank line and by text that does not start with a line
    feed, is split off as it is. *)
Lemma splitParagraphs_piece (p : string) :
  forall rest,
    p <> "" -> Js.includes blankLine p = false -> endsWithSpace p = false ->
    Js.startsWith LF rest = false ->
    splitParagraphs false (p +:+ blankLine +:+ rest) = p :: splitParagraphs false rest.
Proof.
  induction p as [|c p IH]; intros rest Hne Hinc Hend Hrest; [congruence|].
  rewrite append_cons.
  destruct p as [|c' p'].
  - (* the last character of the piece *)
    change ("" +:+ blankLine +:+ rest)
      with (String (ascii_of_nat 10) (String (ascii_of_nat 10) rest)).
    simpl in Hend.
    assert (Hc : isLF c = false).
    { destruct (isLF c) eqn:E; [|reflexivity]. apply isLF_whiteSpace in E. congruence. }
    rewrite splitParagraphs_two, Hc. cbn [andb].
    rewrite splitParagraphs_two. change (isLF (ascii_of_nat 10)) with true. cbn [andb].
    change (splitParagraphs true (String (ascii_of_nat 10) rest))
      with (splitParagraphs true rest).
    rewrite (splitParagraphs_after_separator rest Hrest). reflexivity.
  - assert (IH' : splitParagraphs false (String c' p' +:+ blankLine +:+ rest)
                  = String c' p' :: splitParagraphs false rest).
    { apply IH; [discriminate| |exact Hend|exact Hrest].
      now apply includes_blankLine_tail in Hinc. }
    rewrite includes_blankLine_cons in Hinc. apply orb_false_iff in Hinc as [Hcc _].
    rewrite append_cons in *.
    rewrite splitParagraphs_two, Hcc, IH'. reflexivity.
Qed.

(** A text without a blank line is one piece. *)
Lemma splitParagraphs_single (p : string) :
  Js.includes blankLine p = false -> splitParagraphs false p = [p].
Proof.
  induction p as [|c p IH]; intros Hinc; [reflexivity|].
  pose proof (IH (includes_blankLine_tail c p Hinc)) as IH'.
  destruct p as [|c' p'].
  - apply splitParagraphs_one.
  - rewrite includes_blankLine_cons in Hinc. apply orb_false_iff in Hinc as [Hcc _].
    rewrite splitParagraphs_two, Hcc, IH'. reflexivity.
Qed.

Lemma trimEnd_fixed_end (s : string) : Js.trimEnd s = s -> endsWithSpace s = false.
Proof.
  induction s as [|c s IH]; [reflexivity|]. simpl.
  destruct (Js.trimEnd s) as [|a t] eqn:E.
  - destruct (Js.isWhiteSpace c) eqn:Hc; [discriminate|]. intros [= <-].
    first [exact Hc | reflexivity].
  - intros [= H]. rewrite <- H. rewrite <- H in IH. now apply IH.
Qed.

Lemma trimmed_edges (p : string) :
  p <> "" -> Js.trim p = p ->
  endsWithSpace p = false /\ Js.startsWith LF p = false.
Proof.
  intros Hne Htrim.
  assert (Hs : Js.trimStart p = p).
  { pose proof (trimStart_head p) as Hh.
    pose proof (trimEnd_head _ Hh) as Hh'. fold (Js.trim p) in Hh'.
    rewrite Htrim in Hh'. now apply trimStart_fixed. }
  split.
  - apply trimEnd_fixed_end. unfold Js.trim in Htrim. now rewrite Hs in Htrim.
  - destruct p as [|c p]; [congruence|].
    change (Js.startsWith LF (String c p)) with (Ascii.eqb (ascii_of_nat 10) c && true).
    rewrite andb_true_r. destruct (Ascii.eqb (ascii_of_nat 10) c) eqn:E; [|reflexivity].
    apply Ascii.eqb_eq in E. subst c.
    change (Js.trimStart (String (ascii_of_nat 10) p)) with (Js.trimStart p) in Hs.
    apply (f_equal String.length) in Hs. pose proof (length_trimStart p). simpl in Hs. lia.
Qed.

Lemma startsWith_LF_append (q x : string) :
  q <> "" -> Js.startsWith LF (q +:+ x) = Js.startsWith LF q.
Proof. destruct q as [|c q]; [congruence|]. intros _. now rewrite append_cons. Qed.

Lemma join_startsWith_LF (q : string) (rest : list string) :
  q <> "" -> Js.startsWith LF q = false ->
  Js.startsWith LF (Js.join blankLine (q :: rest)) = false.
Proof.
  intros Hne Hq. destruct rest as [|r rest]; [exact Hq|].
  change (Js.join blankLine (q :: r :: rest))
    with (q +:+ blankLine +:+ Js.join blankLine (r :: rest)).
  now rewrite startsWith_LF_append.
Qed.

(** Joining with blank lines and splitting at blank lines are inverse on
    parts without blank lines that are trimmed and not empty. *)
Lemma splitParagraphs_join (parts : list string) :
  parts <> [] -> Forall chunkSized parts ->
  splitParagraphs false (Js.join blankLine parts) = parts.
Proof.
  induction parts as [|p parts IH]; intros Hne Hall; [congruence|].
  apply Forall_cons in Hall as [(Hp & Htrim & Hinc & _) Hall].
  destruct parts as [|q rest].
  - now apply splitParagraphs_single.
  - change (Js.join blankLine (p :: q :: rest))
      with (p +:+ blankLine +:+ Js.join blankLine (q :: rest)).
    destruct (trimmed_edges p Hp Htrim) as [Hend _].
    pose proof Hall as Hall'. apply Forall_cons in Hall' as [(Hq & Hqtrim & _) _].
    destruct (trimmed_edges q Hq Hqtrim) as [_ Hstart].
    rewrite splitParagraphs_piece;
      [|exact Hp|exact Hinc|exact Hend|now apply join_startsWith_LF].
    now rewrite IH.
Qed.

Lemma chunkParagraph_sized (parts : list string) :
  forall chunks, Forall chunkSized parts ->
                 fold_left chunkParagraph parts chunks = chunks ++ parts.
Proof.
  induction parts as [|p parts IH]; intros chunks Hall; simpl; [now rewrite app_nil_r|].
  apply Forall_cons in Hall as [(Hp & Htrim & _ & Hlen) Hall].
  rewrite IH by exact Hall. unfold chunkParagraph. rewrite Htrim.
  destruct p as [|c p]; [congruence|]. cbn [String.length Nat.eqb].
  apply Nat.leb_le in Hlen. cbn [String.length] in Hlen. rewrite Hlen.
  now rewrite <- app_assoc.
Qed.

(** *** Sentences *)

Lemma concat_cons (x : string) (l : list string) :
  String.concat "" (x :: l) = x +:+ String.concat "" l.
Proof.
  destruct l as [|y l]; simpl; [now rewrite append_empty_r|reflexivity].
Qed.

Lemma allChars_app (p : ascii -> bool) (a b : string) :
  allChars p (a +:+ b) = allChars p a && allChars p b.
Proof.
  induction a as [|c a IH]; [reflexivity|]. rewrite append_cons. simpl.
  now rewrite IH, andb_assoc.
Qed.

(** Inside a match the scan loses nothing but a run of other characters
    at the very end. *)
Lemma matchSentences_inside (s : string) :
  forall st matched,
    (st = InBody matched /\ allChars otherChar matched = true) \/ st = InEnd matched ->
    exists tail,
      allChars otherChar tail = true
      /\ matched +:+ s = String.concat "" (matchSentences st s) +:+ tail.
Proof.
  induction s as [|c s IH]; intros st matched Hst.
  - destruct Hst as [[-> Hm]| ->]; simpl.
    + exists matched. split; [exact Hm|]. now rewrite append_empty_r.
    + exists "". split; [reflexivity|]. now rewrite !append_empty_r.
  - assert (Hshift : forall t, (matched +:+ String c "") +:+ t = matched +:+ String c t).
    { intros t. now rewrite append_assoc. }
    cbn [matchSentences]. destruct (isTerminator c) eqn:Hc.
    + assert (Hnext : exists tail, allChars otherChar tail = true
                /\ (matched +:+ String c "") +:+ s
                   = String.concat "" (matchSentences (InEnd (matched +:+ String c "")) s)
                     +:+ tail) by (apply (IH (InEnd _)); now right).
      destruct Hnext as (tail & Htail & Heq). rewrite Hshift in Heq.
      exists tail. split; [exact Htail|].
      destruct Hst as [[-> _]| ->]; exact Heq.
    + destruct Hst as [[-> Hm]| ->].
      * destruct (IH (InBody (matched +:+ String c "")) (matched +:+ String c ""))
          as (tail & Htail & Heq).
        { left. split; [reflexivity|]. rewrite allChars_app, Hm. simpl.
          unfold otherChar. now rewrite Hc. }
        rewrite Hshift in Heq. now exists tail.
      * destruct (IH (InBody (String c "")) (String c "")) as (tail & Htail & Heq).
        { left. split; [reflexivity|]. simpl. unfold otherChar. now rewrite Hc. }
        exists tail. split; [exact Htail|].
        rewrite concat_cons, append_assoc. f_equal. exact Heq.
Qed.

(** Joined parts come back as the chunks. *)
Lemma splitIntoChunks_join (parts : list string) :
  Forall chunkSized parts ->
  splitIntoChunks (Js.join blankLine parts) = parts.
Proof.
  intros Hall. unfold splitIntoChunks. destruct parts as [|p parts]; [reflexivity|].
  rewrite splitParagraphs_join by (try discriminate; exact Hall).
  now rewrite chunkParagraph_sized.
Qed.

(** Every chunk is trimmed and not empty. *)
Lemma splitIntoChunks_trimmed (text : string) :
  Forall (fun chunk => chunk <> "" /\ Js.trim chunk = chunk) (splitIntoChunks text).
Proof.
  unfold splitIntoChunks. apply append_loop_Forall; [|constructor].
  intros acc para _. apply chunkParagraph_shape.
  intros t _ _ Hne. split; [exact Hne|apply trim_idempotent].
Qed.

(** A check that computes. *)
Lemma chunkSized_check (p : string) :
  negb (String.eqb p "") && String.eqb (Js.trim p) p
  && negb (Js.includes blankLine p) && (String.length p <=? MAX_CHUNK_LENGTH) = true ->
  chunkSized p.
Proof.
  rewrite !andb_true_iff, !negb_true_iff. intros [[[Hne Htrim] Hblank] Hlen].
  split; [|split; [|split]].
  - now apply String.eqb_neq.
  - now apply String.eqb_eq.
  - exact Hblank.
  - now apply Nat.leb_le.
Qed.

End ChunkFacts.

Module Chunks.
Import Dom ArticleParser Spec Samples TTS ClassifierFacts ExtractionFacts StrategyFacts
  ChunkFacts.

(** X11. No chunk of [splitIntoChunks] is empty, and every chunk is
    trimmed, whatever the text. *)
Theorem chunks_are_trimmed (text : string) :
  Forall (fun chunk => chunk <> "" /\ Js.trim chunk = chunk) (splitIntoChunks text).
Proof.
  exact (splitIntoChunks_trimmed text).
Qed.

(** X12. Joining parts with blank lines and chunking the result gives the
    parts back, when each part is trimmed, not empty, has no blank line
    inside and is at most 4000 characters long. *)
Theorem chunks_of_joined_parts (parts : list string) :
  Forall chunkSized parts ->
  splitIntoChunks (Js.join blankLine parts) = parts.
Proof.
  exact (splitIntoChunks_join parts).
Qed.

Lemma chunks_of_joined_parts_witness :
  Forall chunkSized [helloText; otherAuthorText; secondText]
  /\ splitIntoChunks (Js.join blankLine [helloText; otherAuthorText; secondText])
     = [helloText; otherAuthorText; secondText].
Proof.
  assert (H : Forall chunkSized [helloText; otherAuthorText; secondText]).
  { repeat (apply Forall_cons; split; [apply chunkSized_check; vm_compute; reflexivity|]).
    constructor. }
  split; [exact H|]. exact (chunks_of_joined_parts _ H).
Defined.



(** X14. A chunk is longer than 4000 characters only when it is a single
    sentence, trimmed, of a paragraph longer than that. *)
Theorem chunk_length_bound (text : string) :
  Forall (fun chunk =>
            String.length chunk <= MAX_CHUNK_LENGTH
            \/ exists para sentence,
                 para ∈ splitParagraphs false text
                 /\ MAX_CHUNK_LENGTH < String.length para
                 /\ sentence ∈ sentencesOf para
                 /\ chunk = Js.trim sentence)
         (splitIntoChunks text).
Proof.
  unfold splitIntoChunks. apply append_loop_Forall; [|constructor].
  intros acc para Hpara.
  destruct (String.length para <=? MAX_CHUNK_LENGTH) eqn:Hlen.
  - unfold chunkParagraph. rewrite Hlen.
    destruct (String.length (Js.trim para) =? 0).
    + exists []. now rewrite app_nil_r.
    + exists [Js.trim para]. split; [|reflexivity]. constructor; [|constructor].
      left. apply Nat.leb_le in Hlen. pose proof (length_trim para). lia.
  - apply Nat.leb_gt in Hlen. apply chunkParagraph_shape.
    intros t _ [Ht|Ht] _.
    + left. pose proof (length_trim t). lia.
    + right. now exists para, t.
Qed.

(** X15. Cutting a paragraph into sentences loses its punctuation marks
    at the very start and whatever follows its last punctuation mark,
    and nothing else: unless the paragraph has no sentence at all and is
    taken whole, the sentences put together are the paragraph without
    these two ends. *)
Theorem sentences_cover_paragraph (para : string) :
  sentencesOf para = [para]
  \/ exists lead tail,
       para = lead +:+ String.concat "" (sentencesOf para) +:+ tail
       /\ allChars isTerminator lead = true
       /\ allChars otherChar tail = true.
Proof.
  assert (H : exists lead tail,
            para = lead +:+ String.concat "" (matchSentences Outside para) +:+ tail
            /\ allChars isTerminator lead = true
            /\ allChars otherChar tail = true).
  { induction para as [|c para IH].
    - exists "", "". now split.
    - cbn [matchSentences]. destruct (isTerminator c) eqn:Hc.
      + destruct IH as (lead & tail & Heq & Hlead & Htail).
        exists (String c lead), tail. split; [|split; [|exact Htail]].
        * rewrite append_cons. now f_equal.
        * simpl. now rewrite Hc, Hlead.
      + destruct (matchSentences_inside para (InBody (String c "")) (String c ""))
          as (tail & Htail & Heq).
        { left. split; [reflexivity|]. simpl. unfold otherChar. now rewrite Hc. }
        exists "", tail. split; [exact Heq|]. now split. }
  unfold sentencesOf. destruct (matchSentences Outside para) as [|s l]; [now left|].
  now right.
Qed.

End Chunks.

(** ** Voices *)

Module VoiceFacts.
Import Spec TTS.

Lemma insertByScore_perm (x : Voice * nat) (l : list (Voice * nat)) :
  insertByScore x l ≡ₚ x :: l.
Proof.
  induction l as [|y l IH]; simpl; [reflexivity|].
  destruct (x.2 <? y.2); [|reflexivity].
  rewrite IH. apply Permutation_swap.
Qed.

Lemma sortByScore_perm (l : list (Voice * nat)) : sortByScore l ≡ₚ l.
Proof.
  induction l as [|x l IH]; simpl; [reflexivity|].
  rewrite insertByScore_perm. now rewrite IH.
Qed.

Lemma insertByScore_descending (x : Voice * nat) (l : list (Voice * nat)) :
  descending l -> descending (insertByScore x l).
Proof.
  induction l as [|y l IH]; intros Hl; simpl.
  - split; constructor.
  - destruct Hl as [Hy Hl]. destruct (x.2 <? y.2) eqn:E.
    + apply Nat.ltb_lt in E. split; [|now apply IH].
      rewrite Forall_forall. intros z Hz.
      rewrite insertByScore_perm in Hz.
      apply elem_of_cons in Hz as [->|Hz]; [lia|].
      rewrite Forall_forall in Hy. now apply Hy.
    + apply Nat.ltb_ge in E. split; [|now split].
      constructor; [exact E|].
      rewrite Forall_forall in *. intros z Hz. specialize (Hy z Hz). lia.
Qed.

Lemma sortByScore_descending (l : list (Voice * nat)) : descending (sortByScore l).
Proof.
  induction l as [|x l IH]; simpl; [exact I|now apply insertByScore_descending].
Qed.

(** In a descending list the first [n] score at least as high as the
    others. *)
Lemma descending_firstn (n : nat) :
  forall l, descending l ->
            forall a b, a ∈ firstn n l -> b ∈ skipn n l -> b.2 <= a.2.
Proof.
  induction n as [|n IH]; intros l Hl a b Ha Hb; [inversion Ha|].
  destruct l as [|x l]; [inversion Ha|].
  destruct Hl as [Hx Hl]. simpl in *.
  apply elem_of_cons in Ha as [->|Ha].
  - rewrite Forall_forall in Hx. apply Hx.
    rewrite <- (firstn_skipn n l). apply elem_of_app. now right.
  - now apply (IH l).
Qed.

Lemma descending_firstn_keeps (n : nat) :
  forall l, descending l -> descending (firstn n l).
Proof.
  induction n as [|n IH]; intros l Hl; [exact I|].
  destruct l as [|x l]; [exact I|]. destruct Hl as [Hx Hl]. simpl. split; [|now apply IH].
  rewrite Forall_forall in *. intros y Hy. apply Hx.
  rewrite <- (firstn_skipn n l). apply elem_of_app. now left.
Qed.

Lemma ranked_scores (allVoices : list Voice) :
  Forall (fun p => p.2 = voiceScore p.1 /\ isEnglish p.1 = true /\ p.1 ∈ allVoices)
         (ranked allVoices).
Proof.
  unfold ranked. rewrite Forall_forall. intros p Hp.
  rewrite sortByScore_perm in Hp. apply list_elem_of_In, in_map_iff in Hp as (v & <- & Hv).
  apply filter_In in Hv as [Hv He]. simpl. now rewrite list_elem_of_In.
Qed.

Lemma ranked_length (allVoices : list Voice) :
  length (ranked allVoices) = length (List.filter isEnglish allVoices).
Proof.
  unfold ranked. rewrite (Permutation_length (sortByScore_perm _)). apply length_map.
Qed.

(** The [if] at the end of [getVoices] never takes its first branch with
    a voice to return: the top voices are empty only when there is no
    English voice. *)
Lemma getVoices_top (allVoices : list Voice) :
  getVoices allVoices = map fst (firstn 5 (ranked allVoices)).
Proof.
  unfold getVoices. fold (ranked allVoices).
  destruct (length (map fst (firstn 5 (ranked allVoices))) =? 0) eqn:E; [|reflexivity].
  apply Nat.eqb_eq in E. rewrite length_map, length_firstn, ranked_length in E.
  destruct (List.filter isEnglish allVoices) as [|v l] eqn:Hf; [|simpl in E; lia].
  unfold ranked. now rewrite Hf.
Qed.

Lemma descending_bestFirst (l : list (Voice * nat)) :
  Forall (fun p => p.2 = voiceScore p.1) l -> descending l -> bestFirst (map fst l).
Proof.
  induction l as [|x l IH]; intros Hs Hd; [exact I|].
  apply Forall_cons in Hs as [Hx Hs]. destruct Hd as [Hd Hl]. simpl.
  split; [|now apply IH].
  rewrite Forall_forall. intros w Hw. apply list_elem_of_In, in_map_iff in Hw as (p & <- & Hp).
  rewrite Forall_forall in Hd, Hs. apply list_elem_of_In in Hp.
  rewrite <- Hx, <- (Hs p Hp). now apply Hd.
Qed.

Lemma ranked_complete (allVoices : list Voice) (v : Voice) :
  v ∈ allVoices -> isEnglish v = true -> (v, voiceScore v) ∈ ranked allVoices.
Proof.
  intros Hv He. unfold ranked. rewrite sortByScore_perm.
  apply list_elem_of_In, in_map_iff. exists v. split; [reflexivity|].
  apply filter_In. split; [now apply list_elem_of_In|exact He].
Qed.

(** The first voice [getVoices] returns is the best English voice. *)
Lemma getVoices_head_best (allVoices : list Voice) (g : Voice) (gs : list Voice) :
  getVoices allVoices = g :: gs ->
  forall w, w ∈ allVoices -> isEnglish w = true -> voiceScore w <= voiceScore g.
Proof.
  rewrite getVoices_top. intros Hg w Hw He.
  pose proof (ranked_complete allVoices w Hw He) as Hin.
  pose proof (sortByScore_descending
                (map (fun voice => (voice, voiceScore voice))
                     (List.filter isEnglish allVoices))) as Hd.
  fold (ranked allVoices) in Hd.
  pose proof (ranked_scores allVoices) as Hr.
  destruct (ranked allVoices) as [|p r]; [discriminate Hg|].
  simpl in Hg. injection Hg as Hp _. subst g.
  apply Forall_cons in Hr as [(Hp & _) _]. destruct Hd as [Hd _].
  apply elem_of_cons in Hin as [<-|Hin]; [simpl; lia|].
  rewrite Forall_forall in Hd. specialize (Hd _ Hin). simpl in Hd. lia.
Qed.

(** What [getVoices] returns. *)
Lemma getVoices_best (allVoices : list Voice) :
  length (getVoices allVoices) = min 5 (length (List.filter isEnglish allVoices))
  /\ Forall (fun v => isEnglish v = true /\ v ∈ allVoices) (getVoices allVoices)
  /\ bestFirst (getVoices allVoices)
  /\ (forall v w, v ∈ allVoices -> isEnglish v = true -> v ∉ getVoices allVoices ->
                  w ∈ getVoices allVoices -> voiceScore v <= voiceScore w)
  /\ (getVoices allVoices = [] <-> List.filter isEnglish allVoices = []).
Proof.
  rewrite getVoices_top.
  assert (Hlen : length (map fst (firstn 5 (ranked allVoices)))
                 = min 5 (length (List.filter isEnglish allVoices))).
  { now rewrite length_map, length_firstn, ranked_length. }
  pose proof (ranked_scores allVoices) as Hr.
  assert (Hr5 : Forall (fun p => p.2 = voiceScore p.1 /\ isEnglish p.1 = true
                                 /\ p.1 ∈ allVoices) (firstn 5 (ranked allVoices))).
  { rewrite Forall_forall in *. intros p Hp. apply Hr.
    rewrite <- (firstn_skipn 5 (ranked allVoices)). apply elem_of_app. now left. }
  pose proof (proj1 (Forall_forall _ _) Hr5) as Hr5'.
  split; [exact Hlen|]. split; [|split; [|split]].
  - rewrite Forall_forall. intros v Hv.
    apply list_elem_of_In, in_map_iff in Hv as (p & <- & Hp).
    apply list_elem_of_In in Hp. now destruct (Hr5' p Hp) as (_ & He & Hin).
  - apply descending_bestFirst.
    + eapply Forall_impl; [exact Hr5|]. now intros p [Hp _].
    + apply descending_firstn_keeps, sortByScore_descending.
  - intros v w Hv He Hnot Hw.
    apply list_elem_of_In, in_map_iff in Hw as (p & <- & Hp). apply list_elem_of_In in Hp.
    pose proof (ranked_complete allVoices v Hv He) as Hin.
    rewrite <- (firstn_skipn 5 (ranked allVoices)) in Hin.
    apply elem_of_app in Hin as [Hin|Hin].
    + exfalso. apply Hnot. apply list_elem_of_In, in_map_iff.
      exists (v, voiceScore v). split; [reflexivity|]. now apply list_elem_of_In.
    + destruct (Hr5' p Hp) as (<- & _).
      exact (descending_firstn 5 _ (sortByScore_descending _) p (v, voiceScore v) Hp Hin).
  - destruct (List.filter isEnglish allVoices) as [|v l] eqn:Hf.
    + split; [reflexivity|]. intros _.
      destruct (map fst (firstn 5 (ranked allVoices))); [reflexivity|discriminate Hlen].
    + split; [|discriminate]. intros H. rewrite H in Hlen. simpl in Hlen. lia.
Qed.

End VoiceFacts.

Module Voices.
Import Spec Samples TTS VoiceFacts.

(** X16. [getVoices] returns the five best English voices, or all of
    them when there are fewer: only English voices of the list it was
    given, best score first, and no English voice it leaves out scores
    higher than one it returns.  It returns none only when there is no
    English voice, so its branch for the first three English voices
    never yields a voice. *)
Theorem best_english_voices (allVoices : list Voice) :
  length (getVoices allVoices) = min 5 (length (List.filter isEnglish allVoices))
  /\ Forall (fun v => isEnglish v = true /\ v ∈ allVoices) (getVoices allVoices)
  /\ bestFirst (getVoices allVoices)
  /\ (forall v w, v ∈ allVoices -> isEnglish v = true -> v ∉ getVoices allVoices ->
                  w ∈ getVoices allVoices -> voiceScore v <= voiceScore w)
  /\ (getVoices allVoices = [] <-> List.filter isEnglish allVoices = []).
Proof.
  exact (getVoices_best allVoices).
Qed.

Lemma best_english_voices_witness :
  map name (getVoices someVoices)
  = ["Microsoft Aria Online (Natural)"; "Samantha"; "Google US English"; "Fred"; "Rishi"]
  /\ voiceScore (mkVoice "Veena" "en-IN" false)
     <= voiceScore (mkVoice "Rishi" "en-IN" true).
Proof.
  split; [vm_compute; reflexivity|].
  destruct (best_english_voices someVoices) as (_ & _ & _ & Hout & _).
  apply Hout.
  - unfold someVoices. rewrite !elem_of_cons. tauto.
  - vm_compute; reflexivity.
  - intros Hin. apply list_elem_of_In in Hin. vm_compute in Hin.
    repeat (destruct Hin as [Hin|Hin]; [discriminate Hin|]). exact Hin.
  - apply list_elem_of_In. vm_compute. tauto.
Defined.

(** X17. The voice [initVoice] makes current, when both reads of the
    voice list agree: the saved voice if it is in the list; otherwise the
    best-scored English voice if there is an English voice; and no voice
    only when the host has no voice at all. *)
Theorem initial_voice (saved : option string) (allVoices : list Voice) :
  (initVoice saved allVoices allVoices = None <-> allVoices = [])
  /\ (forall v, initVoice saved allVoices allVoices = Some v -> v ∈ allVoices)
  /\ (forall v, savedVoice saved allVoices = Some v ->
                initVoice saved allVoices allVoices = Some v /\ saved = Some (name v))
  /\ (savedVoice saved allVoices = None ->
      List.filter isEnglish allVoices <> [] ->
      exists v, initVoice saved allVoices allVoices = Some v
                /\ isEnglish v = true
                /\ forall w, w ∈ allVoices -> isEnglish w = true ->
                             voiceScore w <= voiceScore v).
Proof.
  assert (Hunfold : initVoice saved allVoices allVoices
                    = match savedVoice saved allVoices with
                      | Some v => Some v
                      | None =>
                          Dom.orElse (head (getVoices allVoices))
                            (Dom.orElse (List.find isEnglish allVoices) (head allVoices))
                      end) by reflexivity.
  assert (Hsaved : forall v, savedVoice saved allVoices = Some v ->
                             v ∈ allVoices /\ saved = Some (name v)).
  { intros v. unfold savedVoice. destruct saved as [s|]; [|discriminate].
    destruct (Js.truthy s); [|discriminate]. intros H.
    apply find_some in H as [Hin Heq]. apply String.eqb_eq in Heq.
    split; [now apply list_elem_of_In|now subst]. }
  destruct (getVoices_best allVoices) as (_ & Heng & Hbest & Hout & Hnone).
  rewrite Hunfold. split; [|split; [|split]].
  - destruct (savedVoice saved allVoices) as [v|] eqn:Hs.
    + split; [discriminate|]. intros ->. destruct (Hsaved v eq_refl) as [Hin _].
      inversion Hin.
    + destruct allVoices as [|a l]; [now split|]. split; [|discriminate].
      intros H. exfalso. unfold Dom.orElse in H.
      destruct (head (getVoices (a :: l))); [discriminate H|].
      destruct (List.find isEnglish (a :: l)); discriminate H.
  - intros v. destruct (savedVoice saved allVoices) as [s|] eqn:Hs.
    + intros [= <-]. now destruct (Hsaved s eq_refl) as [Hin _].
    + destruct (getVoices allVoices) as [|g gs] eqn:Hg; simpl.
      * destruct (List.find isEnglish allVoices) as [e|] eqn:He.
        -- intros [= <-]. apply find_some in He as [He _]. now apply list_elem_of_In.
        -- destruct allVoices as [|a l]; [discriminate|]. intros [= <-].
           apply list_elem_of_here.
      * intros [= <-]. apply Forall_cons in Heng as [[_ Hin] _]. exact Hin.
  - intros v Hs. rewrite Hs. split; [reflexivity|]. now apply Hsaved in Hs as [_ Hs].
  - intros Hs Hen. rewrite Hs.
    destruct (getVoices allVoices) as [|g gs] eqn:Hg.
    + exfalso. now apply Hen, Hnone.
    + exists g. split; [reflexivity|].
      pose proof Heng as Heng'. apply Forall_cons in Heng' as [[He _] _].
      split; [exact He|]. now apply (getVoices_head_best allVoices g gs).
Qed.

Lemma initial_voice_witness :
  savedVoice (Some "Fred") someVoices = Some (mkVoice "Fred" "en-US" true)
  /\ initVoice (Some "Fred") someVoices someVoices = Some (mkVoice "Fred" "en-US" true)
  /\ exists v, initVoice None someVoices someVoices = Some v
               /\ voiceScore (mkVoice "Samantha" "en-US" true) <= voiceScore v.
Proof.
  assert (Hs : savedVoice (Some "Fred") someVoices = Some (mkVoice "Fred" "en-US" true))
    by (vm_compute; reflexivity).
  split; [exact Hs|]. split.
  - destruct (initial_voice (Some "Fred") someVoices) as (_ & _ & Hsaved & _).
    now destruct (Hsaved _ Hs).
  - destruct (initial_voice None someVoices) as (_ & _ & _ & Hbest).
    destruct Hbest as (v & Hv & _ & Hmax); [reflexivity|vm_compute; discriminate|].
    exists v. split; [exact Hv|]. apply Hmax; [|vm_compute; reflexivity].
    unfold someVoices. rewrite !elem_of_cons. tauto.
Defined.

End Voices.

(** ** The player *)

Module PlayerFacts.
Import Spec TTS ChunkFacts.

Section Player.

Context {Rate Callback Event : Type}.
Variable clampRate : Rate -> Rate.
Variable strictEq : Rate -> Rate -> bool.

Abbreviation State := (@State Rate Callback).
Abbreviation Effect := (@Effect Rate Callback Event).
Abbreviation Action := (@Action Rate Callback Event).
Abbreviation invoke := (@invoke Rate Callback Event).
Abbreviation speakChunk := (@speakChunk Rate Callback Event).
Abbreviation perform := (@perform Rate Callback Event clampRate strictEq).
Abbreviation run := (@run Rate Callback Event clampRate strictEq).
Abbreviation spokenFrom := (@spokenFrom Rate Callback Event).
Abbreviation spoken := (@spoken Rate Callback Event).

Lemma spoken_app (a b : list Effect) : spoken (a ++ b) = spoken a ++ spoken b.
Proof. apply flat_map_app. Qed.

Lemma spoken_invoke (callback : option Callback) (args : CallbackArgs) :
  spoken (invoke callback args) = [].
Proof. now destruct callback. Qed.

Lemma run_cons (a : Action) (actions : list Action) (st : State) :
  run (a :: actions) st
  = ((run actions (perform a st).1).1,
     (perform a st).2 ++ (run actions (perform a st).1).2).
Proof.
  simpl. destruct (perform a st) as [st1 e1]. simpl.
  now destruct (run actions st1) as [st2 e2].
Qed.

Lemma run_app (xs ys : list Action) (st : State) :
  run (xs ++ ys) st
  = ((run ys (run xs st).1).1, (run xs st).2 ++ (run ys (run xs st).1).2).
Proof.
  revert st. induction xs as [|a xs IH]; intros st.
  - simpl. now destruct (run ys st).
  - rewrite <- app_comm_cons, !run_cons, IH. simpl. now rewrite app_assoc.
Qed.

(** [speakChunk] keeps a pause within a playback. *)
Lemma speakChunk_paused (i : nat) (st : State) :
  pausedWhilePlaying st -> pausedWhilePlaying (speakChunk i st).1.
Proof.
  unfold pausedWhilePlaying, speakChunk. destruct (length (textChunks st) <=? i); simpl.
  - discriminate.
  - auto.
Qed.

Lemma perform_paused (a : Action) (st : State) :
  pausedWhilePlaying st -> pausedWhilePlaying (perform a st).1.
Proof.
  unfold pausedWhilePlaying.
  destruct st as [u playing paused voice chunks index cbs rate]. simpl.
  destruct playing, paused; intros H; try (now discriminate H);
    destruct a; simpl;
    unfold setVoice, setRate, speakResumed, pause, resume, togglePause, skipNext,
      skipPrevious, skipToChunk, onend, onerror, speakChunk; simpl;
    repeat (case_match; simplify_eq/=); auto.
Qed.

Lemma run_paused (actions : list Action) (st : State) :
  pausedWhilePlaying st -> pausedWhilePlaying (run actions st).1.
Proof.
  revert st. induction actions as [|a actions IH]; intros st H; [exact H|].
  rewrite run_cons. simpl. now apply IH, perform_paused.
Qed.

Lemma speakChunk_spoken (i : nat) (st : State) :
  textChunks (speakChunk i st).1 = textChunks st
  /\ spokenFrom st (speakChunk i st).2.
Proof.
  unfold speakChunk, spokenFrom. destruct (length (textChunks st) <=? i) eqn:Hi; simpl.
  - split; [reflexivity|]. rewrite spoken_invoke. constructor.
  - split; [reflexivity|]. constructor; [|constructor]. simpl.
    apply Nat.leb_gt in Hi. revert i Hi.
    induction (textChunks st) as [|c l IH]; intros i Hi; simpl in *; [lia|].
    destruct i as [|i]; [reflexivity|]. apply IH. lia.
Qed.

Lemma perform_spoken (a : Action) (st : State) :
  (textChunks (perform a st).1 = textChunks st
   \/ exists text, a = SpeakResumed text
                   /\ textChunks (perform a st).1 = splitIntoChunks text)
  /\ spokenFrom (perform a st).1 (perform a st).2.
Proof.
  assert (Hnone : forall st' : State, spokenFrom st' []) by (intros; apply Forall_nil_2).
  assert (Hcb : forall (st' : State) cb args, spokenFrom st' (invoke cb args)).
  { intros. unfold spokenFrom. rewrite spoken_invoke. constructor. }
  assert (Hsk : forall (f : State -> State) i pre,
             (forall s, textChunks (f s) = textChunks s) ->
             spoken pre = [] ->
             (textChunks (speakChunk i (f st)).1 = textChunks st
              \/ exists text, a = SpeakResumed text
                   /\ textChunks (speakChunk i (f st)).1
                      = splitIntoChunks text)
             /\ spokenFrom (speakChunk i (f st)).1
                  (pre ++ (speakChunk i (f st)).2)).
  { intros f i pre Hf Hpre. destruct (speakChunk_spoken i (f st)) as [Hc Hs].
    split; [left; now rewrite Hc, Hf|]. unfold spokenFrom in *.
    now rewrite spoken_app, Hpre, Hc. }
  destruct a as [voiceName allVoices|rate|savedRate|text| | | | | | |index|given|savedRate|saved allVoices laterVoices|chunkIndex| |event chunkIndex|error]; simpl.
  - unfold setVoice. destruct (find _ _); simpl; (split; [now left|apply Hnone]).
  - unfold setRate.
    destruct (isPlaying _ && negb (isPaused _) && negb (strictEq _ _) && (0 <? _)).
    + pose proof (Hsk (setCurrentRate (clampRate rate)) (currentChunkIndex st)
                    [SaveRate (clampRate rate); SynthCancel]
                    (fun _ => eq_refl) eq_refl) as H.
      simpl in H. now destruct (speakChunk _ _).
    + split; [now left|]. constructor.
  - split; [now left|]. constructor.
  - unfold speakResumed. simpl. destruct (length (splitIntoChunks text) =? 0).
    + split; [|apply Hnone]. right. now exists text.
    + match goal with
      | |- context [speakChunk 0 ?s] =>
          destruct (speakChunk_spoken 0 s) as [Hc Hs]
      end.
      split; [|unfold spokenFrom in *; now rewrite Hc].
      right. exists text. split; [reflexivity|]. now rewrite Hc.
  - unfold pause. destruct (isPlaying st && negb (isPaused st)); simpl.
    + split; [now left|]. apply (Hcb _ _ NoArguments).
    + split; [now left|apply Hnone].
  - unfold resume. destruct (isPlaying st && isPaused st); simpl.
    + split; [now left|]. apply (Hcb _ _ NoArguments).
    + split; [now left|apply Hnone].
  - unfold togglePause, pause, resume. destruct (isPaused st).
    + destruct (isPlaying st && true); simpl.
      * split; [now left|]. apply (Hcb _ _ NoArguments).
      * split; [now left|apply Hnone].
    + destruct (isPlaying st && negb false); simpl.
      * split; [now left|]. apply (Hcb _ _ NoArguments).
      * split; [now left|apply Hnone].
  - split; [now left|]. constructor.
  - unfold skipNext. destruct (negb _ || _); [split; [now left|apply Hnone]|].
    pose proof (Hsk (setChunkIndex (S (currentChunkIndex st))) (S (currentChunkIndex st))
                  [SynthCancel] (fun _ => eq_refl) eq_refl) as H.
    simpl in *. now destruct (speakChunk _ _).
  - unfold skipPrevious. destruct (negb _ || _); [split; [now left|apply Hnone]|].
    pose proof (Hsk (setChunkIndex (currentChunkIndex st - 1)) (currentChunkIndex st - 1)
                  [SynthCancel] (fun _ => eq_refl) eq_refl) as H.
    simpl in *. now destruct (speakChunk _ _).
  - unfold skipToChunk. destruct ((index <? 0)%Z || _); [split; [now left|apply Hnone]|].
    simpl. destruct (isPlaying st); [|split; [now left|constructor]].
    pose proof (Hsk (setChunkIndex (Z.to_nat index)) (Z.to_nat index)
                  [SynthCancel] (fun _ => eq_refl) eq_refl) as H.
    simpl in *. now destruct (speakChunk _ _).
  - split; [now left|apply Hnone].
  - split; [now left|apply Hnone].
  - split; [now left|apply Hnone].
  - split; [now left|]. unfold onstart, spokenFrom. simpl. rewrite spoken_app.
    rewrite spoken_invoke, app_nil_r. destruct (chunkIndex =? 0); [|constructor].
    rewrite spoken_invoke. constructor.
  - unfold onend. simpl. destruct (negb (isPaused st) && isPlaying st).
    + exact (Hsk (setChunkIndex (S (currentChunkIndex st))) _ [] (fun _ => eq_refl) eq_refl).
    + split; [now left|apply Hnone].
  - split; [now left|]. apply (Hcb _ _ (BoundaryArguments event chunkIndex)).
  - unfold onerror. destruct ((negb _) && (negb _)); [|split; [now left|apply Hnone]]. simpl.
    destruct (isPlaying st && _); [|split; [now left|constructor]].
    pose proof (Hsk (setChunkIndex (S (currentChunkIndex st))) (S (currentChunkIndex st))
                  [ConsoleError error] (fun _ => eq_refl) eq_refl) as H.
    simpl in *. now destruct (speakChunk _ _).
Qed.

Lemma chunksOf_more (texts texts' chunks : list string) :
  chunksOf texts chunks -> chunksOf (texts ++ texts') chunks.
Proof.
  intros [H|(t & Ht & H)]; [now left|]. right. exists t. split; [|exact H].
  apply elem_of_app. now left.
Qed.

Lemma textsSpoken_cons (a : Action) (actions : list Action) :
  textsSpoken (a :: actions) = textsSpoken [a] ++ textsSpoken actions.
Proof. unfold textsSpoken. simpl. now rewrite app_nil_r. Qed.

(** Whatever is spoken in a run is a chunk of a text that was given. *)
Lemma run_spoken (actions : list Action) (st : State) (texts : list string) :
  chunksOf texts (textChunks st) ->
  Forall (fun u => exists text,
              text ∈ texts ++ textsSpoken actions
              /\ splitIntoChunks text !! utteranceChunk u = Some (utteranceText u))
         (spoken (run actions st).2).
Proof.
  revert st texts. induction actions as [|a actions IH]; intros st texts H.
  - constructor.
  - rewrite run_cons. cbn [fst snd]. rewrite spoken_app. apply Forall_app.
    destruct (perform_spoken a st) as [Hc Hs].
    assert (Hnext : chunksOf (texts ++ textsSpoken [a]) (textChunks (perform a st).1)).
    { destruct Hc as [Hc|(t & -> & Hc)].
      - rewrite Hc. now apply chunksOf_more.
      - right. exists t. split; [|exact Hc]. apply elem_of_app. right. simpl.
        apply list_elem_of_here. }
    split.
    + eapply Forall_impl; [exact Hs|]. intros u Hu. simpl in Hu.
      destruct Hnext as [Hn|(t & Ht & Hn)]; rewrite Hn in Hu; [discriminate Hu|].
      exists t. split; [|exact Hu].
      rewrite textsSpoken_cons, app_assoc. apply elem_of_app. now left.
    + specialize (IH _ _ Hnext). eapply Forall_impl; [exact IH|].
      intros u (t & Ht & Hu). exists t. split; [|exact Hu].
      now rewrite textsSpoken_cons, app_assoc.
Qed.

Lemma textsSpoken_elem (actions : list Action) (text : string) :
  text ∈ textsSpoken actions -> SpeakResumed text ∈ actions.
Proof.
  intros H. apply list_elem_of_In, in_flat_map in H as (a & Ha & Hin).
  apply list_elem_of_In. destruct a; simpl in Hin; try contradiction.
  destruct Hin as [->|[]]. exact Ha.
Qed.

(** Nothing starts while nothing plays. *)
Lemma speakChunk_silent (i : nat) (st : State) :
  isPlaying st = false ->
  length (textChunks st) <= i ->
  isPlaying (speakChunk i st).1 = false
  /\ spoken (speakChunk i st).2 = [].
Proof.
  intros Hp Hi. unfold speakChunk. apply Nat.leb_le in Hi. rewrite Hi. simpl.
  split; [reflexivity|apply spoken_invoke].
Qed.

Lemma perform_silent (a : Action) (st : State) :
  isPlaying st = false -> startsNothing a = true ->
  isPlaying (perform a st).1 = false /\ spoken (perform a st).2 = [].
Proof.
  intros Hp Ha.
  destruct a as [voiceName allVoices|rate|savedRate|text| | | | | | |index|given|savedRate|saved allVoices laterVoices|chunkIndex| |event chunkIndex|error]; simpl; try discriminate Ha.
  - unfold setVoice. now destruct (find _ _).
  - unfold setRate. simpl. rewrite Hp. simpl. now split.
  - now split.
  - unfold pause. rewrite Hp. now split.
  - unfold resume. rewrite Hp. now split.
  - unfold togglePause, pause, resume. rewrite Hp. now destruct (isPaused st).
  - now split.
  - unfold skipNext. rewrite Hp. now split.
  - unfold skipPrevious. rewrite Hp. now split.
  - unfold skipToChunk. destruct ((index <? 0)%Z || _); [now split|]. simpl.
    rewrite Hp. now split.
  - now split.
  - now split.
  - now split.
  - unfold onstart. simpl. split; [exact Hp|]. rewrite spoken_app, !spoken_invoke.
    destruct (chunkIndex =? 0); [now rewrite spoken_invoke|reflexivity].
  - unfold onend. simpl. rewrite Hp, andb_false_r. now split.
  - unfold onboundary. simpl. split; [exact Hp|apply spoken_invoke].
  - unfold onerror. destruct ((negb _) && (negb _)); [|now split]. simpl. rewrite Hp.
    now split.
Qed.

Lemma run_silent (actions : list Action) (st : State) :
  isPlaying st = false -> forallb startsNothing actions = true ->
  isPlaying (run actions st).1 = false /\ spoken (run actions st).2 = [].
Proof.
  revert st. induction actions as [|a actions IH]; intros st Hp Ha; [now split|].
  simpl in Ha. apply andb_true_iff in Ha as [Ha Hrest].
  destruct (perform_silent a st Hp Ha) as [Hp1 Hs1].
  destruct (IH _ Hp1 Hrest) as [Hp2 Hs2].
  rewrite run_cons. simpl. split; [exact Hp2|]. now rewrite spoken_app, Hs1, Hs2.
Qed.

Lemma nth_middle_app (pre : list string) (c : string) (rest : list string) :
  nth (length pre) (pre ++ c :: rest) "" = c.
Proof. induction pre as [|p pre IH]; [reflexivity|exact IH]. Qed.

Lemma lookup_middle_app (pre : list string) (c : string) (rest : list string) :
  (pre ++ c :: rest) !! length pre = Some c.
Proof. induction pre as [|p pre IH]; [reflexivity|exact IH]. Qed.

(** One utterance starts and ends. *)
Lemma run_start_end (st : State) (k : nat) (c : string) :
  textChunks st !! k = Some c ->
  run [UtteranceStart k; UtteranceEnd] (playingAt st k)
  = (if length (textChunks st) <=? S k then playedAll st else playingAt st (S k),
     (if k =? 0 then invoke (onStartCallback (callbacks st)) NoArguments else [])
     ++ invoke (onChunkChangeCallback (callbacks st))
          (ChunkChangeArguments k (length (textChunks st)) (Some c))
     ++ (if length (textChunks st) <=? S k
         then invoke (onEndCallback (callbacks st)) NoArguments
         else [SynthSpeak (utteranceFor st (S k))])).
Proof.
  intros Hc. rewrite !run_cons. cbn [run perform fst snd].
  unfold onstart. cbn [fst snd]. unfold onend, playingAt. cbn [isPaused isPlaying
    setChunkIndex currentChunkIndex negb andb textChunks callbacks].
  unfold speakChunk. cbn [textChunks setChunkIndex]. rewrite Hc.
  destruct (length (textChunks st) <=? S k) eqn:Hlen; cbn [fst snd].
  - rewrite app_nil_r, <- app_assoc. f_equal. unfold playedAll, setPlayback. cbn.
    apply Nat.leb_le in Hlen. apply lookup_lt_Some in Hc.
    replace (length (textChunks st)) with (S k) by lia.
    now replace (S k - 1) with k by lia.
  - rewrite app_nil_r, <- app_assoc. reflexivity.
Qed.

(** The host plays the utterances from number [length pre] to the last. *)
Lemma run_hostPlays (st : State) (rest pre : list string) (c : string) :
  textChunks st = pre ++ c :: rest ->
  run (hostPlays (length pre) (S (length rest))) (playingAt st (length pre))
  = (playedAll st,
     (if length pre =? 0 then invoke (onStartCallback (callbacks st)) NoArguments
      else [])
     ++ invoke (onChunkChangeCallback (callbacks st))
          (ChunkChangeArguments (length pre) (length (textChunks st)) (Some c))
     ++ playback st (S (length pre)) rest).
Proof.
  revert pre c. induction rest as [|c' rest IH]; intros pre c Hc.
  - unfold hostPlays. cbn [seq flat_map app length].
    rewrite (run_start_end st (length pre) c) by (rewrite Hc; apply lookup_middle_app).
    assert (Hlen : (length (textChunks st) <=? S (length pre)) = true).
    { apply Nat.leb_le. rewrite Hc, length_app. simpl. lia. }
    now rewrite Hlen.
  - assert (Hsplit : hostPlays (Rate := Rate) (Callback := Callback) (Event := Event)
                       (length pre) (S (length (c' :: rest)))
                     = [UtteranceStart (length pre); UtteranceEnd]
                       ++ hostPlays (S (length pre)) (S (length rest))) by reflexivity.
    rewrite Hsplit, run_app.
    rewrite (run_start_end st (length pre) c) by (rewrite Hc; apply lookup_middle_app).
    assert (Hlen : (length (textChunks st) <=? S (length pre)) = false).
    { apply Nat.leb_gt. rewrite Hc, length_app. simpl. lia. }
    rewrite Hlen. cbn [fst snd].
    specialize (IH (pre ++ [c]) c'). rewrite <- app_assoc in IH. specialize (IH Hc).
    rewrite length_app in IH. cbn [length] in IH.
    replace (length pre + 1) with (S (length pre)) in IH by lia.
    rewrite IH. cbn [fst snd]. f_equal. rewrite <- !app_assoc. do 2 f_equal.
    cbn [playback app Nat.eqb]. f_equal. unfold utteranceFor. f_equal.
    replace (pre ++ c :: c' :: rest) with ((pre ++ [c]) ++ c' :: rest) in Hc
      by now rewrite <- app_assoc.
    rewrite Hc. replace (S (length pre)) with (length (pre ++ [c]))
      by (rewrite length_app; simpl; lia).
    now rewrite nth_middle_app.
Qed.

End Player.

End PlayerFacts.

Module Player.
Import Spec Samples TTS ChunkFacts PlayerFacts.

Section Player.

Context {Rate Callback Event : Type}.
Variable clampRate : Rate -> Rate.
Variable strictEq : Rate -> Rate -> bool.

Abbreviation State := (@State Rate Callback).
Abbreviation Action := (@Action Rate Callback Event).
Abbreviation Effect := (@Effect Rate Callback Event).
Abbreviation run := (@run Rate Callback Event clampRate strictEq).
Abbreviation spoken := (@spoken Rate Callback Event).
Abbreviation invoke := (@invoke Rate Callback Event).
Abbreviation togglePause := (@togglePause Rate Callback Event).
Abbreviation skipNext := (@skipNext Rate Callback Event).
Abbreviation skipPrevious := (@skipPrevious Rate Callback Event).
Abbreviation skipToChunk := (@skipToChunk Rate Callback Event).
Abbreviation speak := (@speak Rate Callback Event).

(** X18. The module is never paused without playing: whatever is called
    on it, in whatever order, and whatever events the host fires in
    between, [isPaused] implies [isPlaying]. *)
Theorem paused_only_while_playing (defaultRate : Rate) (actions : list Action) :
  pausedWhilePlaying (run actions (initialState defaultRate)).1.
Proof.
  apply run_paused. intros H. discriminate H.
Qed.

(** X19. Whatever is called and whatever the host fires, every utterance
    handed to the synthesiser carries a chunk of a text that [speak] was
    given, the one under the utterance's own number; so its text is
    trimmed and never empty. *)
Theorem spoken_utterances_are_chunks (defaultRate : Rate) (actions : list Action) :
  Forall (fun u =>
            (exists text,
                SpeakResumed text ∈ actions
                /\ splitIntoChunks text !! utteranceChunk u = Some (utteranceText u))
            /\ utteranceText u <> ""
            /\ Js.trim (utteranceText u) = utteranceText u)
         (spoken (run actions (initialState defaultRate)).2).
Proof.
  pose proof (run_spoken (Event := Event) clampRate strictEq actions (initialState defaultRate) []) as H.
  eapply Forall_impl; [apply H; now left|].
  intros u (text & Ht & Hu). cbn [app] in Ht. split.
  - exists text. split; [now apply textsSpoken_elem|exact Hu].
  - pose proof (splitIntoChunks_trimmed text) as Hall.
    rewrite Forall_forall in Hall. apply Hall. now apply list_elem_of_lookup_2 in Hu.
Qed.

(** X20. A playback that nothing interrupts.  [speak] cancels what was
    being said and hands the first chunk to the synthesiser, with the
    chosen voice and the saved rate; when the host then starts and ends
    each utterance in turn, every chunk of the text is handed over once,
    in order, each announced to [onChunkChange] under its number (the
    first also to [onStart]), [onEnd] is called once after the last, and
    the module ends up neither playing nor paused.  A text without
    chunks is cancelled and nothing more. *)
Theorem plays_every_chunk_in_order (savedRate : Rate) (savedVoiceName : option string)
    (allVoices laterVoices : list Voice) (text : string) (st : State) :
  let started := speak savedRate savedVoiceName allVoices laterVoices text st in
  let ended := run (hostPlays 0 (length (splitIntoChunks text))) started.1 in
  textChunks started.1 = splitIntoChunks text
  /\ currentVoice started.1 = initVoice savedVoiceName allVoices laterVoices
  /\ currentRate started.1 = savedRate
  /\ callbacks started.1 = callbacks st
  /\ started.2 ++ ended.2
     = SynthCancel :: match splitIntoChunks text with
                      | [] => []
                      | chunks => playback started.1 0 chunks
                      end
  /\ isPlaying ended.1 = false
  /\ isPaused ended.1 = false
  /\ currentChunkIndex ended.1 = length (splitIntoChunks text).
Proof.
  cbv zeta. unfold speak, speakStarted, stop, initRate, initVoiceResolved, speakResumed.
  cbn [setCurrentRate setCurrentVoice setTextChunks setChunkIndex utterance isPlaying
       isPaused currentVoice textChunks currentChunkIndex callbacks currentRate].
  destruct (splitIntoChunks text) as [|c rest] eqn:Hchunks.
  - cbn. repeat split; reflexivity.
  - cbn [length Nat.eqb]. unfold speakChunk.
    cbn [setPlayback setUtterance textChunks length Nat.leb nth fst snd utterance isPlaying
         isPaused currentVoice currentChunkIndex callbacks currentRate app].
    match goal with
    | |- context [run _ ?s] =>
        pose proof (run_hostPlays (Event := Event) clampRate strictEq s rest [] c eq_refl) as Hrun;
        change (playingAt s (length [])) with s in Hrun
    end.
    cbn [length] in Hrun. rewrite Hrun. cbn [fst snd].
    repeat split; reflexivity.
Qed.

(** X21. Once stopped, the module stays silent until [speak] goes on
    after its wait: no call of the interface and no event of an old
    utterance makes it hand anything to the synthesiser, and it is not
    playing afterwards. *)
Theorem silent_after_stop (st : State) (actions : list Action) :
  forallb startsNothing actions = true ->
  isPlaying (run (CallStop :: actions) st).1 = false
  /\ spoken (run (CallStop :: actions) st).2 = [].
Proof.
  intros Ha. rewrite run_cons. cbn [fst snd perform stop].
  rewrite spoken_app.
  match goal with
  | |- context [run actions ?s] =>
      destruct (run_silent (Event := Event) clampRate strictEq actions s eq_refl Ha) as [Hp Hs]
  end.
  rewrite Hs. now split.
Qed.

(** X22. [skipNext] succeeds exactly when the module plays and a later
    chunk exists; it then does what [skipToChunk] does for the next
    number, and a [skipPrevious] after it succeeds and is back at the
    chunk it came from, which it hands to the synthesiser again: only
    the utterance of the module has changed. *)
Theorem skip_next_then_previous (st : State) :
  ((skipNext st).1 = true
   <-> isPlaying st = true /\ S (currentChunkIndex st) < length (textChunks st))
  /\ ((skipNext st).1 = true ->
      skipNext st = skipToChunk (Z.of_nat (S (currentChunkIndex st))) st
      /\ skipPrevious (skipNext st).2.1
         = (true,
            (setUtterance (Some (utteranceFor st (currentChunkIndex st))) st,
             [SynthCancel; SynthSpeak (utteranceFor st (currentChunkIndex st))]))).
Proof.
  destruct st as [u playing paused voice chunks index cbs rate].
  unfold skipNext, skipPrevious, skipToChunk, speakChunk, utteranceFor, setUtterance.
  cbn [isPlaying textChunks currentChunkIndex setChunkIndex currentVoice currentRate
       utterance isPaused callbacks].
  destruct playing; cbn [negb orb].
  - destruct (length chunks - 1 <=? index) eqn:Hlast; cbn [fst snd].
    + split; [|discriminate]. split; [discriminate|]. intros [_ H].
      apply Nat.leb_le in Hlast. lia.
    + apply Nat.leb_gt in Hlast.
      assert (Hnext : (length chunks <=? S index) = false) by (apply Nat.leb_gt; lia).
      assert (Hhere : (length chunks <=? index) = false) by (apply Nat.leb_gt; lia).
      rewrite Hnext. cbn [fst snd negb orb Nat.leb isPlaying textChunks currentChunkIndex
                          currentVoice currentRate utterance isPaused callbacks].
      replace (S index - 1) with index by lia. rewrite Hhere.
      split; [split; [intros _; split; [reflexivity|lia]|reflexivity]|].
      intros _. split; [|reflexivity].
      assert (Hneg : (Z.of_nat (S index) <? 0)%Z = false) by (apply Z.ltb_ge; lia).
      assert (Hin : (Z.of_nat (length chunks) <=? Z.of_nat (S index))%Z = false)
        by (apply Z.leb_gt; lia).
      rewrite Hneg, Hin, Nat2Z.id. cbn [orb]. now rewrite Hnext.
  - cbn [fst]. split; [|discriminate]. split; [discriminate|]. now intros [H _].
Qed.

(** X23. Toggling the pause twice brings the module back to the state it
    was in.  While it plays, the two toggles are one pause and one
    resume of the synthesiser, each with its callback; while it does
    not play, they do nothing at all. *)
Theorem toggle_pause_twice (st : State) :
  (togglePause (togglePause st).1).1 = st
  /\ (togglePause st).2 ++ (togglePause (togglePause st).1).2
     = let pausing := SynthPause :: invoke (onPauseCallback (callbacks st)) NoArguments in
       let resuming := SynthResume :: invoke (onResumeCallback (callbacks st)) NoArguments in
       if isPlaying st
       then if isPaused st then resuming ++ pausing else pausing ++ resuming
       else [].
Proof.
  destruct st as [u playing paused voice chunks index cbs rate].
  unfold togglePause, pause, resume.
  destruct playing, paused; cbn; split; try reflexivity; now rewrite app_nil_r.
Qed.

End Player.

Lemma silent_after_stop_witness :
  forallb startsNothing afterStop = true
  /\ spoken (TTS.run clampHundredths Nat.eqb (CallStop :: afterStop) midPlayback).2 = [].
Proof.
  split; [reflexivity|].
  now destruct (silent_after_stop clampHundredths Nat.eqb midPlayback afterStop eq_refl).
Defined.

Lemma skip_next_then_previous_witness :
  (TTS.skipNext (Event := nat) midPlayback).1 = true
  /\ (TTS.skipPrevious (Event := nat) (TTS.skipNext (Event := nat) midPlayback).2.1).2.2
     = [SynthCancel; SynthSpeak (mkUtterance otherAuthorText None 85 1)].
Proof.
  assert (H : (TTS.skipNext (Event := nat) midPlayback).1 = true) by reflexivity.
  split; [exact H|].
  destruct (skip_next_then_previous (Event := nat) midPlayback) as [_ Hback].
  destruct (Hback H) as [_ Hprev]. now rewrite Hprev.
Defined.

End Player.
